(** * PinLocator (NAIL_Search): the ingestion parser, the viewport and the
      search controller

    A shallow embedding of [src/services/parser.ts], of the state handling of
    [src/components/PinMap.tsx] and of the search logic of [src/App.tsx],
    with the properties stated about them.

    Conventions of the embedding.
    - A JavaScript string is the list of its UTF-16 code units.  Code units
      are [ascii] values, so the strings covered are those whose code units
      are below 256 (Latin-1); the white-space and case tables are the
      ECMAScript ones restricted to that range.
    - A JavaScript number is an IEEE 754 binary64 value: the kernel's [float],
      whose operations are specified by [SpecFloat].
    - React state is a record; an event handler is a function from state to
      state.
    - A call that spreads an array into its arguments ([Math.min(...a)]) is
      taken to go through whatever the length of the array; the limit that
      an engine sets on the number of arguments of a call, past which it
      throws a [RangeError], is not modelled.  What is stated of a dataset
      that [parseNailFile] returns holds of the program whenever the program
      returns one. *)

From Stdlib Require Import ZArith QArith Qpower Qfield Lqa Floats List Ascii String Bool Lia.
Import ListNotations.
Close Scope Q_scope.
Open Scope string_scope.
Open Scope list_scope.

Set Warnings "-inexact-float,-uniform-inheritance,-ambiguous-paths".

(* ================================================================== *)
(** * JavaScript primitives used by the sources *)
(* ================================================================== *)

Module JS.

(** ** Strings *)

Definition jstring := list ascii.

(** String literals of the sources are written as Rocq string literals. *)
Coercion js (s : string) : jstring := list_ascii_of_string s.

Definition ascii_in (lo hi : nat) (c : ascii) : bool :=
  (lo <=? nat_of_ascii c)%nat && (nat_of_ascii c <=? hi)%nat.

(** [WhiteSpace] and [LineTerminator] code units below 256: TAB, LF, VT, FF,
    CR, SP and NBSP.  This is the set removed by [String.prototype.trim] and
    matched by the class [\s]. *)
Definition isWhiteSpace (c : ascii) : bool :=
  ascii_in 9 13 c || (nat_of_ascii c =? 32)%nat || (nat_of_ascii c =? 160)%nat.

(** [\d] *)
Definition isDigit (c : ascii) : bool := ascii_in 48 57 c.

(** [\w] *)
Definition isWord (c : ascii) : bool :=
  ascii_in 65 90 c || ascii_in 97 122 c || isDigit c || (nat_of_ascii c =? 95)%nat.

(** [.] : anything but a line terminator (LF, CR below 256). *)
Definition isDot (c : ascii) : bool :=
  negb ((nat_of_ascii c =? 10)%nat || (nat_of_ascii c =? 13)%nat).

Definition isChar (a : ascii) (c : ascii) : bool := Ascii.eqb a c.

Fixpoint trimStart (s : jstring) : jstring :=
  match s with
  | c :: s' => if isWhiteSpace c then trimStart s' else s
  | [] => []
  end.

Definition trimEnd (s : jstring) : jstring := rev (trimStart (rev s)).

Definition trim (s : jstring) : jstring := trimEnd (trimStart s).

Fixpoint startsWith (p s : jstring) : bool :=
  match p, s with
  | [], _ => true
  | a :: p', c :: s' => Ascii.eqb a c && startsWith p' s'
  | _ :: _, [] => false
  end.

(** [s.indexOf(p)]: the first position at which [p] occurs in [s]. *)
Fixpoint indexOf (p s : jstring) : option nat :=
  if startsWith p s then Some 0%nat
  else match s with
       | [] => None
       | _ :: s' => option_map S (indexOf p s')
       end.

(** [s.includes(p)] *)
Fixpoint includes (p s : jstring) : bool :=
  startsWith p s ||
  match s with
  | [] => false
  | _ :: s' => includes p s'
  end.

(** [s.split(sep)] for a non-empty separator string: cut at the successive
    occurrences of [sep], found from left to right.  Every cut consumes at
    least one code unit, so [length s] rounds are enough ([split_fuel_stable]
    below). *)
Fixpoint split_fuel (fuel : nat) (sep s : jstring) : list jstring :=
  match fuel with
  | O => [s]
  | S fuel' =>
      match indexOf sep s with
      | None => [s]
      | Some i => firstn i s :: split_fuel fuel' sep (skipn (i + List.length sep) s)
      end
  end.

Definition split (sep s : jstring) : list jstring := split_fuel (List.length s) sep s.

(** The separator of [content.split('\n')]. *)
Definition newline : jstring := ["010"%char].

(** [s.split(/\s+/)]: cut at every maximal run of white space.  [cur] is the
    current piece, reversed; [in_run] tells that the previous code unit was
    white space.  A leading or trailing run yields an empty first or last
    piece, as in JavaScript. *)
Fixpoint split_ws_go (cur : jstring) (in_run : bool) (s : jstring) : list jstring :=
  match s with
  | [] => [rev cur]
  | c :: s' =>
      if isWhiteSpace c
      then if in_run then split_ws_go cur true s'
           else rev cur :: split_ws_go [] true s'
      else split_ws_go (c :: cur) false s'
  end.

Definition split_ws (s : jstring) : list jstring := split_ws_go [] false s.

(** [parts.join(sep)] *)
Fixpoint join (sep : jstring) (parts : list jstring) : jstring :=
  match parts with
  | [] => []
  | [p] => p
  | p :: ps => p ++ sep ++ join sep ps
  end.

(** [s.replace(/[()]/g, '')] *)
Definition stripParens (s : jstring) : jstring :=
  filter (fun c => negb (isChar "(" c || isChar ")" c)) s.

(** [s.toLowerCase()] on code units below 256: A-Z, and the Latin-1 capitals
    U+00C0-U+00DE except the multiplication sign U+00D7, move up by 32.  On
    these strings the conversion goes code unit by code unit; the rules that
    look at the neighbours of a letter (the final sigma) concern code units
    above 255, which the embedding leaves out. *)
Definition lowerChar (c : ascii) : ascii :=
  if ascii_in 65 90 c || (ascii_in 192 222 c && negb (nat_of_ascii c =? 215)%nat)
  then ascii_of_nat (nat_of_ascii c + 32)
  else c.

Definition toLowerCase (s : jstring) : jstring := map lowerChar s.

Fixpoint jstring_eqb (a b : jstring) : bool :=
  match a, b with
  | [], [] => true
  | c :: a', d :: b' => Ascii.eqb c d && jstring_eqb a' b'
  | _, _ => false
  end.

(** Truthiness of a string: only the empty string is falsy. *)
Definition truthy (s : jstring) : bool :=
  match s with [] => false | _ :: _ => true end.

(** ** Numbers *)

(** [isNaN(v)] *)
Definition isNaN (v : float) : bool := PrimFloat.is_nan v.

(** [isFinite(v)] *)
Definition isFinite (v : float) : bool :=
  match classify v with
  | NaN | PInf | NInf => false
  | _ => true
  end.

Definition is_pos_zero (v : float) : bool :=
  match classify v with PZero => true | _ => false end.

Definition is_neg_zero (v : float) : bool :=
  match classify v with NZero => true | _ => false end.

(** One round of the loop of [Math.max]: NaN is absorbing (the loop returns
    NaN at once), [+0] is larger than [-0]. *)
Definition max_step (highest number : float) : float :=
  if isNaN highest || isNaN number then nan
  else if is_pos_zero number && is_neg_zero highest then number
  else if (highest <? number)%float then number
  else highest.

(** [Math.max(...args)], which starts from [-Infinity].  (An engine's limit
    on the number of spread arguments is not part of the model.) *)
Definition Math_max (args : list float) : float :=
  fold_left max_step args neg_infinity.

Definition min_step (lowest number : float) : float :=
  if isNaN lowest || isNaN number then nan
  else if is_neg_zero number && is_pos_zero lowest then number
  else if (number <? lowest)%float then number
  else lowest.

(** [Math.min(...args)], which starts from [+Infinity]. *)
Definition Math_min (args : list float) : float :=
  fold_left min_step args infinity.

(** The binary64 value nearest to [m * 10^e] (ties to even), signed by [neg]:
    the value of a decimal literal.  The quotient by a power of ten is
    rounded once, by [SFdiv] on the two integers. *)
Definition round_decimal (neg : bool) (m : Z) (e : Z) : float :=
  match m with
  | Zpos p =>
      if (0 <=? e)%Z
      then SF2Prim (binary_normalize prec emax
                      ((if neg then Zneg p else Zpos p) * 10 ^ e)%Z 0%Z neg)
      else SF2Prim (SFdiv prec emax (S754_finite neg p 0%Z)
                      (S754_finite false (Z.to_pos (10 ^ (- e))) 0%Z))
  | _ => if neg then (-0)%float else 0%float
  end.

(** The longest prefix of decimal digits, and what follows it. *)
Fixpoint span_digits (s : jstring) : jstring * jstring :=
  match s with
  | c :: s' =>
      if isDigit c
      then let (ds, r) := span_digits s' in (c :: ds, r)
      else ([], s)
  | [] => ([], [])
  end.

Definition digits_value (ds : jstring) : Z :=
  fold_left (fun acc c => (acc * 10 + (Z.of_nat (nat_of_ascii c) - 48))%Z) ds 0%Z.

(** An optional sign: whether it is [-], and what follows it. *)
Definition span_sign (s : jstring) : bool * jstring :=
  match s with
  | c :: s' =>
      if isChar "-" c then (true, s')
      else if isChar "+" c then (false, s')
      else (false, s)
  | [] => (false, [])
  end.

(** The value of an [ExponentPart] at the head of [s], 0 when there is none
    (an [e] that no digit follows is not part of the number). *)
Definition exponent_value (s : jstring) : Z :=
  match s with
  | c :: s' =>
      if isChar "e" c || isChar "E" c
      then let (eneg, s'') := span_sign s' in
           let (ds, _) := span_digits s'' in
           match ds with
           | [] => 0%Z
           | _ :: _ => if eneg then (- digits_value ds)%Z else digits_value ds
           end
      else 0%Z
  | [] => 0%Z
  end.

(** [parseFloat(s)]: the value of the longest prefix of the left-trimmed
    string that is a [StrDecimalLiteral], NaN when there is none. *)
Definition parseFloat (s : jstring) : float :=
  let (neg, s1) := span_sign (trimStart s) in
  if startsWith "Infinity" s1
  then if neg then neg_infinity else infinity
  else
    let (ip, s2) := span_digits s1 in
    let (fp, s3) :=
      match s2 with
      | c :: s2' => if isChar "." c then span_digits s2' else ([], s2)
      | [] => ([], s2)
      end in
    match ip ++ fp with
    | [] => nan
    | _ :: _ =>
        round_decimal neg (digits_value (ip ++ fp))
          (exponent_value s3 - Z.of_nat (List.length fp))
    end.

(** ** Regular expressions

    The fragment the sources use: character classes, quantified classes
    (greedy or lazy, with bounds), sequences, one capturing group and the
    anchor [^]; no flags.  Matching is the backtracking search of
    ECMAScript: a matcher takes the continuation that matches the rest of
    the pattern, and a quantifier tries its alternatives in order. *)

Inductive regex : Type :=
| REmpty
| RStart                                   (* ^ *)
| RClass (p : ascii -> bool)               (* one code unit of a class *)
| RQuant (greedy : bool) (lo : nat) (hi : option nat) (p : ascii -> bool)
                                           (* p{lo,hi}; p+ is {1,}; p*? is lazy {0,} *)
| RGroup (r : regex)                       (* ( r ), the group 1 *)
| RSeq (r1 r2 : regex).

(** A match in progress: the index reached, the input left from there and
    the span of group 1 when it has been closed. *)
Definition capture := option (nat * nat).
Definition mresult := option (nat * capture).
Definition cont := nat -> jstring -> capture -> mresult.

Definition dec_bound (hi : option nat) : option nat := option_map Nat.pred hi.

Definition bound_open (hi : option nat) : bool :=
  match hi with Some O => false | _ => true end.

(** The first alternative if it matches, the second otherwise. *)
Definition or_else (a b : mresult) : mresult :=
  match a with Some r => Some r | None => b end.

Arguments or_else : simpl never.

(** [p{lo,hi}] from position [pos]: below [lo] one more code unit is due;
    from [lo] on a greedy quantifier first tries one more code unit and then
    the continuation, a lazy one the other way round. *)
Fixpoint quant (greedy : bool) (p : ascii -> bool) (k : cont) (cap : capture)
    (lo : nat) (hi : option nat) (pos : nat) (rest : jstring) {struct rest} : mresult :=
  let more :=
    match rest with
    | c :: rest' =>
        if p c && bound_open hi
        then quant greedy p k cap (Nat.pred lo) (dec_bound hi) (S pos) rest'
        else None
    | [] => None
    end in
  match lo with
  | S _ => more
  | O =>
      if greedy
      then or_else more (k pos rest cap)
      else or_else (k pos rest cap) more
  end.

Fixpoint rmatch (r : regex) (pos : nat) (rest : jstring) (cap : capture) (k : cont)
    {struct r} : mresult :=
  match r with
  | REmpty => k pos rest cap
  | RStart => if (pos =? 0)%nat then k pos rest cap else None
  | RClass p =>
      match rest with
      | c :: rest' => if p c then k (S pos) rest' cap else None
      | [] => None
      end
  | RQuant greedy lo hi p => quant greedy p k cap lo hi pos rest
  | RGroup r1 =>
      rmatch r1 pos rest cap (fun pos' rest' _ => k pos' rest' (Some (pos, pos')))
  | RSeq r1 r2 =>
      rmatch r1 pos rest cap (fun pos' rest' cap' => rmatch r2 pos' rest' cap' k)
  end.

Definition accept : cont := fun pos _ cap => Some (pos, cap).

(** The search of [RegExp.prototype.exec] without flags: the first start
    index, from the left, at which the pattern matches.  The result is the
    start index, the end index and the span of group 1. *)
Fixpoint search_from (r : regex) (pos : nat) (rest : jstring) : option (nat * nat * capture) :=
  match rmatch r pos rest None accept with
  | Some (e, cap) => Some (pos, e, cap)
  | None =>
      match rest with
      | [] => None
      | _ :: rest' => search_from r (S pos) rest'
      end
  end.

Definition exec (r : regex) (s : jstring) : option (nat * nat * capture) :=
  search_from r 0 s.

Definition substring (b e : nat) (s : jstring) : jstring := firstn (e - b) (skipn b s).

(** [r.test(s)] *)
Definition test (r : regex) (s : jstring) : bool :=
  match exec r s with Some _ => true | None => false end.

(** [s.match(r)[0]], [None] when [s.match(r)] is null. *)
Definition match0 (r : regex) (s : jstring) : option jstring :=
  match exec r s with
  | Some (b, e, _) => Some (substring b e s)
  | None => None
  end.

(** [s.match(r)[1]] for a pattern whose group 1 takes part in every match,
    [None] when [s.match(r)] is null. *)
Definition match1 (r : regex) (s : jstring) : option jstring :=
  match exec r s with
  | Some (_, _, Some (b, e)) => Some (substring b e s)
  | Some (_, _, None) => Some []
  | None => None
  end.

Definition rseq (rs : list regex) : regex := fold_right RSeq REmpty rs.

(** A literal: its code units in sequence. *)
Definition rlit (s : jstring) : list regex := map (fun a => RClass (isChar a)) s.

Definition plus (p : ascii -> bool) : regex := RQuant true 1 None p.
Definition exactly (n : nat) (p : ascii -> bool) : regex := RQuant true n (Some n) p.





(** ** Notions used in the proofs about the order of numbers *)

Definition SF_nan (v : spec_float) : bool :=
  match v with S754_nan => true | _ => false end.

(** A key whose lexicographic order is the order of the values. *)
Definition rank (v : spec_float) : Z * Z * Z :=
  match v with
  | S754_nan => (0, 0, 0)
  | S754_zero _ => (0, 0, 0)
  | S754_infinity true => (-2, 0, 0)
  | S754_infinity false => (2, 0, 0)
  | S754_finite true m e => (-1, - e, Zneg m)
  | S754_finite false m e => (1, e, Zpos m)
  end%Z.

Definition lex3 (a b : Z * Z * Z) : comparison :=
  let '(a1, a2, a3) := a in
  let '(b1, b2, b3) := b in
  match (a1 ?= b1)%Z with
  | Eq => match (a2 ?= b2)%Z with Eq => (a3 ?= b3)%Z | c => c end
  | c => c
  end.

Definition lex3_le (a b : Z * Z * Z) : Prop :=
  let '(a1, a2, a3) := a in
  let '(b1, b2, b3) := b in
  (a1 < b1 \/ (a1 = b1 /\ (a2 < b2 \/ (a2 = b2 /\ a3 <= b3))))%Z.

End JS.

(* ================================================================== *)
(** * The format parser ([src/services/parser.ts]) *)
(* ================================================================== *)

Module Parser.
Import JS.

Record NailData : Type := {
  id : jstring;
  x : float;
  y : float;
  type : jstring;
  grid : jstring;
  side : jstring;
  netId : jstring;
  netName : jstring;
  virtualPin : jstring
}.

Record Metadata : Type := {
  fileName : jstring;
  totalNails : nat;
  units : jstring;
  date : jstring
}.

Record Bounds : Type := {
  minX : float;
  maxX : float;
  minY : float;
  maxY : float
}.

Record ParseResult : Type := {
  nails : list NailData;
  metadata : Metadata;
  bounds : Bounds
}.

(** The outcome of [parseNailFile]: the result it returns, or the [Error]
    it throws, with its message. *)
Inductive outcome : Type :=
| Returns (r : ParseResult)
| Throws (message : jstring).

(** [/\d{1,2}-\w+-\d{4}/] *)
Definition dateGuardAtoms : list regex :=
  [RQuant true 1 (Some 2) isDigit] ++ rlit "-" ++ [plus isWord] ++ rlit "-"
  ++ [exactly 4 isDigit].

Definition dateGuard : regex := rseq dateGuardAtoms.

(** [/\d{1,2}-\w+-\d{4}\s+\d{2}:\d{2}/] *)
Definition datePattern : regex :=
  rseq (dateGuardAtoms
        ++ [plus isWhiteSpace; exactly 2 isDigit] ++ rlit ":" ++ [exactly 2 isDigit]).

(** [/^(.*?)\s+T\s+PIN/] *)
Definition netNamePattern : regex :=
  rseq ([RStart; RGroup (RQuant false 0 None isDot); plus isWhiteSpace] ++ rlit "T"
        ++ [plus isWhiteSpace] ++ rlit "PIN").

Definition noDataMessage : jstring :=
  "No valid nail data found. Please ensure the file is in Tebo-ICT or compatible .asc format.".

(** The variables the loop over the lines updates. *)
Record scan : Type := {
  s_nails : list NailData;
  s_units : jstring;
  s_date : jstring
}.

Definition scan0 : scan := {| s_nails := []; s_units := "Unknown"; s_date := "" |}.

(** [parts[i]] of a row that has at least 7 parts. *)
Definition part (parts : list jstring) (i : nat) : jstring := nth i parts [].

(** [parts[7] || 'N/A'] *)
Definition part7_or_NA (parts : list jstring) : jstring :=
  match nth_error parts 7 with
  | Some p => if truthy p then p else "N/A"
  | None => "N/A"
  end.

(** The tail of a row: [parts.slice(7).join(' ')]. *)
Definition remaining_of (parts : list jstring) : jstring := join " " (skipn 7 parts).

Definition netName_of (parts : list jstring) : jstring :=
  match match1 netNamePattern (remaining_of parts) with
  | Some g => g
  | None => part7_or_NA parts
  end.

(** [remaining.includes('T PIN') ? remaining.split('T PIN')[1].trim() : ''] *)
Definition virtualPin_of (remaining : jstring) : jstring :=
  if includes "T PIN" remaining
  then trim (nth 1 (split "T PIN" remaining) [])
  else "".

(** The record built from the parts of a row (lines 27-38). *)
Definition nail_of (parts : list jstring) : NailData :=
  {| id := part parts 0;
     x := parseFloat (part parts 1);
     y := parseFloat (part parts 2);
     type := part parts 3;
     grid := part parts 4;
     side := stripParens (part parts 5);
     netId := part parts 6;
     netName := netName_of parts;
     virtualPin := virtualPin_of (remaining_of parts) |}.

(** The data row of a trimmed line, when the line is one that is pushed
    (lines 24-46). *)
Definition row_of (trimmed : jstring) : option NailData :=
  if startsWith "$" trimmed
  then
    let parts := split_ws trimmed in
    if (7 <=? List.length parts)%nat
    then
      let n := nail_of parts in
      if negb (isNaN (x n)) && negb (isNaN (y n)) then Some n else None
    else None
  else None.

Definition units_step (trimmed : jstring) (u : jstring) : jstring :=
  let u1 := if includes "Metric units" trimmed then js "Metric" else u in
  if includes "Imperial units" trimmed then js "Imperial" else u1.

Definition date_step (trimmed : jstring) (d : jstring) : jstring :=
  if test dateGuard trimmed
  then match match0 datePattern trimmed with
       | Some m => m
       | None => d
       end
  else d.

(** The body of [lines.forEach]. *)
Definition scanLine (st : scan) (line : jstring) : scan :=
  let trimmed := trim line in
  {| s_nails := match row_of trimmed with
                | Some n => s_nails st ++ [n]
                | None => s_nails st
                end;
     s_units := units_step trimmed (s_units st);
     s_date := date_step trimmed (s_date st) |}.

(** [content.split('\n')] *)
Definition lines (content : jstring) : list jstring := split newline content.

Definition scanLines (content : jstring) : scan :=
  fold_left scanLine (lines content) scan0.

(** [parseNailFile] (lines 4-68).  The loop is [scanLines]; the error of
    lines 49-51 is [Throws]; the spreads of lines 53-56 go through (see the
    conventions), so that [Returns] is the outcome whenever a row has been
    accepted. *)
Definition parseNailFile (content fileName : jstring) : outcome :=
  let st := scanLines content in
  let nails := s_nails st in
  if (List.length nails =? 0)%nat
  then Throws noDataMessage
  else
    Returns
      {| nails := nails;
         metadata := {| fileName := fileName;
                        totalNails := List.length nails;
                        units := s_units st;
                        date := s_date st |};
         bounds := {| minX := Math_min (map x nails);
                      maxX := Math_max (map x nails);
                      minY := Math_min (map y nails);
                      maxY := Math_max (map y nails) |} |}.

(** ** Notions used in the statements about the parser *)

(** A trimmed line that the loop turns into a point: it starts with [$],
    splits into at least 7 parts, and its parts 1 and 2 parse to numbers
    (anything but NaN). *)
Definition accepted_row (trimmed : jstring) : bool :=
  let parts := split_ws trimmed in
  startsWith "$" trimmed && (7 <=? List.length parts)%nat
  && negb (isNaN (parseFloat (part parts 1)))
  && negb (isNaN (parseFloat (part parts 2))).

(** The same contract with finite coordinates. *)
Definition finite_row (trimmed : jstring) : bool :=
  let parts := split_ws trimmed in
  startsWith "$" trimmed && (7 <=? List.length parts)%nat
  && isFinite (parseFloat (part parts 1))
  && isFinite (parseFloat (part parts 2)).

(** The points of the lines, in order. *)
Definition rows_of (ls : list jstring) : list NailData :=
  flat_map (fun line => match row_of (trim line) with
                        | Some n => [n]
                        | None => []
                        end) ls.

(** The full matches of the date pattern, one for each line that has one,
    in the order of the lines. *)
Definition date_matches (ls : list jstring) : list jstring :=
  flat_map (fun line => match match0 datePattern (trim line) with
                        | Some m => [m]
                        | None => []
                        end) ls.

(** The line of scenario A and the point the parser makes of it. *)
Definition scenarioA : jstring := "$A1 10.5 20.25 TP 3 (T) N100 GND T PIN 5".

Definition scenarioA_nail : NailData :=
  {| id := "$A1"; x := 10.5; y := 20.25; type := "TP"; grid := "3"; side := "T";
     netId := "N100"; netName := "GND"; virtualPin := "5" |}.

(** A row whose first coordinate is the literal [Infinity]. *)
Definition infinite_row : jstring := "$A1 Infinity 0 TP 3 (T) N100".

(** The units and the date of a returned dataset. *)
Definition units_of_outcome (o : outcome) : option jstring :=
  match o with Returns r => Some (units (metadata r)) | Throws _ => None end.

Definition date_of_outcome (o : outcome) : option jstring :=
  match o with Returns r => Some (date (metadata r)) | Throws _ => None end.

(** A file whose header line names both systems of units. *)
Definition both_units : jstring :=
  "Metric units, formerly Imperial units
$A1 10.5 20.25 TP 3 (T) N100 GND".

(** A file with two dated header lines and one data row. *)
Definition two_dates : jstring :=
  "Created 12-Feb-2024 09:30 Metric units
Revised 7-March-2024 16:45
$A1 10.5 20.25 TP 3 (T) N100 GND".

(** What follows the first occurrence of a marker in a tail. *)
Definition after_marker (marker tail : jstring) : jstring :=
  match indexOf marker tail with
  | Some i => skipn (i + List.length marker) tail
  | None => []
  end.

(** A row whose tail has the marker twice, and the point made of it. *)
Definition two_markers : jstring := "$A1 10.5 20.25 TP 3 (T) N100 GND T PIN 5 T PIN 6".

Definition two_markers_nail : NailData :=
  {| id := "$A1"; x := 10.5; y := 20.25; type := "TP"; grid := "3"; side := "T";
     netId := "N100"; netName := "GND"; virtualPin := "5" |}.

(** A file with a header, a row that is dropped and three data rows. *)
Definition three_points : jstring :=
  "Tebo-ICT nail file
$A1 10.5 20.25 TP 3 (T) N100 GND T PIN 5
$A2 -3.5 40.25 AA 1 (B) N101 VCC
$bad x y AA 1 (B) N102
$A3 12 -0 7 2 (T) N103".

End Parser.

(* ================================================================== *)
(** * The viewport ([src/components/PinMap.tsx]) *)
(* ================================================================== *)

Module PinMap.
Import JS Parser.

(** An [{x, y}] object. *)
Record xy : Type := { x_ : float; y_ : float }.

(** The state of the component that the handlers below read or write. *)
Record view : Type := {
  zoom : float;
  offset : xy;
  isDragging : bool;
  dragStart : xy
}.

(** The initial values of [useState]. *)
Definition initial : view :=
  {| zoom := 1; offset := {| x_ := 0; y_ := 0 |};
     isDragging := false; dragStart := {| x_ := 0; y_ := 0 |} |}.

Definition setZoom (f : float -> float) (v : view) : view :=
  {| zoom := f (zoom v); offset := offset v;
     isDragging := isDragging v; dragStart := dragStart v |}.

Definition setOffset (f : xy -> xy) (v : view) : view :=
  {| zoom := zoom v; offset := f (offset v);
     isDragging := isDragging v; dragStart := dragStart v |}.

Definition setIsDragging (b : bool) (v : view) : view :=
  {| zoom := zoom v; offset := offset v; isDragging := b; dragStart := dragStart v |}.

Definition setDragStart (p : xy) (v : view) : view :=
  {| zoom := zoom v; offset := offset v; isDragging := isDragging v; dragStart := p |}.

Section Frame.
Variable data : ParseResult.

Definition padding : float := 20.
Definition width : float := (maxX (bounds data) - minX (bounds data)) + padding * 2.
Definition height : float := (maxY (bounds data) - minY (bounds data)) + padding * 2.
Definition viewBoxX : float := minX (bounds data) - padding.
Definition viewBoxY : float := minY (bounds data) - padding.

(** The centre of the logical frame, as the effect computes it. *)
Definition centerX : float := viewBoxX + width / 2.
Definition centerY : float := viewBoxY + height / 2.

(** [nails.find(n => n.id === activePinId)] *)
Definition findPin (activePinId : jstring) : option NailData :=
  find (fun n => jstring_eqb (id n) activePinId) (nails data).

(** The effect that runs when [activePinId] changes (lines 47-65);
    [None] is [null]. *)
Definition focusOn (activePinId : option jstring) (v : view) : view :=
  match activePinId with
  | Some pinId =>
      if truthy pinId
      then match findPin pinId with
           | Some pin =>
               let targetZoom := Math_max [zoom v; 10%float] in
               setOffset (fun _ => {| x_ := centerX / targetZoom - x pin;
                                      y_ := centerY / targetZoom - y pin |})
                 (setZoom (fun _ => targetZoom) v)
           | None => v
           end
      else v
  | None => v
  end.

End Frame.

Definition handleWheel (deltaY : float) (v : view) : view :=
  let zoomFactor := if (0 <? deltaY)%float then 0.9%float else 1.1%float in
  setZoom (fun prev => Math_min [Math_max [prev * zoomFactor; 0.05]; 100])%float v.

(** The three buttons (lines 156-158). *)
Definition zoomInClick (v : view) : view := setZoom (fun z => z * 1.5)%float v.
Definition zoomOutClick (v : view) : view := setZoom (fun z => z * 0.7)%float v.
Definition resetView (v : view) : view :=
  setOffset (fun _ => {| x_ := 0; y_ := 0 |}) (setZoom (fun _ => 1%float) v).

Definition handleMouseDown (button : Z) (clientX clientY : float) (v : view) : view :=
  if (button =? 0)%Z
  then setDragStart {| x_ := clientX; y_ := clientY |} (setIsDragging true v)
  else v.

Definition handleMouseMove (clientX clientY : float) (v : view) : view :=
  if isDragging v
  then
    let dx := ((clientX - x_ (dragStart v)) / zoom v)%float in
    let dy := ((clientY - y_ (dragStart v)) / zoom v)%float in
    setDragStart {| x_ := clientX; y_ := clientY |}
      (setOffset (fun prev => {| x_ := x_ prev + dx; y_ := y_ prev + dy |})%float v)
  else v.

Definition handleMouseUp (v : view) : view := setIsDragging false v.

(** What can happen to a mounted viewport. *)
Inductive event : Type :=
| Wheel (deltaY : float)
| ZoomInClick
| ZoomOutClick
| ResetClick
| MouseDown (button : Z) (clientX clientY : float)
| MouseMove (clientX clientY : float)
| MouseUp
| ActivePin (activePinId : option jstring).

Definition handle (data : ParseResult) (v : view) (e : event) : view :=
  match e with
  | Wheel deltaY => handleWheel deltaY v
  | ZoomInClick => zoomInClick v
  | ZoomOutClick => zoomOutClick v
  | ResetClick => resetView v
  | MouseDown b cx cy => handleMouseDown b cx cy v
  | MouseMove cx cy => handleMouseMove cx cy v
  | MouseUp => handleMouseUp v
  | ActivePin a => focusOn data a v
  end.

Definition run (data : ParseResult) (es : list event) : view :=
  fold_left (handle data) es initial.


(** The range of the zoom that [handleWheel] clamps to. *)
Definition inRange (z : float) : bool := (0.05 <=? z)%float && (z <=? 100)%float.

(** ** Notions used in the statements about the viewport *)


Definition point (i : jstring) (px py : float) : NailData :=
  {| id := i; x := px; y := py; type := "TP"; grid := "1"; side := "T";
     netId := "N1"; netName := "GND"; virtualPin := "" |}.

(** The dataset of the given points, with the bounds the parser computes. *)
Definition dataset (ns : list NailData) : ParseResult :=
  {| nails := ns;
     metadata := {| fileName := "board.asc"; totalNails := List.length ns;
                    units := "Unknown"; date := "" |};
     bounds := {| minX := Math_min (map x ns); maxX := Math_max (map x ns);
                  minY := Math_min (map y ns); maxY := Math_max (map y ns) |} |}.

(** The events other than a click on one of the two step buttons. *)
Definition clamped_event (e : event) : bool :=
  match e with ZoomInClick | ZoomOutClick => false | _ => true end.

(** The dataset of scenario C. *)
Definition scenarioC : ParseResult :=
  dataset [point "P1" 0 0; point "P2" 100 100].




End PinMap.

(* ================================================================== *)
(** * The search controller ([src/App.tsx]) *)
(* ================================================================== *)

Module App.
Import JS Parser.

Inductive SearchMode : Type := nail | net.

Record state : Type := {
  data : option ParseResult;
  searchQuery : jstring;
  searchMode : SearchMode;
  activePinId : option jstring;
  activeResultIndex : Z
}.

(** The field a mode searches in. *)
Definition searched (mode : SearchMode) (n : NailData) : jstring :=
  match mode with nail => id n | net => netName n end.

(** The memo [filteredResults] (lines 87-97). *)
Definition filteredResults (st : state) : list NailData :=
  match data st with
  | None => []
  | Some d =>
      if negb (truthy (trim (searchQuery st))) then []
      else
        let q := toLowerCase (searchQuery st) in
        filter (fun n => includes q (toLowerCase (searched (searchMode st) n))) (nails d)
  end.

Definition setActiveResultIndex (i : Z) (st : state) : state :=
  {| data := data st; searchQuery := searchQuery st; searchMode := searchMode st;
     activePinId := activePinId st; activeResultIndex := i |}.

Definition setActivePinId (a : option jstring) (st : state) : state :=
  {| data := data st; searchQuery := searchQuery st; searchMode := searchMode st;
     activePinId := a; activeResultIndex := activeResultIndex st |}.

(** [results[i]] for a number [i]: undefined off the array. *)
Definition at_index (results : list NailData) (i : Z) : option NailData :=
  if (i <? 0)%Z then None else nth_error results (Z.to_nat i).

(** [handleSearchKeyDown] (lines 100-108).  [%] is the remainder that takes
    the sign of the dividend.  Reading [.id] off the array would throw after
    the index is set; the index the handler computes is never off the array
    when the current one is at least -1. *)
Definition handleSearchKeyDown (key : jstring) (st : state) : state :=
  if jstring_eqb key "Enter"
  then
    let results := filteredResults st in
    if (0 <? Z.of_nat (List.length results))%Z
    then
      let nextIndex := Z.rem (activeResultIndex st + 1) (Z.of_nat (List.length results)) in
      let st1 := setActiveResultIndex nextIndex st in
      match at_index results nextIndex with
      | Some n => setActivePinId (Some (id n)) st1
      | None => st1
      end
    else st
  else st.

Definition SearchMode_eqb (a b : SearchMode) : bool :=
  match a, b with nail, nail | net, net => true | _, _ => false end.

(** [setSearchQuery] followed by the effect of lines 111-113, which runs
    when the query is not the one of the previous render. *)
Definition changeQuery (q : jstring) (st : state) : state :=
  let st1 := {| data := data st; searchQuery := q; searchMode := searchMode st;
                activePinId := activePinId st;
                activeResultIndex := activeResultIndex st |} in
  if jstring_eqb q (searchQuery st) then st1 else setActiveResultIndex (-1) st1.

(** [setSearchMode] followed by the same effect. *)
Definition changeMode (m : SearchMode) (st : state) : state :=
  let st1 := {| data := data st; searchQuery := searchQuery st; searchMode := m;
                activePinId := activePinId st;
                activeResultIndex := activeResultIndex st |} in
  if SearchMode_eqb m (searchMode st) then st1 else setActiveResultIndex (-1) st1.

(** A cycle command: the Enter key in the search box. *)
Definition cycle (st : state) : state := handleSearchKeyDown "Enter" st.

(** ** Notions used in the statements about the search *)

(** The state after [k] cycle commands. *)
Definition cycles (k : nat) (st : state) : state := Nat.iter k cycle st.

(** An empty or white-space-only query. *)
Definition blank (q : jstring) : bool := forallb isWhiteSpace q.






Definition netPoint (i n : jstring) (px py : float) : NailData :=
  {| id := i; x := px; y := py; type := "TP"; grid := "1"; side := "T";
     netId := "N1"; netName := n; virtualPin := "" |}.

(** The three points of scenario D. *)
Definition scenarioD_1 : NailData := netPoint "P1" "GNDnet" 0 0.
Definition scenarioD_2 : NailData := netPoint "P2" "POWER" 10 0.
Definition scenarioD_3 : NailData := netPoint "P3" "network2" 20 0.

Definition scenarioD : ParseResult :=
  {| nails := [scenarioD_1; scenarioD_2; scenarioD_3];
     metadata := {| fileName := "board.asc"; totalNails := 3;
                    units := "Unknown"; date := "" |};
     bounds := {| minX := 0; maxX := 20; minY := 0; maxY := 0 |} |}.

(** A search on a dataset, nothing selected yet. *)
Definition searching (d : ParseResult) (q : jstring) (mode : SearchMode) : state :=
  {| data := Some d; searchQuery := q; searchMode := mode;
     activePinId := None; activeResultIndex := -1 |}.

End App.

(* ================================================================== *)
(** * Notions used in further statements *)
(* ================================================================== *)

(** ** Signs of numbers *)

Module Signs.

(** Zero of either sign, a positive finite value or [+Infinity]. *)
Definition SF_nonneg (f : spec_float) : bool :=
  match f with
  | S754_zero _ | S754_infinity false | S754_finite false _ _ => true
  | _ => false
  end.

(** A positive finite value or [+Infinity]. *)
Definition SF_pos (f : spec_float) : bool :=
  match f with
  | S754_infinity false | S754_finite false _ _ => true
  | _ => false
  end.

End Signs.

Module Notions.
Import JS Parser.

(** ** What a pattern matches

    The strings a pattern can consume, whatever the order in which the
    backtracking search tries them. *)
Fixpoint lang (r : regex) (s : jstring) : Prop :=
  match r with
  | REmpty => s = []
  | RStart => s = []
  | RClass p => exists c, s = [c] /\ p c = true
  | RQuant _ lo hi p =>
      forallb p s = true /\ (lo <= List.length s)%nat
      /\ match hi with Some h => (List.length s <= h)%nat | None => True end
  | RGroup r1 => lang r1 s
  | RSeq r1 r2 => exists s1 s2, s = s1 ++ s2 /\ lang r1 s1 /\ lang r2 s2
  end.

(** The patterns without a capturing group. *)
Fixpoint group_free (r : regex) : bool :=
  match r with
  | RGroup _ => false
  | RSeq r1 r2 => group_free r1 && group_free r2
  | _ => true
  end.

(** A non-empty run of code units of a class. *)
Definition run_of (p : ascii -> bool) (s : jstring) : Prop :=
  forallb p s = true /\ s <> [].

(** The shape [D[D]-Month-YYYY HH:MM] of a date. *)
Definition date_shaped (d : jstring) : Prop :=
  exists day month year gap hh mm : jstring,
    d = day ++ js "-" ++ month ++ js "-" ++ year ++ gap ++ hh ++ js ":" ++ mm
    /\ forallb isDigit day = true /\ (1 <= List.length day <= 2)%nat
    /\ run_of isWord month
    /\ forallb isDigit year = true /\ List.length year = 4%nat
    /\ run_of isWhiteSpace gap
    /\ forallb isDigit hh = true /\ List.length hh = 2%nat
    /\ forallb isDigit mm = true /\ List.length mm = 2%nat.

(** A token: a non-empty string without white space. *)
Definition no_space (s : jstring) : bool := forallb (fun c => negb (isWhiteSpace c)) s.

Definition token (s : jstring) : Prop := s <> [] /\ no_space s = true.

(** A string that does not end with white space. *)
Definition clean_end (s : jstring) : Prop :=
  forall pre c, s = pre ++ [c] -> isWhiteSpace c = false.

(** A string that neither starts nor ends with white space. *)
Definition trimmed (s : jstring) : Prop :=
  (forall c rest, s = c :: rest -> isWhiteSpace c = false) /\ clean_end s.

(** A string whose white space is single spaces, each followed by something
    else than white space: what joining tokens with " " gives. *)
Fixpoint single_spaced (s : jstring) : bool :=
  match s with
  | [] => true
  | c :: s' =>
      (if isWhiteSpace c
       then Ascii.eqb c " "
            && match s' with d :: _ => negb (isWhiteSpace d) | [] => false end
       else true)
      && single_spaced s'
  end.

(** The atoms of [\s+T\s+PIN], the part of the net-name pattern after its
    group. *)
Definition markerAtoms : list regex :=
  [plus isWhiteSpace] ++ rlit "T" ++ [plus isWhiteSpace] ++ rlit "PIN".

(** A trimmed line that names a system of units. *)
Definition mentions_units (trimmed : jstring) : bool :=
  includes "Metric units" trimmed || includes "Imperial units" trimmed.

(** The lines of a file that are not blank, trimmed. *)
Definition significant_lines (content : jstring) : list jstring :=
  filter truthy (map trim (lines content)).

(** A file with Windows line ends, blank lines and indented rows. *)
Definition crlf_file : jstring :=
  js "Imperial units" ++ ["013"; "010"; "013"; "010"]%char ++
  js "   $A1 10.5 20.25 TP 3 (T) N100 GND T PIN 5  " ++ ["013"; "010"]%char ++
  js "$A2 -3.5 40.25 AA 1 (B) N101".

(** The same file with plain line ends and no indentation. *)
Definition lf_file : jstring :=
  "Imperial units
$A1 10.5 20.25 TP 3 (T) N100 GND T PIN 5
$A2 -3.5 40.25 AA 1 (B) N101".

(** The events that are not part of a drag with the left button: moves,
    releases, and presses of another button. *)
Definition idle_mouse_event (e : PinMap.event) : bool :=
  match e with
  | PinMap.MouseMove _ _ | PinMap.MouseUp => true
  | PinMap.MouseDown button _ _ => negb (button =? 0)%Z
  | _ => false
  end.

(** Every coordinate of the dataset is finite. *)
Definition finite_points (d : ParseResult) : Prop :=
  forall p, In p (nails d) -> isFinite (x p) = true /\ isFinite (y p) = true.


End Notions.

(* ================================================================== *)
(** * The rest of the page ([src/App.tsx]) *)
(* ================================================================== *)

Module Session.
Import JS Parser App.

(** The state of [App]: the search state, the error message and the pin
    scale; [None] is [null]. *)
Record app : Type := {
  search : state;
  error : option jstring;
  pinScale : float
}.

(** The initial values of [useState]. *)
Definition initial : app :=
  {| search := {| data := None; searchQuery := ""; searchMode := nail;
                  activePinId := None; activeResultIndex := -1 |};
     error := None;
     pinScale := 0.4 |}.

(** The pin scale computed from the bounds (lines 54-57). *)
Definition calculatedScale (result : ParseResult) : float :=
  let width := (maxX (bounds result) - minX (bounds result))%float in
  let height := (maxY (bounds result) - minY (bounds result))%float in
  let avgDim := ((width + height) / 2)%float in
  Math_max [0.1%float; (avgDim / 150)%float].

(** [handleFileUpload] (lines 42-64) for the text of the file and its name:
    the [try] branch when [parseNailFile] returns, the [catch] branch, with
    the message of the error, when it throws. *)
Definition handleFileUpload (text name : jstring) (a : app) : app :=
  match parseNailFile text name with
  | Returns result =>
      {| search := {| data := Some result; searchQuery := "";
                      searchMode := searchMode (search a);
                      activePinId := None; activeResultIndex := -1 |};
         error := None;
         pinScale := calculatedScale result |}
  | Throws message =>
      {| search := search a; error := Some message; pinScale := pinScale a |}
  end.

Definition with_search (f : state -> state) (a : app) : app :=
  {| search := f (search a); error := error a; pinScale := pinScale a |}.

(** [setData(null)], the close button (line 176). *)
Definition closeData (st : state) : state :=
  {| data := None; searchQuery := searchQuery st; searchMode := searchMode st;
     activePinId := activePinId st; activeResultIndex := activeResultIndex st |}.

(** A click on the entry [idx] of the list of matches (lines 285-290), which
    shows the first 50 of them; there is no entry beyond. *)
Definition clickResult (idx : nat) (st : state) : state :=
  match nth_error (firstn 50 (filteredResults st)) idx with
  | Some n => setActiveResultIndex (Z.of_nat idx) (setActivePinId (Some (id n)) st)
  | None => st
  end.

(** What the user can do on the page.  The handlers are applied as they are
    written, also in states in which the page does not show the control. *)
Inductive event : Type :=
| Upload (text name : jstring)
| Close
| TypeQuery (q : jstring)
| ChooseMode (mode : SearchMode)
| PressKey (key : jstring)
| ClickResult (idx : nat).

Definition handle (a : app) (e : event) : app :=
  match e with
  | Upload text name => handleFileUpload text name a
  | Close => with_search closeData a
  | TypeQuery q => with_search (changeQuery q) a
  | ChooseMode mode => with_search (changeMode mode) a
  | PressKey key => with_search (handleSearchKeyDown key) a
  | ClickResult idx => with_search (clickResult idx) a
  end.

Definition run (es : list event) : app := fold_left handle es initial.

(** ** The legend: [uniqueTypes] (lines 80-85) *)

(** [types.add(t)] on the elements of a [Set] in insertion order. *)
Definition set_add (acc : list jstring) (t : jstring) : list jstring :=
  if existsb (jstring_eqb t) acc then acc else acc ++ [t].

(** The order of the default [sort]: strings compared code unit by code
    unit. *)
Fixpoint jstring_ltb (a b : jstring) : bool :=
  match a, b with
  | _, [] => false
  | [], _ :: _ => true
  | c :: a', d :: b' =>
      (nat_of_ascii c <? nat_of_ascii d)%nat
      || (Ascii.eqb c d && jstring_ltb a' b')
  end.

(** [Array.prototype.sort] on strings that differ from one another: the
    increasing arrangement, of which there is only one. *)
Fixpoint insert_sorted (t : jstring) (l : list jstring) : list jstring :=
  match l with
  | [] => [t]
  | a :: l' => if jstring_ltb t a then t :: l else a :: insert_sorted t l'
  end.

Definition sort (l : list jstring) : list jstring := fold_right insert_sorted [] l.

Definition uniqueTypes (data : option ParseResult) : list jstring :=
  match data with
  | None => []
  | Some d => sort (fold_left set_add (map type (nails d)) [])
  end.

(** ** Notions used in the statements *)

(** Each element is below the next one in the order of the sort. *)
Fixpoint increasing (l : list jstring) : bool :=
  match l with
  | a :: (b :: _) as rest => jstring_ltb a b && increasing rest
  | _ => true
  end.

(** The state is that of a page whose dataset, if any, came from the parser. *)
Definition parsed (d : ParseResult) : Prop :=
  exists text name, parseNailFile text name = Returns d.

(** What holds of the search state whenever a dataset is loaded: the dataset
    came from the parser, the index is -1 or that of a match, and the active
    id, if any, is the id of a point of the dataset. *)
Definition consistent (st : state) : Prop :=
  match data st with
  | None => True
  | Some d =>
      parsed d
      /\ (activeResultIndex st = (-1)%Z
          \/ (0 <= activeResultIndex st < Z.of_nat (List.length (filteredResults st)))%Z)
      /\ match activePinId st with
         | None => True
         | Some a => exists n, In n (nails d) /\ id n = a
         end
  end.

(** What holds of the selection whenever a dataset is loaded: the match at
    the index, when there is one, is the active pin. *)
Definition agrees (st : state) : Prop :=
  match data st with
  | None => True
  | Some _ =>
      forall n, at_index (filteredResults st) (activeResultIndex st) = Some n ->
                activePinId st = Some (id n)
  end.

End Session.

(* ================================================================== *)
(** * Properties of the JavaScript primitives *)
(* ================================================================== *)

Module JSFacts.
Import JS.

(** ** Sample evaluations *)

Example parseFloat_samples :
  map parseFloat [js "10.5"; js "20.25"; js "-.5e1x"; js "1.e2"; js "1e"; js "1e+";
                  js "0x10"; js "1.5.3"; js " 12abc"; js "-0"; js "1e400"; js "-Infinity"]
  = [10.5; 20.25; -5; 100; 1; 1; 0; 1.5; 12; -0; infinity; neg_infinity]%float.
Proof. vm_compute. reflexivity. Qed.

Example parseFloat_no_number :
  map (fun s => isNaN (parseFloat s)) [js "abc"; js "."; js "+"; js "e5"; js ""; js "infinity"]
  = [true; true; true; true; true; true].
Proof. vm_compute. reflexivity. Qed.

(** Decimal literals are rounded to the nearest binary64 value, as the
    literals of the kernel are. *)
Example parseFloat_rounds_to_nearest :
  map parseFloat [js "0.1"; js "0.05"; js "0.7"; js "1.1"; js "1e23"; js "5e-324";
                  js "2e-324"; js "9007199254740993"; js "1.7976931348623157e308";
                  js "123456789012345.678901234567890"]
  = [0.1; 0.05; 0.7; 1.1; 1e23; 5e-324; 0; 9007199254740992;
     1.7976931348623157e308; 123456789012345.67]%float.
Proof. vm_compute. reflexivity. Qed.

Example split_samples :
  split newline "a
b
" = [js "a"; js "b"; js ""]
  /\ split "T PIN" "GND T PIN 5 T PIN 6" = [js "GND "; js " 5 "; js " 6"]
  /\ split "T PIN" "" = [js ""]
  /\ split_ws "$A1  10.5	20" = [js "$A1"; js "10.5"; js "20"]
  /\ split_ws " a " = [js ""; js "a"; js ""]
  /\ trim "  a b	 " = js "a b"
  /\ stripParens "(T)" = js "T"
  /\ toLowerCase "GNDnet_42" = js "gndnet_42".
Proof. repeat split; vm_compute; reflexivity. Qed.

Example regex_samples :
  match0 (rseq [plus isDigit; RQuant false 0 None isDot; RClass isDigit]) "ab12cd345" = Some (js "12cd3")
  /\ match0 (rseq [plus isDigit; RQuant true 0 None isDot; RClass isDigit]) "ab12cd345" = Some (js "12cd345")
  /\ match1 (rseq [RStart; RGroup (RQuant false 0 None isDot); plus isWhiteSpace]) "GND  T" = Some (js "GND")
  /\ test (rseq [RStart; plus isDigit]) "a1" = false
  /\ match0 (rseq [RQuant true 1 (Some 2) isDigit; exactly 2 isWord]) "x123ab" = Some (js "123a").
Proof. repeat split; vm_compute; reflexivity. Qed.

Example Math_min_max_samples :
  Math_max [1; 10]%float = 10%float /\ Math_max [200; 10]%float = 200%float
  /\ isNaN (Math_max [nan; 10%float]) = true
  /\ Math_max [-0; 0]%float = 0%float /\ Math_min [0; -0]%float = (-0)%float
  /\ Math_min [] = infinity /\ Math_max [] = neg_infinity.
Proof. repeat split; vm_compute; reflexivity. Qed.


(** ** Searching and splitting strings *)

Lemma startsWith_spec (p s : jstring) :
  startsWith p s = true <-> exists t, s = p ++ t.
Proof.
  revert s. induction p as [|a p IH]; intros s; simpl.
  - split; [intros _; now exists s | reflexivity].
  - destruct s as [|c s].
    + split; [discriminate | intros [t H]; discriminate H].
    + rewrite andb_true_iff, Ascii.eqb_eq, IH. split.
      * intros [-> [t ->]]. now exists t.
      * intros [t H]. injection H as -> ->. split; [reflexivity | now exists t].
Qed.

Lemma startsWith_length (p s : jstring) :
  startsWith p s = true -> (List.length p <= List.length s)%nat.
Proof.
  rewrite startsWith_spec. intros [t ->]. rewrite length_app. lia.
Qed.

Lemma indexOf_nil (p : jstring) : p <> [] -> indexOf p [] = None.
Proof. destruct p; [congruence | reflexivity]. Qed.

(** [indexOf] finds an occurrence, and the first one. *)
Lemma indexOf_Some (p s : jstring) (i : nat) :
  indexOf p s = Some i ->
  s = firstn i s ++ p ++ skipn (i + List.length p) s
  /\ forall j, (j < i)%nat -> startsWith p (skipn j s) = false.
Proof.
  revert i. induction s as [|c s IH]; intros i; simpl.
  - destruct (startsWith p []) eqn:E; [|discriminate].
    intros [= <-]. split; [|intros j Hj; lia].
    apply startsWith_spec in E. destruct E as [t E].
    destruct p; [reflexivity | discriminate E].
  - destruct (startsWith p (c :: s)) eqn:E.
    + intros [= <-]. split; [|intros j Hj; lia].
      apply startsWith_spec in E. destruct E as [t E]. simpl.
      rewrite E at 1. f_equal. rewrite E.
      now rewrite skipn_app, skipn_all, Nat.sub_diag.
    + destruct (indexOf p s) as [i'|] eqn:I; [|discriminate].
      intros [= <-]. destruct (IH i' eq_refl) as [Hs Hmin]. split.
      * simpl. f_equal. exact Hs.
      * intros [|j] Hj; simpl; [exact E | apply Hmin; lia].
Qed.

Lemma indexOf_bound (p s : jstring) (i : nat) :
  indexOf p s = Some i -> (i + List.length p <= List.length s)%nat.
Proof.
  revert i. induction s as [|c s IH]; intros i; simpl.
  - destruct (startsWith p []) eqn:E; [|discriminate].
    intros [= <-]. apply startsWith_length in E. simpl in *. lia.
  - destruct (startsWith p (c :: s)) eqn:E.
    + intros [= <-]. apply startsWith_length in E. simpl in *. lia.
    + destruct (indexOf p s) as [i'|] eqn:I; [|discriminate].
      intros [= <-]. specialize (IH i' eq_refl). simpl. lia.
Qed.

Lemma includes_indexOf (p s : jstring) :
  includes p s = match indexOf p s with Some _ => true | None => false end.
Proof.
  induction s as [|c s IH]; simpl.
  - destruct (startsWith p []); reflexivity.
  - destruct (startsWith p (c :: s)); simpl; [reflexivity|].
    rewrite IH. destruct (indexOf p s); reflexivity.
Qed.

Lemma includes_spec (p s : jstring) :
  includes p s = true <-> exists pre post, s = pre ++ p ++ post.
Proof.
  induction s as [|c s IH]; simpl.
  - rewrite orb_false_r, startsWith_spec. split.
    + intros [t H]. now exists [], t.
    + intros (pre & post & H). destruct pre; [|discriminate H]. now exists post.
  - rewrite orb_true_iff, startsWith_spec, IH. split.
    + intros [[t H]|(pre & post & H)].
      * now exists [], t.
      * exists (c :: pre), post. simpl. now f_equal.
    + intros (pre & post & H). destruct pre as [|a pre].
      * left. now exists post.
      * right. injection H as _ H. now exists pre, post.
Qed.

(** The rounds of [split_fuel] beyond the length of the string change
    nothing. *)
Lemma split_fuel_stable (sep : jstring) :
  sep <> [] ->
  forall fuel1 fuel2 s,
    (List.length s <= fuel1)%nat -> (List.length s <= fuel2)%nat ->
    split_fuel fuel1 sep s = split_fuel fuel2 sep s.
Proof.
  intros Hsep.
  assert (Z : forall fuel s, List.length s = 0%nat -> split_fuel fuel sep s = [s]).
  { intros fuel s Hs. destruct s; [|discriminate Hs].
    destruct fuel; cbn [split_fuel]; [reflexivity|]. now rewrite indexOf_nil. }
  induction fuel1 as [|fuel1 IH]; intros fuel2 s H1 H2.
  - rewrite !Z by lia. reflexivity.
  - destruct fuel2 as [|fuel2].
    + rewrite !Z by lia. reflexivity.
    + cbn [split_fuel]. destruct (indexOf sep s) as [i|] eqn:I; [|reflexivity].
      f_equal. apply indexOf_bound in I.
      assert (0 < List.length sep)%nat by (destruct sep; [congruence | simpl; lia]).
      apply IH; rewrite length_skipn; lia.
Qed.

(** [s.split(sep)], occurrence by occurrence. *)
Lemma split_unfold (sep s : jstring) :
  sep <> [] ->
  split sep s =
  match indexOf sep s with
  | None => [s]
  | Some i => firstn i s :: split sep (skipn (i + List.length sep) s)
  end.
Proof.
  intros Hsep. unfold split.
  destruct s as [|c s].
  - cbn [List.length split_fuel]. now rewrite indexOf_nil.
  - change (List.length (c :: s)) with (S (List.length s)).
    cbn [split_fuel].
    destruct (indexOf sep (c :: s)) as [i|] eqn:I; [|reflexivity].
    f_equal. apply indexOf_bound in I.
    assert (0 < List.length sep)%nat by (destruct sep; [congruence | simpl; lia]).
    apply split_fuel_stable; [assumption | | reflexivity].
    rewrite length_skipn. cbn [List.length] in *. lia.
Qed.

(** The second piece of a split: what lies between the first occurrence of
    the separator and the next one. *)
Lemma split_second (sep s : jstring) (i : nat) :
  sep <> [] -> indexOf sep s = Some i ->
  nth 1 (split sep s) [] =
  let after := skipn (i + List.length sep) s in
  match indexOf sep after with
  | Some j => firstn j after
  | None => after
  end.
Proof.
  intros Hsep I. rewrite split_unfold, I by assumption. cbn [nth].
  rewrite split_unfold by assumption. cbv zeta.
  destruct (indexOf sep (skipn (i + List.length sep) s)); reflexivity.
Qed.

(** ** The order of binary64 values *)

Lemma SFcompare_rank (a b : spec_float) :
  SF_nan a = false -> SF_nan b = false ->
  SFcompare a b = Some (lex3 (rank a) (rank b)).
Proof.
  destruct a as [sa|sa| |sa ma ea], b as [sb|sb| |sb mb eb]; intros Ha Hb;
    try discriminate Ha; try discriminate Hb;
    try (destruct sa); try (destruct sb); try reflexivity.
  cbn [SFcompare rank lex3]. rewrite Z.compare_opp, (Z.compare_antisym eb ea).
  change (Pos.compare_cont Eq ma mb) with (Pos.compare ma mb).
  change (- 1 ?= - 1)%Z with Eq. cbv iota.
  change (Z.neg ma ?= Z.neg mb)%Z with (CompOpp (Pos.compare ma mb)).
  now destruct (eb ?= ea)%Z.
Qed.

Lemma lex3_le_spec (a b : Z * Z * Z) : lex3 a b <> Gt <-> lex3_le a b.
Proof.
  destruct a as [[a1 a2] a3], b as [[b1 b2] b3]. unfold lex3, lex3_le.
  destruct (Z.compare_spec a1 b1); [destruct (Z.compare_spec a2 b2);
    [destruct (Z.compare_spec a3 b3)|..]|..];
    (split; [intros G; try lia; exfalso; now apply G | intros G; try discriminate; lia]).
Qed.

Lemma lex3_lt_spec (a b : Z * Z * Z) :
  lex3 a b = Lt <->
  (let '(a1, a2, a3) := a in
   let '(b1, b2, b3) := b in
   a1 < b1 \/ (a1 = b1 /\ (a2 < b2 \/ (a2 = b2 /\ a3 < b3))))%Z.
Proof.
  destruct a as [[a1 a2] a3], b as [[b1 b2] b3]. unfold lex3.
  destruct (Z.compare_spec a1 b1); [destruct (Z.compare_spec a2 b2);
    [destruct (Z.compare_spec a3 b3)|..]|..];
    (split; [intros G; try discriminate; lia | intros G; try reflexivity; lia]).
Qed.

Lemma SFleb_rank (a b : spec_float) :
  SF_nan a = false -> SF_nan b = false ->
  SFleb a b = true <-> lex3_le (rank a) (rank b).
Proof.
  intros Ha Hb. unfold SFleb. rewrite (SFcompare_rank a b Ha Hb), <- lex3_le_spec.
  destruct (lex3 (rank a) (rank b)); split; congruence.
Qed.

Lemma SFleb_not_nan (a b : spec_float) :
  SFleb a b = true -> SF_nan a = false /\ SF_nan b = false.
Proof. destruct a, b; simpl; intros H; try discriminate H; now split. Qed.

Lemma SFleb_refl (v : spec_float) : SF_nan v = false -> SFleb v v = true.
Proof.
  intros H. apply SFleb_rank; [assumption..|].
  destruct (rank v) as [[a b] c]. unfold lex3_le. lia.
Qed.

Lemma SFleb_trans (a b c : spec_float) :
  SFleb a b = true -> SFleb b c = true -> SFleb a c = true.
Proof.
  intros H1 H2.
  destruct (SFleb_not_nan a b H1) as [Ha Hb].
  destruct (SFleb_not_nan b c H2) as [_ Hc].
  apply SFleb_rank in H1; [|assumption..].
  apply SFleb_rank in H2; [|assumption..].
  apply SFleb_rank; [assumption..|].
  destruct (rank a) as [[a1 a2] a3], (rank b) as [[b1 b2] b3], (rank c) as [[c1 c2] c3].
  unfold lex3_le in *. lia.
Qed.

Lemma SFltb_leb (a b : spec_float) : SFltb a b = true -> SFleb a b = true.
Proof. unfold SFltb, SFleb. now destruct (SFcompare a b) as [[| |]|]. Qed.

Lemma SFleb_total (a b : spec_float) :
  SF_nan a = false -> SF_nan b = false -> SFltb a b = false -> SFleb b a = true.
Proof.
  intros Ha Hb H. apply SFleb_rank; [assumption..|].
  unfold SFltb in H. rewrite (SFcompare_rank a b Ha Hb) in H.
  assert (L : lex3 (rank a) (rank b) <> Lt) by (destruct (lex3 (rank a) (rank b)); congruence).
  rewrite lex3_lt_spec in L.
  destruct (rank a) as [[a1 a2] a3], (rank b) as [[b1 b2] b3].
  unfold lex3_le. lia.
Qed.

Lemma isNaN_spec (v : float) : isNaN v = SF_nan (Prim2SF v).
Proof.
  unfold isNaN, is_nan. rewrite FloatAxioms.eqb_spec. unfold SFeqb.
  destruct (Prim2SF v) as [s|s| |s m e]; simpl; try reflexivity.
  - now destruct s.
  - change (Pos.compare_cont Eq m m) with (Pos.compare m m).
    rewrite Z.compare_refl, Pos.compare_refl. now destruct s.
Qed.

Lemma leb_refl (v : float) : isNaN v = false -> (v <=? v)%float = true.
Proof. rewrite isNaN_spec, FloatAxioms.leb_spec. apply SFleb_refl. Qed.

Lemma leb_trans (a b c : float) :
  (a <=? b)%float = true -> (b <=? c)%float = true -> (a <=? c)%float = true.
Proof. rewrite !FloatAxioms.leb_spec. apply SFleb_trans. Qed.

Lemma ltb_leb (a b : float) : (a <? b)%float = true -> (a <=? b)%float = true.
Proof. rewrite FloatAxioms.ltb_spec, FloatAxioms.leb_spec. apply SFltb_leb. Qed.

Lemma leb_total (a b : float) :
  isNaN a = false -> isNaN b = false ->
  (a <? b)%float = false -> (b <=? a)%float = true.
Proof. rewrite !isNaN_spec, FloatAxioms.ltb_spec, FloatAxioms.leb_spec. apply SFleb_total. Qed.

Lemma is_neg_zero_spec (v : float) :
  is_neg_zero v = true -> Prim2SF v = S754_zero true.
Proof.
  unfold is_neg_zero. rewrite FloatAxioms.classify_spec. unfold SF64classify, SFclassify.
  destruct (Prim2SF v) as [[|]|[|]| |[|] m e]; try discriminate; try reflexivity;
    destruct (Z.eqb _ _); discriminate.
Qed.

Lemma is_pos_zero_spec (v : float) :
  is_pos_zero v = true -> Prim2SF v = S754_zero false.
Proof.
  unfold is_pos_zero. rewrite FloatAxioms.classify_spec. unfold SF64classify, SFclassify.
  destruct (Prim2SF v) as [[|]|[|]| |[|] m e]; try discriminate; try reflexivity;
    destruct (Z.eqb _ _); discriminate.
Qed.

Lemma zeros_leb (a b : float) (sa sb : bool) :
  Prim2SF a = S754_zero sa -> Prim2SF b = S754_zero sb -> (a <=? b)%float = true.
Proof. intros Ha Hb. rewrite FloatAxioms.leb_spec, Ha, Hb. reflexivity. Qed.

(** ** [Math.min] and [Math.max] *)

Lemma min_step_spec (lowest number : float) :
  isNaN lowest = false -> isNaN number = false ->
  isNaN (min_step lowest number) = false
  /\ (min_step lowest number <=? lowest)%float = true
  /\ (min_step lowest number <=? number)%float = true.
Proof.
  intros Hl Hn. unfold min_step. rewrite Hl, Hn. cbn [orb].
  destruct (is_neg_zero number && is_pos_zero lowest) eqn:Z.
  - apply andb_true_iff in Z. destruct Z as [Zn Zl].
    apply is_neg_zero_spec in Zn. apply is_pos_zero_spec in Zl.
    repeat split; [assumption | now apply (zeros_leb _ _ true false) | now apply leb_refl].
  - destruct (number <? lowest)%float eqn:L.
    + repeat split; [assumption | now apply ltb_leb | now apply leb_refl].
    + repeat split; [assumption | now apply leb_refl | now apply leb_total].
Qed.

Lemma max_step_spec (highest number : float) :
  isNaN highest = false -> isNaN number = false ->
  isNaN (max_step highest number) = false
  /\ (highest <=? max_step highest number)%float = true
  /\ (number <=? max_step highest number)%float = true.
Proof.
  intros Hh Hn. unfold max_step. rewrite Hh, Hn. cbn [orb].
  destruct (is_pos_zero number && is_neg_zero highest) eqn:Z.
  - apply andb_true_iff in Z. destruct Z as [Zn Zh].
    apply is_pos_zero_spec in Zn. apply is_neg_zero_spec in Zh.
    repeat split; [assumption | now apply (zeros_leb _ _ true false) | now apply leb_refl].
  - destruct (highest <? number)%float eqn:L.
    + repeat split; [assumption | now apply ltb_leb | now apply leb_refl].
    + repeat split; [assumption | now apply leb_refl | now apply leb_total].
Qed.

Lemma min_fold_spec (xs : list float) :
  forall acc,
    isNaN acc = false -> (forall v, In v xs -> isNaN v = false) ->
    isNaN (fold_left min_step xs acc) = false
    /\ (fold_left min_step xs acc <=? acc)%float = true
    /\ forall v, In v xs -> (fold_left min_step xs acc <=? v)%float = true.
Proof.
  induction xs as [|a xs IH]; intros acc Hacc Hxs; simpl.
  - repeat split; [assumption | now apply leb_refl | intros v []].
  - assert (Ha : isNaN a = false) by (apply Hxs; now left).
    destruct (min_step_spec acc a Hacc Ha) as (N & L1 & L2).
    destruct (IH (min_step acc a) N) as (N' & L & Lall).
    { intros v Hv. apply Hxs. now right. }
    repeat split; [assumption | now apply (leb_trans _ (min_step acc a)) |].
    intros v [<-|Hv]; [now apply (leb_trans _ (min_step acc a)) | now apply Lall].
Qed.

Lemma max_fold_spec (xs : list float) :
  forall acc,
    isNaN acc = false -> (forall v, In v xs -> isNaN v = false) ->
    isNaN (fold_left max_step xs acc) = false
    /\ (acc <=? fold_left max_step xs acc)%float = true
    /\ forall v, In v xs -> (v <=? fold_left max_step xs acc)%float = true.
Proof.
  induction xs as [|a xs IH]; intros acc Hacc Hxs; simpl.
  - repeat split; [assumption | now apply leb_refl | intros v []].
  - assert (Ha : isNaN a = false) by (apply Hxs; now left).
    destruct (max_step_spec acc a Hacc Ha) as (N & L1 & L2).
    destruct (IH (max_step acc a) N) as (N' & L & Lall).
    { intros v Hv. apply Hxs. now right. }
    repeat split; [assumption | now apply (leb_trans _ (max_step acc a)) |].
    intros v [<-|Hv]; [now apply (leb_trans _ (max_step acc a)) | now apply Lall].
Qed.

(** [Math.min] of numbers is below each of them, [Math.max] above. *)
Lemma Math_min_below (xs : list float) (v : float) :
  (forall w, In w xs -> isNaN w = false) -> In v xs ->
  (Math_min xs <=? v)%float = true.
Proof.
  intros Hxs Hv. unfold Math_min.
  now apply (min_fold_spec xs infinity eq_refl Hxs).
Qed.

Lemma Math_max_above (xs : list float) (v : float) :
  (forall w, In w xs -> isNaN w = false) -> In v xs ->
  (v <=? Math_max xs)%float = true.
Proof.
  intros Hxs Hv. unfold Math_max.
  now apply (max_fold_spec xs neg_infinity eq_refl Hxs).
Qed.

(** ** Products of finite values *)

Lemma shr_1_nonneg (mrs : shr_record) :
  (0 <= shr_m mrs)%Z -> (0 <= shr_m (shr_1 mrs))%Z.
Proof.
  destruct mrs as [m r s]. destruct m as [|p|p]; simpl; intros H.
  - lia.
  - destruct p; simpl; lia.
  - lia.
Qed.

Lemma iter_pos_invariant {A : Type} (P : A -> Prop) (f : A -> A) :
  (forall a, P a -> P (f a)) -> forall n a, P a -> P (iter_pos f n a).
Proof.
  intros Hf. induction n as [n IH|n IH|]; intros a Ha; simpl; auto.
Qed.

Lemma shr_nonneg (mrs : shr_record) (e n : Z) :
  (0 <= shr_m mrs)%Z -> (0 <= shr_m (fst (shr mrs e n)))%Z.
Proof.
  intros H. unfold shr. destruct n as [|p|p]; simpl; try assumption.
  now apply (iter_pos_invariant (fun r => 0 <= shr_m r)%Z shr_1 shr_1_nonneg).
Qed.

Lemma shr_fexp_nonneg (m e : Z) (l : location) :
  (0 <= m)%Z -> (0 <= shr_m (fst (shr_fexp prec emax m e l)))%Z.
Proof.
  intros H. unfold shr_fexp. apply shr_nonneg.
  destruct l as [|[| |]]; exact H.
Qed.

Lemma round_nearest_even_nonneg (m : Z) (l : location) :
  (0 <= m)%Z -> (0 <= round_nearest_even m l)%Z.
Proof.
  intros H. unfold round_nearest_even.
  destruct l as [|[| |]]; try lia. destruct (Z.even m); lia.
Qed.

Lemma binary_round_aux_not_nan (s : bool) (m e : Z) (l : location) :
  (0 <= m)%Z -> SF_nan (binary_round_aux prec emax s m e l) = false.
Proof.
  intros H. unfold binary_round_aux.
  pose proof (shr_fexp_nonneg m e l H) as H1.
  destruct (shr_fexp prec emax m e l) as [mrs1 e1]. cbn [fst] in H1.
  pose proof (shr_fexp_nonneg _ e1 loc_Exact
                (round_nearest_even_nonneg _ (loc_of_shr_record mrs1) H1)) as H2.
  destruct (shr_fexp prec emax (round_nearest_even (shr_m mrs1) (loc_of_shr_record mrs1))
              e1 loc_Exact) as [mrs2 e2].
  cbn [fst] in H2.
  destruct (shr_m mrs2) as [|p|p]; [reflexivity | | lia].
  now destruct (e2 <=? emax - prec)%Z.
Qed.

(** The product of two finite values is a number. *)
Lemma mul_finite_is_number (a b : float) (sa sb : bool) (ma mb : positive) (ea eb : Z) :
  Prim2SF a = S754_finite sa ma ea -> Prim2SF b = S754_finite sb mb eb ->
  isNaN (a * b)%float = false.
Proof.
  intros Ha Hb. rewrite isNaN_spec, mul_spec, Ha, Hb.
  unfold SF64mul, SFmul. apply binary_round_aux_not_nan. lia.
Qed.

(** A value between two finite positive values is finite and positive. *)
Lemma between_finite (lo hi v : float) (ml mh : positive) (el eh : Z) :
  Prim2SF lo = S754_finite false ml el -> Prim2SF hi = S754_finite false mh eh ->
  (lo <=? v)%float = true -> (v <=? hi)%float = true ->
  exists m e, Prim2SF v = S754_finite false m e.
Proof.
  rewrite !FloatAxioms.leb_spec. intros -> ->.
  destruct (Prim2SF v) as [s|[|]| |[|] m e]; try discriminate; eauto.
Qed.

Lemma min_step_choice (a b : float) :
  min_step a b = a \/ min_step a b = b \/ min_step a b = nan.
Proof.
  unfold min_step. destruct (isNaN a || isNaN b); [tauto|].
  destruct (is_neg_zero b && is_pos_zero a); [tauto|].
  destruct (b <? a)%float; tauto.
Qed.

Lemma max_step_choice (a b : float) :
  max_step a b = a \/ max_step a b = b \/ max_step a b = nan.
Proof.
  unfold max_step. destruct (isNaN a || isNaN b); [tauto|].
  destruct (is_pos_zero b && is_neg_zero a); [tauto|].
  destruct (a <? b)%float; tauto.
Qed.

(** [Math.max(a, b)] and [Math.min(a, b)] of two numbers. *)
Lemma Math_max2_spec (a b : float) :
  isNaN a = false -> isNaN b = false ->
  isNaN (Math_max [a; b]) = false
  /\ (a <=? Math_max [a; b])%float = true
  /\ (b <=? Math_max [a; b])%float = true
  /\ (Math_max [a; b] = a \/ Math_max [a; b] = b).
Proof.
  intros Ha Hb.
  assert (Hall : forall w, In w [a; b] -> isNaN w = false)
    by (intros w [<-|[<-|[]]]; assumption).
  destruct (max_fold_spec [a; b] neg_infinity eq_refl Hall) as (N & _ & L).
  fold (Math_max [a; b]) in N, L.
  repeat split; [exact N | apply L; simpl; tauto | apply L; simpl; tauto |].
  unfold Math_max in *. simpl in *.
  assert (E : max_step neg_infinity a = a).
  { destruct (max_step_choice neg_infinity a) as [E|[E|E]]; [|exact E|].
    - assert (La : (a <=? max_step neg_infinity a)%float = true)
        by (apply max_step_spec; [reflexivity | assumption]).
      rewrite E in La. rewrite FloatAxioms.leb_spec in La.
      rewrite isNaN_spec in Ha.
      assert (Pa : Prim2SF a = S754_infinity true).
      { change (Prim2SF neg_infinity) with (S754_infinity true) in La.
        destruct (Prim2SF a) as [s|[|]| |[|] m e]; try discriminate; reflexivity. }
      rewrite E. rewrite <- (SF2Prim_Prim2SF a), Pa. reflexivity.
    - assert (Na : isNaN (max_step neg_infinity a) = false)
        by (apply max_step_spec; [reflexivity | assumption]).
      rewrite E in Na. discriminate Na. }
  rewrite E in *.
  destruct (max_step_choice a b) as [F|[F|F]]; [tauto | tauto |].
  rewrite F in N. discriminate N.
Qed.

Lemma Math_min2_spec (a b : float) :
  isNaN a = false -> isNaN b = false ->
  isNaN (Math_min [a; b]) = false
  /\ (Math_min [a; b] <=? a)%float = true
  /\ (Math_min [a; b] <=? b)%float = true
  /\ (Math_min [a; b] = a \/ Math_min [a; b] = b).
Proof.
  intros Ha Hb.
  assert (Hall : forall w, In w [a; b] -> isNaN w = false)
    by (intros w [<-|[<-|[]]]; assumption).
  destruct (min_fold_spec [a; b] infinity eq_refl Hall) as (N & _ & L).
  fold (Math_min [a; b]) in N, L.
  repeat split; [exact N | apply L; simpl; tauto | apply L; simpl; tauto |].
  unfold Math_min in *. simpl in *.
  assert (E : min_step infinity a = a).
  { destruct (min_step_choice infinity a) as [E|[E|E]]; [|exact E|].
    - assert (La : (min_step infinity a <=? a)%float = true)
        by (apply min_step_spec; [reflexivity | assumption]).
      rewrite E in La. rewrite FloatAxioms.leb_spec in La.
      rewrite isNaN_spec in Ha.
      assert (Pa : Prim2SF a = S754_infinity false).
      { change (Prim2SF infinity) with (S754_infinity false) in La.
        destruct (Prim2SF a) as [s|[|]| |[|] m e]; try discriminate; reflexivity. }
      rewrite E. rewrite <- (SF2Prim_Prim2SF a), Pa. reflexivity.
    - assert (Na : isNaN (min_step infinity a) = false)
        by (apply min_step_spec; [reflexivity | assumption]).
      rewrite E in Na. discriminate Na. }
  rewrite E in *.
  destruct (min_step_choice a b) as [F|[F|F]]; [tauto | tauto |].
  rewrite F in N. discriminate N.
Qed.

End JSFacts.

(* ================================================================== *)
(** * Signs and exactness of the results of the arithmetic *)
(* ================================================================== *)

Module FloatMore.
Import JS JSFacts Signs.

Lemma leb_0_spec (z : float) : (0 <=? z)%float = SF_nonneg (Prim2SF z).
Proof.
  rewrite FloatAxioms.leb_spec. change (Prim2SF 0) with (S754_zero false).
  now destruct (Prim2SF z) as [[|]|[|]| |[|] m e].
Qed.

Lemma ltb_0_spec (z : float) : (0 <? z)%float = SF_pos (Prim2SF z).
Proof.
  rewrite FloatAxioms.ltb_spec. change (Prim2SF 0) with (S754_zero false).
  now destruct (Prim2SF z) as [[|]|[|]| |[|] m e].
Qed.

Lemma SF_pos_nonneg (f : spec_float) : SF_pos f = true -> SF_nonneg f = true.
Proof. now destruct f as [[|]|[|]| |[|] m e]. Qed.

Lemma SF_nonneg_number (f : spec_float) : SF_nonneg f = true -> SF_nan f = false.
Proof. now destruct f as [[|]|[|]| |[|] m e]. Qed.

Lemma fexp_eq (z : Z) : fexp prec emax z = Z.max (z - 53) (-1074).
Proof. reflexivity. Qed.

Lemma digits2_pos_bounds (p : positive) :
  (2 ^ (Zpos (digits2_pos p) - 1) <= Zpos p < 2 ^ Zpos (digits2_pos p))%Z.
Proof.
  induction p as [p IH|p IH|]; cbn [digits2_pos]; [| |simpl; lia].
  - rewrite Pos2Z.inj_succ, (Pos2Z.inj_xI p).
    replace (Z.succ (Zpos (digits2_pos p)) - 1)%Z with (Z.succ (Zpos (digits2_pos p) - 1))%Z by lia.
    rewrite !Z.pow_succ_r by lia.
    set (a := (2 ^ (Zpos (digits2_pos p) - 1))%Z) in *.
    set (b := (2 ^ Zpos (digits2_pos p))%Z) in *. clearbody a b. lia.
  - rewrite Pos2Z.inj_succ, (Pos2Z.inj_xO p).
    replace (Z.succ (Zpos (digits2_pos p)) - 1)%Z with (Z.succ (Zpos (digits2_pos p) - 1))%Z by lia.
    rewrite !Z.pow_succ_r by lia.
    set (a := (2 ^ (Zpos (digits2_pos p) - 1))%Z) in *.
    set (b := (2 ^ Zpos (digits2_pos p))%Z) in *. clearbody a b. lia.
Qed.

Lemma shr_1_half (mrs : shr_record) (k : Z) :
  (2 * k <= shr_m mrs)%Z -> (0 <= k)%Z -> (k <= shr_m (shr_1 mrs))%Z.
Proof.
  destruct mrs as [m r s]. destruct m as [|[p|p|]|p]; cbn [shr_1 shr_m]; lia.
Qed.

Lemma iter_shr_1_lower (p : positive) :
  forall (mrs : shr_record) (k : Z),
    (0 <= k)%Z -> (k * 2 ^ Zpos p <= shr_m mrs)%Z ->
    (k <= shr_m (iter_pos shr_1 p mrs))%Z.
Proof.
  induction p as [p IH|p IH|]; intros mrs k Hk H; cbn [iter_pos].
  - rewrite (Pos2Z.inj_xI p) in H.
    replace (2 * Zpos p + 1)%Z with (1 + Zpos p + Zpos p)%Z in H by lia.
    rewrite !Z.pow_add_r in H by lia.
    assert (0 < 2 ^ Zpos p)%Z by (apply Z.pow_pos_nonneg; lia).
    apply IH; [exact Hk|]. apply IH; [nia|].
    apply shr_1_half; [|nia]. change (2 ^ 1)%Z with 2%Z in H. nia.
  - rewrite (Pos2Z.inj_xO p) in H.
    replace (2 * Zpos p)%Z with (Zpos p + Zpos p)%Z in H by lia.
    rewrite Z.pow_add_r in H by lia.
    assert (0 < 2 ^ Zpos p)%Z by (apply Z.pow_pos_nonneg; lia).
    apply IH; [exact Hk|]. apply IH; [nia|]. nia.
  - apply shr_1_half; [|exact Hk]. change (2 ^ 1)%Z with 2%Z in H. lia.
Qed.

Lemma shr_record_of_loc_m (m : Z) (l : location) : shr_m (shr_record_of_loc m l) = m.
Proof. now destruct l as [|[| |]]. Qed.

(** A right shift decided by [fexp] keeps a positive mantissa positive when
    the exponent is not below the least one, or the mantissa is large enough
    for the shift up to the least exponent. *)
Lemma shr_fexp_pos (m e : Z) (l : location) :
  (0 < m)%Z -> ((e < -1074)%Z -> (2 ^ (-1074 - e) <= m)%Z) ->
  (1 <= shr_m (fst (shr_fexp prec emax m e l)))%Z
  /\ (-1074 <= snd (shr_fexp prec emax m e l))%Z.
Proof.
  intros Hm He. unfold shr_fexp. rewrite fexp_eq.
  destruct m as [|p|p]; try lia. cbn [Zdigits2].
  pose proof (digits2_pos_bounds p) as D.
  set (d := Zpos (digits2_pos p)) in *.
  unfold shr.
  destruct (Z.max (d + e - 53) (-1074) - e)%Z as [|n|n] eqn:N; cbn [fst snd].
  - rewrite shr_record_of_loc_m. lia.
  - split; [|lia].
    apply iter_shr_1_lower; [lia|]. rewrite shr_record_of_loc_m, Z.mul_1_l.
    destruct (Z.max_spec (d + e - 53) (-1074)) as [[_ E]|[_ E]]; rewrite E in N.
    + replace (Zpos n) with (-1074 - e)%Z by lia. apply He. lia.
    + replace (Zpos n) with (d - 53)%Z by lia.
      apply (Z.le_trans _ (2 ^ (d - 1))%Z); [|lia].
      apply Z.pow_le_mono_r; lia.
  - rewrite shr_record_of_loc_m. lia.
Qed.

Lemma round_nearest_even_ge (m : Z) (l : location) : (m <= round_nearest_even m l)%Z.
Proof.
  unfold round_nearest_even. destruct l as [|[| |]]; try lia.
  destruct (Z.even m); lia.
Qed.

(** Rounding keeps the sign, and gives a zero, a finite value or an
    infinity. *)
Lemma binary_round_aux_sign (s : bool) (m e : Z) (l : location) :
  (0 <= m)%Z ->
  binary_round_aux prec emax s m e l = S754_zero s
  \/ binary_round_aux prec emax s m e l = S754_infinity s
  \/ exists m' e', binary_round_aux prec emax s m e l = S754_finite s m' e'.
Proof.
  intros H. unfold binary_round_aux.
  pose proof (shr_fexp_nonneg m e l H) as H1.
  destruct (shr_fexp prec emax m e l) as [mrs1 e1]. cbn [fst] in H1.
  pose proof (shr_fexp_nonneg _ e1 loc_Exact
                (round_nearest_even_nonneg _ (loc_of_shr_record mrs1) H1)) as H2.
  destruct (shr_fexp prec emax (round_nearest_even (shr_m mrs1) (loc_of_shr_record mrs1))
              e1 loc_Exact) as [mrs2 e2].
  cbn [fst] in H2.
  destruct (shr_m mrs2) as [|p|p]; [now left | | lia].
  destruct (e2 <=? emax - prec)%Z; [right; right; eauto | right; now left].
Qed.

Lemma binary_round_aux_nonneg (m e : Z) (l : location) :
  (0 <= m)%Z -> SF_nonneg (binary_round_aux prec emax false m e l) = true.
Proof.
  intros H.
  destruct (binary_round_aux_sign false m e l H) as [E|[E|(m' & e' & E)]];
    now rewrite E.
Qed.

(** Rounding a positive value gives a positive one, not zero, under the
    condition of [shr_fexp_pos]. *)
Lemma binary_round_aux_pos (m e : Z) (l : location) :
  (0 < m)%Z -> ((e < -1074)%Z -> (2 ^ (-1074 - e) <= m)%Z) ->
  SF_pos (binary_round_aux prec emax false m e l) = true.
Proof.
  intros Hm He. unfold binary_round_aux.
  destruct (shr_fexp_pos m e l Hm He) as [H1 E1].
  destruct (shr_fexp prec emax m e l) as [mrs1 e1]. cbn [fst snd] in H1, E1.
  pose proof (round_nearest_even_ge (shr_m mrs1) (loc_of_shr_record mrs1)) as R.
  destruct (shr_fexp_pos (round_nearest_even (shr_m mrs1) (loc_of_shr_record mrs1))
              e1 loc_Exact) as [H2 _]; [lia | lia |].
  destruct (shr_fexp prec emax (round_nearest_even (shr_m mrs1) (loc_of_shr_record mrs1))
              e1 loc_Exact) as [mrs2 e2].
  cbn [fst] in H2.
  destruct (shr_m mrs2) as [|p|p]; [lia | | lia].
  now destruct (e2 <=? emax - prec)%Z.
Qed.

(** What [Prim2SF] gives is canonical: the exponent is at least the least
    one, the mantissa has at most 53 bits, and exactly 53 above the least
    exponent. *)
Lemma valid_finite (v : float) (s : bool) (m : positive) (e : Z) :
  Prim2SF v = S754_finite s m e ->
  (-1074 <= e)%Z /\ (Zpos m < 2 ^ 53)%Z /\ ((-1074 < e)%Z -> (2 ^ 52 <= Zpos m)%Z).
Proof.
  intros E. pose proof (Prim2SF_valid v) as V. rewrite E in V.
  cbn [valid_binary] in V. unfold bounded, canonical_mantissa in V.
  apply andb_true_iff in V. destruct V as [V _]. apply Z.eqb_eq in V.
  rewrite fexp_eq in V.
  pose proof (digits2_pos_bounds m) as D.
  set (d := Zpos (digits2_pos m)) in *.
  assert (Hd : (d <= 53)%Z) by lia.
  split; [lia|]. split.
  - apply (Z.lt_le_trans _ (2 ^ d)%Z); [lia|]. apply Z.pow_le_mono_r; lia.
  - intros He. assert (d = 53)%Z by lia.
    replace 52%Z with (d - 1)%Z by lia. lia.
Qed.

(** ** Products *)

(** A positive number times a positive finite constant whose product with
    the least positive value is not zero. *)
Lemma mul_pos (z c : float) (mc : positive) (ec : Z) :
  Prim2SF c = S754_finite false mc ec ->
  (2 ^ 52 <= Zpos mc)%Z -> (-53 <= ec)%Z ->
  SF_pos (SF64mul (S754_finite false 1 (-1074)) (S754_finite false mc ec)) = true ->
  (0 <? z)%float = true -> (0 <? z * c)%float = true.
Proof.
  intros Hc Hm He Hmin. rewrite !ltb_0_spec, mul_spec, Hc.
  destruct (Prim2SF z) as [[|]|[|]| |[|] m e] eqn:Hz; try discriminate; intros _;
    [reflexivity|].
  destruct (valid_finite z false m e Hz) as (E1 & M1 & M2).
  destruct (Pos.eq_dec m 1) as [->|Hm1].
  - destruct (Z.eq_dec e (-1074)) as [->|He1]; [exact Hmin|].
    assert (2 ^ 52 <= 1)%Z by (apply M2; lia). lia.
  - unfold SF64mul, SFmul. cbn [xorb]. apply binary_round_aux_pos; [lia|].
    intros Hlt. rewrite Pos2Z.inj_mul.
    assert (2 <= Zpos m)%Z by lia.
    apply (Z.le_trans _ (2 ^ 53)%Z); [apply Z.pow_le_mono_r; lia|].
    change (2 ^ 53)%Z with (2 * 2 ^ 52)%Z. nia.
Qed.

(** ** Differences, sums and quotients *)

Lemma shl_align_value (m : positive) (e ez : Z) :
  (ez <= e)%Z -> Zpos (fst (shl_align m e ez)) = (Zpos m * 2 ^ (e - ez))%Z.
Proof.
  intros H. unfold shl_align.
  destruct (ez - e)%Z as [|d|d] eqn:D; cbn [fst]; try lia.
  - replace (e - ez)%Z with 0%Z by lia. lia.
  - change (Pos.iter xO m d) with (shift_pos d m).
    rewrite shift_pos_correct.
    replace (e - ez)%Z with (Zpos d) by lia.
    change (2 ^ Zpos d)%Z with (Z.pow_pos 2 d). apply Z.mul_comm.
Qed.

Lemma shl_align_exp (m : positive) (e ez : Z) :
  snd (shl_align m e ez) = Z.min e ez.
Proof.
  unfold shl_align. destruct (ez - e)%Z as [|d|d] eqn:D; cbn [snd]; lia.
Qed.

Lemma binary_normalize_nonneg (z e : Z) :
  (0 <= z)%Z -> SF_nonneg (binary_normalize prec emax z e false) = true.
Proof.
  intros H. destruct z as [|p|p]; [reflexivity | | lia].
  cbn [binary_normalize]. unfold binary_round.
  destruct (shl_align p e (fexp prec emax (Zpos (digits2_pos p) + e))) as [mz ez].
  apply binary_round_aux_nonneg. lia.
Qed.

Lemma binary_normalize_pos (z e : Z) :
  (0 < z)%Z -> (-1074 <= e)%Z ->
  SF_pos (binary_normalize prec emax z e false) = true.
Proof.
  intros H He. destruct z as [|p|p]; try lia.
  cbn [binary_normalize]. unfold binary_round.
  pose proof (shl_align_exp p e (fexp prec emax (Zpos (digits2_pos p) + e))) as E.
  rewrite fexp_eq in *.
  destruct (shl_align p e (Z.max (Zpos (digits2_pos p) + e - 53) (-1074))) as [mz ez].
  cbn [snd] in E. apply binary_round_aux_pos; lia.
Qed.

(** Canonical magnitudes in the order of the comparison: a smaller exponent,
    or the same exponent and a mantissa that is not larger. *)
Lemma aligned_le (a b : float) (sa sb : bool) (m1 m2 : positive) (e1 e2 : Z) :
  Prim2SF a = S754_finite sa m1 e1 -> Prim2SF b = S754_finite sb m2 e2 ->
  (e1 < e2)%Z \/ (e1 = e2 /\ (m1 <= m2)%positive) ->
  forall ez, ez = Z.min e1 e2 ->
  (Zpos (fst (shl_align m1 e1 ez)) <= Zpos (fst (shl_align m2 e2 ez)))%Z.
Proof.
  intros Ha Hb H ez ->. rewrite !shl_align_value by lia.
  destruct (valid_finite a sa m1 e1 Ha) as (E1 & M1 & _).
  destruct (valid_finite b sb m2 e2 Hb) as (E2 & _ & M2).
  destruct H as [H|[-> H]].
  - rewrite Z.min_l by lia. rewrite Z.sub_diag, Z.mul_1_r.
    assert (P : (2 ^ 1 <= 2 ^ (e2 - e1))%Z) by (apply Z.pow_le_mono_r; lia).
    change (2 ^ 1)%Z with 2%Z in P.
    assert (M : (2 ^ 52 <= Zpos m2)%Z) by (apply M2; lia).
    change (2 ^ 53)%Z with (2 * 2 ^ 52)%Z in M1.
    set (t := (2 ^ (e2 - e1))%Z) in *. clearbody t.
    set (u := (2 ^ 52)%Z) in *. clearbody u. nia.
  - rewrite Z.min_id, Z.sub_diag, !Z.mul_1_r. lia.
Qed.

Lemma isFinite_spec (v : float) :
  isFinite v = true ->
  (exists s, Prim2SF v = S754_zero s) \/ (exists s m e, Prim2SF v = S754_finite s m e).
Proof.
  unfold isFinite. rewrite FloatAxioms.classify_spec. unfold SF64classify, SFclassify.
  destruct (Prim2SF v) as [s|[|]| |s m e]; try discriminate; intros _; eauto.
Qed.

(** The difference of two finite values in their order is not negative (it
    can be [+Infinity]) and is not NaN. *)
Lemma sub_nonneg (a b : float) :
  isFinite a = true -> isFinite b = true -> (b <=? a)%float = true ->
  (0 <=? a - b)%float = true.
Proof.
  intros Fa Fb. rewrite leb_0_spec, sub_spec, FloatAxioms.leb_spec.
  destruct (isFinite_spec a Fa) as [(sa & Ha)|(sa & ma & ea & Ha)];
    destruct (isFinite_spec b Fb) as [(sb & Hb)|(sb & mb & eb & Hb)];
    rewrite Ha, Hb.
  - now destruct sa, sb.
  - now destruct sa, sb.
  - now destruct sa, sb.
  - unfold SF64sub, SFsub, SFleb, SFcompare.
    intros L. apply binary_normalize_nonneg.
    destruct sa, sb; cbn [cond_Zopp]; try lia; try discriminate L.
    + assert (Zpos (fst (shl_align ma ea (Z.min ea eb)))
              <= Zpos (fst (shl_align mb eb (Z.min ea eb))))%Z; [|lia].
      apply (aligned_le a b true true ma mb ea eb Ha Hb); [|reflexivity].
      destruct (Z.compare_spec eb ea) as [E|E|E]; try discriminate L; [|left; lia].
      right. split; [now symmetry|].
      change (Pos.compare_cont Eq mb ma) with (Pos.compare mb ma) in L.
      destruct (Pos.compare_spec mb ma) as [P|P|P]; try discriminate L; lia.
    + assert (Zpos (fst (shl_align mb eb (Z.min ea eb)))
              <= Zpos (fst (shl_align ma ea (Z.min ea eb))))%Z; [|lia].
      apply (aligned_le b a false false mb ma eb ea Hb Ha); [|apply Z.min_comm].
      destruct (Z.compare_spec eb ea) as [E|E|E]; try discriminate L; [|left; lia].
      right. split; [exact E|].
      change (Pos.compare_cont Eq mb ma) with (Pos.compare mb ma) in L.
      destruct (Pos.compare_spec mb ma) as [P|P|P]; try discriminate L; lia.
Qed.

(** The sum of two values that are not negative is not negative. *)
Lemma add_nonneg (u v : float) :
  (0 <=? u)%float = true -> (0 <=? v)%float = true -> (0 <=? u + v)%float = true.
Proof.
  rewrite !leb_0_spec, add_spec.
  destruct (Prim2SF u) as [[|]|[|]| |[|] mu eu]; try discriminate; intros _;
    destruct (Prim2SF v) as [[|]|[|]| |[|] mv ev]; try discriminate; intros _;
    try reflexivity.
  unfold SF64add, SFadd. cbn [cond_Zopp]. apply binary_normalize_nonneg. lia.
Qed.

(** The sum of a value that is not negative and a positive one is
    positive. *)
Lemma add_pos (u c : float) :
  (0 <=? u)%float = true -> (0 <? c)%float = true -> (0 <? u + c)%float = true.
Proof.
  rewrite leb_0_spec, !ltb_0_spec, add_spec.
  destruct (Prim2SF u) as [[|]|[|]| |[|] mu eu] eqn:Hu; try discriminate; intros _;
    destruct (Prim2SF c) as [[|]|[|]| |[|] mc ec] eqn:Hc; try discriminate; intros _;
    try reflexivity.
  unfold SF64add, SFadd. cbn [cond_Zopp].
  destruct (valid_finite u false mu eu Hu) as (Eu & _).
  destruct (valid_finite c false mc ec Hc) as (Ec & _).
  apply binary_normalize_pos; lia.
Qed.

(** A value that is not negative divided by a positive finite one is not
    negative. *)
Lemma div_nonneg (u c : float) (mc : positive) (ec : Z) :
  Prim2SF c = S754_finite false mc ec ->
  (0 <=? u)%float = true -> (0 <=? u / c)%float = true.
Proof.
  intros Hc. rewrite !leb_0_spec, div_spec, Hc.
  destruct (Prim2SF u) as [[|]|[|]| |[|] mu eu]; try discriminate; intros _;
    try reflexivity.
  unfold SF64div, SFdiv. cbn [xorb].
  destruct (SFdiv_core_binary prec emax (Zpos mu) eu (Zpos mc) ec) as [[mz ez] lz] eqn:D.
  apply binary_round_aux_nonneg.
  unfold SFdiv_core_binary in D.
  set (s := (eu - ec - Z.min (fexp prec emax (Zdigits2 (Zpos mu) + eu - (Zdigits2 (Zpos mc) + ec)))
                          (eu - ec))%Z) in D.
  set (m' := match s with Zpos _ => Z.shiftl (Zpos mu) s | Z0 => Zpos mu | Zneg _ => 0%Z end) in D.
  assert (Hm' : (0 <= m')%Z).
  { unfold m'. destruct s; try lia. apply Z.shiftl_nonneg. lia. }
  pose proof (Z_div_mod m' (Zpos mc) (eq_refl _)) as Q.
  destruct (Z.div_eucl m' (Zpos mc)) as [q r]. injection D as <- _ _.
  destruct Q as [Q R]. nia.
Qed.

(** ** Results that need no rounding *)




















End FloatMore.

(* ================================================================== *)
(** * Properties of the parser *)
(* ================================================================== *)

Module ParserFacts.
Import JS Parser JSFacts.

(** ** The loop over the lines *)

Lemma scan_nails (ls : list jstring) (st : scan) :
  s_nails (fold_left scanLine ls st) = s_nails st ++ rows_of ls.
Proof.
  revert st.
  induction ls as [|line ls IH]; intros st; simpl.
  - now rewrite app_nil_r.
  - rewrite IH. simpl.
    destruct (row_of (trim line)) as [n|]; simpl.
    + now rewrite <- app_assoc.
    + reflexivity.
Qed.

Lemma scanLines_nails (content : jstring) :
  s_nails (scanLines content) = rows_of (lines content).
Proof. unfold scanLines. now rewrite scan_nails. Qed.

Lemma row_of_accepted (t : jstring) :
  accepted_row t = true <-> exists n, row_of t = Some n.
Proof.
  unfold accepted_row, row_of. cbv zeta.
  change (x (nail_of (split_ws t))) with (parseFloat (part (split_ws t) 1)).
  change (y (nail_of (split_ws t))) with (parseFloat (part (split_ws t) 2)).
  destruct (startsWith "$" t); cbn [andb];
    [|split; [discriminate | intros [n H]; discriminate]].
  destruct (7 <=? List.length (split_ws t))%nat; cbn [andb];
    [|split; [discriminate | intros [n H]; discriminate]].
  destruct (negb (isNaN (parseFloat (part (split_ws t) 1)))); cbn [andb];
    [|split; [discriminate | intros [n H]; discriminate]].
  destruct (negb (isNaN (parseFloat (part (split_ws t) 2)))).
  - split; [eauto | reflexivity].
  - split; [discriminate | intros [n H]; discriminate].
Qed.

Lemma row_of_rejected (t : jstring) :
  accepted_row t = false <-> row_of t = None.
Proof.
  split; intros H.
  - destruct (row_of t) as [n|] eqn:E; [|reflexivity].
    assert (A : accepted_row t = true) by (apply row_of_accepted; eauto).
    congruence.
  - destruct (accepted_row t) eqn:E; [|reflexivity].
    apply row_of_accepted in E. destruct E as [n E]. congruence.
Qed.

Lemma rows_of_nil (ls : list jstring) :
  rows_of ls = [] <-> forall line, In line ls -> accepted_row (trim line) = false.
Proof.
  induction ls as [|l ls IH]; simpl.
  - split; [intros _ line [] | reflexivity].
  - split.
    + intros H line [<-|Hin].
      * apply row_of_rejected. destruct (row_of (trim l)); [discriminate | reflexivity].
      * apply IH; [|assumption].
        destruct (row_of (trim l)); [discriminate | exact H].
    + intros H.
      assert (R : row_of (trim l) = None) by (apply row_of_rejected, H; now left).
      rewrite R. simpl. apply IH. intros line Hin. apply H. now right.
Qed.

(** What [parseNailFile] does in terms of the points of the lines. *)
Lemma parse_cases (content fileName : jstring) :
  (rows_of (lines content) = [] /\ parseNailFile content fileName = Throws noDataMessage)
  \/ (rows_of (lines content) <> [] /\
      exists r, parseNailFile content fileName = Returns r
                /\ nails r = rows_of (lines content)
                /\ units (metadata r) = s_units (scanLines content)
                /\ date (metadata r) = s_date (scanLines content)).
Proof.
  unfold parseNailFile. rewrite scanLines_nails.
  destruct (rows_of (lines content)) as [|n ns] eqn:E; simpl.
  - left. split; reflexivity.
  - right. split; [discriminate|].
    eexists. split; [reflexivity|]. simpl. repeat split; reflexivity.
Qed.

Lemma parse_returns_rows (content fileName : jstring) (r : ParseResult) :
  parseNailFile content fileName = Returns r -> nails r = rows_of (lines content).
Proof.
  intros Hp.
  destruct (parse_cases content fileName) as [[_ P]|[_ (r' & P & N & _)]];
    congruence.
Qed.

(** The first piece of a split starts with the piece in progress. *)
Lemma split_ws_go_head (s : jstring) :
  forall cur, exists w rest, split_ws_go cur false s = (rev cur ++ w) :: rest.
Proof.
  induction s as [|c s IH]; intros cur; simpl.
  - exists [], []. now rewrite app_nil_r.
  - destruct (isWhiteSpace c).
    + eexists [], _. now rewrite app_nil_r.
    + destruct (IH (c :: cur)) as (w & rest & E). rewrite E. simpl.
      exists (c :: w), rest. now rewrite <- app_assoc.
Qed.

(** The id of every point is the first token of its row, [$] included. *)
Lemma row_of_id_keeps_marker (t : jstring) (n : NailData) :
  row_of t = Some n -> exists w, id n = "$"%char :: w.
Proof.
  unfold row_of. cbv zeta.
  destruct (startsWith "$" t) eqn:S; [|discriminate].
  destruct (7 <=? List.length (split_ws t))%nat; [|discriminate].
  destruct (negb (isNaN (x (nail_of (split_ws t)))) &&
            negb (isNaN (y (nail_of (split_ws t))))); [|discriminate].
  intros [= <-]. cbn [id nail_of]. unfold part.
  apply startsWith_spec in S. destruct S as [t' ->].
  change (js "$" ++ t') with ("$"%char :: t').
  unfold split_ws. cbn [split_ws_go]. change (isWhiteSpace "$") with false. cbv iota.
  destruct (split_ws_go_head t' ["$"%char]) as (w & rest & E).
  rewrite E. now exists w.
Qed.

Lemma parsed_ids_keep_marker (content fileName : jstring) (r : ParseResult) (n : NailData) :
  parseNailFile content fileName = Returns r -> In n (nails r) ->
  exists w, id n = "$"%char :: w.
Proof.
  intros Hp Hin. rewrite (parse_returns_rows content fileName r Hp) in Hin.
  unfold rows_of in Hin. apply in_flat_map in Hin. destruct Hin as (line & _ & Hn).
  destruct (row_of (trim line)) as [n'|] eqn:E; [|destruct Hn].
  destruct Hn as [<-|[]]. now apply (row_of_id_keeps_marker (trim line)).
Qed.

(** ** Scenario A *)

(** C1, as the code has it: the line of scenario A yields exactly one point,
    with x = 10.5, y = 20.25, type "TP", grid "3", side "T" (the parentheses
    stripped), netId "N100", netName "GND" and virtualPin "5"; its id is the
    whole first token, ["$A1"], marker included.  The dataset has that one
    point, no units, no date, and the bounds of the point. *)
Theorem scenarioA_parses (fileName : jstring) :
  parseNailFile scenarioA fileName =
  Returns {| nails := [scenarioA_nail];
             metadata := {| fileName := fileName; totalNails := 1;
                            units := "Unknown"; date := "" |};
             bounds := {| minX := 10.5; maxX := 10.5;
                          minY := 20.25; maxY := 20.25 |} |}.
Proof. vm_compute. reflexivity. Qed.

(** C1 as stated fails: no point of scenario A has the id ["A1"]. *)
Lemma scenarioA_id_is_not_A1 :
  ~ exists r n, parseNailFile scenarioA "board.asc" = Returns r
                /\ In n (nails r) /\ id n = js "A1".
Proof.
  intros (r & n & Hp & Hin & Hid).
  vm_compute in Hp. injection Hp as <-.
  simpl in Hin. destruct Hin as [<-|[]].
  vm_compute in Hid. discriminate Hid.
Qed.

(** ** When the parser throws *)

(** C4 as stated fails: the only line of [infinite_row] has no finite x, yet
    the parser returns a dataset, whose point has x = Infinity. *)
Lemma infinite_row_is_kept :
  existsb (fun line => finite_row (trim line)) (lines infinite_row) = false
  /\ exists r, parseNailFile infinite_row "board.asc" = Returns r
               /\ map x (nails r) = [infinity].
Proof.
  split; [vm_compute; reflexivity|].
  eexists. split; vm_compute; reflexivity.
Qed.

(** C4, as the code has it: [parseNailFile] throws exactly when no line,
    once trimmed, starts with [$], has at least 7 parts and has parts 1 and 2
    that parse to something else than NaN; it returns exactly when some line
    does, whatever the other lines are, and its points are then those of
    such lines, in order; the only error is the one whose message names the
    expected formats. *)
Theorem parse_throws_iff_no_row (content fileName : jstring) :
  (parseNailFile content fileName = Throws noDataMessage <->
   forall line, In line (lines content) -> accepted_row (trim line) = false)
  /\ ((exists r, parseNailFile content fileName = Returns r) <->
      exists line, In line (lines content) /\ accepted_row (trim line) = true)
  /\ (forall r, parseNailFile content fileName = Returns r ->
      nails r = rows_of (lines content))
  /\ (forall m, parseNailFile content fileName = Throws m -> m = noDataMessage)
  /\ includes "Tebo-ICT or compatible .asc format" noDataMessage = true.
Proof.
  assert (NE : rows_of (lines content) <> [] <->
               exists line, In line (lines content) /\ accepted_row (trim line) = true).
  { split.
    - intros H.
      destruct (existsb (fun l => accepted_row (trim l)) (lines content)) eqn:E.
      + apply existsb_exists in E. exact E.
      + exfalso. apply H, rows_of_nil. intros line Hin.
        destruct (accepted_row (trim line)) eqn:A; [|reflexivity].
        assert (X : existsb (fun l => accepted_row (trim l)) (lines content) = true)
          by (apply existsb_exists; eauto).
        congruence.
    - intros (line & Hin & A) H.
      rewrite rows_of_nil in H. specialize (H line Hin). congruence. }
  destruct (parse_cases content fileName) as [[E P]|[E (r & P & N & _)]].
  - repeat split.
    + intros _. now apply rows_of_nil.
    + intros _. exact P.
    + intros [r' H]. congruence.
    + intros H. apply NE in H. contradiction.
    + intros r' H. congruence.
    + intros m H. congruence.
  - repeat split.
    + intros H. congruence.
    + intros H. apply rows_of_nil in H. contradiction.
    + intros _. now apply NE.
    + intros _. eauto.
    + intros r' H. congruence.
    + intros m H. congruence.
Qed.


(** ** The units *)

Lemma scan_units (ls : list jstring) (st : scan) :
  s_units (fold_left scanLine ls st)
  = fold_left (fun u line => units_step (trim line) u) ls (s_units st).
Proof.
  revert st. induction ls as [|line ls IH]; intros st; simpl; [reflexivity|].
  now rewrite IH.
Qed.

Lemma units_step_imperial (t u : jstring) :
  includes "Imperial units" t = true -> units_step t u = js "Imperial".
Proof. unfold units_step. now intros ->. Qed.

Lemma units_step_silent (t u : jstring) :
  includes "Metric units" t = false -> includes "Imperial units" t = false ->
  units_step t u = u.
Proof. unfold units_step. now intros -> ->. Qed.

Lemma units_fold_silent (ls : list jstring) (u : jstring) :
  (forall l, In l ls -> includes "Metric units" (trim l) = false
                        /\ includes "Imperial units" (trim l) = false) ->
  fold_left (fun u line => units_step (trim line) u) ls u = u.
Proof.
  revert u. induction ls as [|l ls IH]; intros u H; simpl; [reflexivity|].
  destruct (H l (or_introl eq_refl)) as [M I].
  rewrite units_step_silent by assumption.
  apply IH. intros l' Hin. apply H. now right.
Qed.

(** C10: when the trimmed form of a line contains both "Metric units" and
    "Imperial units" and no later line mentions either, the dataset's units
    are "Imperial"; on such a line the units become "Imperial" whatever they
    were, the Imperial test being the second of the two. *)
Theorem imperial_wins_on_a_line
    (content fileName : jstring) (before after : list jstring) (line : jstring)
    (r : ParseResult) :
  lines content = before ++ line :: after ->
  includes "Metric units" (trim line) = true ->
  includes "Imperial units" (trim line) = true ->
  (forall l, In l after -> includes "Metric units" (trim l) = false
                           /\ includes "Imperial units" (trim l) = false) ->
  parseNailFile content fileName = Returns r ->
  units (metadata r) = js "Imperial"
  /\ forall u, units_step (trim line) u = js "Imperial".
Proof.
  intros Hl HM HI Hafter Hp.
  split; [|intros u; now apply units_step_imperial].
  destruct (parse_cases content fileName) as [[_ P]|[_ (r' & P & _ & U & _)]];
    [congruence|].
  assert (r' = r) by congruence. subst r'.
  rewrite U. unfold scanLines. rewrite scan_units, Hl, fold_left_app. simpl.
  rewrite units_fold_silent by assumption.
  now apply units_step_imperial.
Qed.

Lemma imperial_wins_on_a_line_witness :
  units_of_outcome (parseNailFile both_units "board.asc") = Some (js "Imperial").
Proof.
  destruct (parseNailFile both_units "board.asc") as [r|m] eqn:E;
    [|vm_compute in E; discriminate E].
  simpl. f_equal.
  refine (proj1 (imperial_wins_on_a_line both_units "board.asc" []
                   [js "$A1 10.5 20.25 TP 3 (T) N100 GND"]
                   "Metric units, formerly Imperial units" r _ _ _ _ E)).
  - vm_compute. reflexivity.
  - vm_compute. reflexivity.
  - vm_compute. reflexivity.
  - intros l [<-|[]]. split; vm_compute; reflexivity.
Defined.

(** ** The date *)

(** A matcher that succeeds with a continuation succeeds with any
    continuation that succeeds wherever the first one does. *)
Lemma or_else_mono (a b a' b' : mresult) :
  (a <> None -> a' <> None) -> (b <> None -> b' <> None) ->
  or_else a b <> None -> or_else a' b' <> None.
Proof.
  unfold or_else. intros Ha Hb.
  destruct a as [x|].
  - intros _. destruct a'; [congruence|]. exfalso. now apply Ha.
  - intros H. destruct a'; [congruence|]. now apply Hb.
Qed.

Lemma quant_mono (greedy : bool) (p : ascii -> bool) (k k' : cont) (cap : capture) :
  (forall pos rest, k pos rest cap <> None -> k' pos rest cap <> None) ->
  forall rest lo hi pos,
    quant greedy p k cap lo hi pos rest <> None ->
    quant greedy p k' cap lo hi pos rest <> None.
Proof.
  intros Hk. induction rest as [|c rest IH]; intros lo hi pos.
  - simpl. destruct lo; [|congruence].
    destruct greedy; apply or_else_mono; auto.
  - simpl. destruct (p c && bound_open hi).
    + destruct lo; [|apply IH].
      destruct greedy; apply or_else_mono; auto.
    + destruct lo; [|congruence].
      destruct greedy; apply or_else_mono; auto.
Qed.

Lemma rmatch_mono (r : regex) :
  forall (k k' : cont),
    (forall pos rest cap, k pos rest cap <> None -> k' pos rest cap <> None) ->
    forall pos rest cap,
      rmatch r pos rest cap k <> None -> rmatch r pos rest cap k' <> None.
Proof.
  induction r as [| |p|greedy lo hi p|r1 IH1|r1 IH1 r2 IH2]; intros k k' Hk pos rest cap; simpl.
  - apply Hk.
  - destruct (pos =? 0)%nat; [apply Hk | congruence].
  - destruct rest as [|c rest]; [congruence|].
    destruct (p c); [apply Hk | congruence].
  - apply quant_mono. intros pos' rest'. apply Hk.
  - apply IH1. intros pos' rest' _. apply Hk.
  - apply IH1. intros pos' rest' cap'. now apply IH2.
Qed.

(** Where a sequence of atoms matches, so does any prefix of the sequence. *)
Lemma rseq_prefix_matches (l1 l2 : list regex) :
  forall (k : cont) pos rest cap,
    rmatch (rseq (l1 ++ l2)) pos rest cap k <> None ->
    rmatch (rseq l1) pos rest cap accept <> None.
Proof.
  induction l1 as [|a l1 IH]; intros k pos rest cap; simpl.
  - intros _. unfold accept. congruence.
  - apply rmatch_mono. intros pos' rest' cap'. apply IH.
Qed.

Lemma search_prefix_matches (l1 l2 : list regex) (rest : jstring) :
  forall pos,
    search_from (rseq (l1 ++ l2)) pos rest <> None ->
    search_from (rseq l1) pos rest <> None.
Proof.
  induction rest as [|c rest IH]; intros pos; simpl.
  - destruct (rmatch (rseq (l1 ++ l2)) pos [] None accept) as [[e cap]|] eqn:M;
      [|congruence].
    intros _.
    assert (M' : rmatch (rseq l1) pos [] None accept <> None)
      by (apply (rseq_prefix_matches l1 l2 accept); congruence).
    destruct (rmatch (rseq l1) pos [] None accept) as [[e' cap']|]; congruence.
  - destruct (rmatch (rseq (l1 ++ l2)) pos (c :: rest) None accept) as [[e cap]|] eqn:M.
    + intros _.
      assert (M' : rmatch (rseq l1) pos (c :: rest) None accept <> None)
        by (apply (rseq_prefix_matches l1 l2 accept); congruence).
      destruct (rmatch (rseq l1) pos (c :: rest) None accept) as [[e' cap']|]; congruence.
    + intros H. apply IH in H.
      destruct (rmatch (rseq l1) pos (c :: rest) None accept) as [[e' cap']|];
        [congruence | exact H].
Qed.

(** The test of line 17 never hides a match of line 18. *)
Lemma dateGuard_redundant (t m : jstring) :
  match0 datePattern t = Some m -> test dateGuard t = true.
Proof.
  unfold match0, test, exec, datePattern, dateGuard. intros H.
  assert (S : search_from (rseq dateGuardAtoms) 0 t <> None).
  { apply (search_prefix_matches dateGuardAtoms
             ([plus isWhiteSpace; exactly 2 isDigit] ++ rlit ":" ++ [exactly 2 isDigit])).
    intros E. rewrite E in H. discriminate H. }
  destruct (search_from (rseq dateGuardAtoms) 0 t); congruence.
Qed.

Lemma date_step_match (t d : jstring) :
  date_step t d = match match0 datePattern t with Some m => m | None => d end.
Proof.
  unfold date_step.
  destruct (match0 datePattern t) as [m|] eqn:M.
  - now rewrite (dateGuard_redundant t m M).
  - now destruct (test dateGuard t).
Qed.

Lemma scan_date (ls : list jstring) (st : scan) :
  s_date (fold_left scanLine ls st)
  = fold_left (fun d line => date_step (trim line) d) ls (s_date st).
Proof.
  revert st. induction ls as [|line ls IH]; intros st; simpl; [reflexivity|].
  now rewrite IH.
Qed.

Lemma last_cons {A : Type} (l : list A) :
  forall (a d : A), last (a :: l) d = last l a.
Proof.
  induction l as [|b l IH]; intros a d; [reflexivity|].
  change (last (a :: b :: l) d) with (last (b :: l) d).
  now rewrite !IH.
Qed.

Lemma date_fold (ls : list jstring) (d : jstring) :
  fold_left (fun d line => date_step (trim line) d) ls d = last (date_matches ls) d.
Proof.
  revert d. induction ls as [|line ls IH]; intros d; simpl; [reflexivity|].
  rewrite IH, date_step_match.
  destruct (match0 datePattern (trim line)) as [m|]; simpl.
  - symmetry. apply last_cons.
  - reflexivity.
Qed.

(** C6: the date of a dataset is the full match of the date pattern on the
    last line that has one, and the empty string when no line has one. *)
Theorem date_is_last_match (content fileName : jstring) (r : ParseResult) :
  parseNailFile content fileName = Returns r ->
  date (metadata r) = last (date_matches (lines content)) (js "").
Proof.
  intros Hp.
  destruct (parse_cases content fileName) as [[_ P]|[_ (r' & P & _ & _ & D)]];
    [congruence|].
  assert (r' = r) by congruence. subst r'.
  rewrite D. unfold scanLines. rewrite scan_date. apply date_fold.
Qed.

Lemma date_is_last_match_witness :
  date_of_outcome (parseNailFile two_dates "board.asc") = Some (js "7-March-2024 16:45")
  /\ date_matches (lines two_dates) = [js "12-Feb-2024 09:30"; js "7-March-2024 16:45"].
Proof.
  split; [|vm_compute; reflexivity].
  destruct (parseNailFile two_dates "board.asc") as [r|m] eqn:E;
    [|vm_compute in E; discriminate E].
  simpl. f_equal.
  rewrite (date_is_last_match two_dates "board.asc" r E).
  vm_compute. reflexivity.
Defined.


(** ** The virtual pin *)

(** C5 as stated fails: the tail of [two_markers] contains "T PIN", and the
    virtual pin is "5", which is neither what follows the first marker,
    "5 T PIN 6", nor what follows the last one, "6". *)
Lemma second_marker_cuts_virtualPin :
  exists n, row_of two_markers = Some n
            /\ remaining_of (split_ws two_markers) = js "GND T PIN 5 T PIN 6"
            /\ includes "T PIN" (remaining_of (split_ws two_markers)) = true
            /\ virtualPin n = js "5"
            /\ trim (after_marker "T PIN" (remaining_of (split_ws two_markers)))
               = js "5 T PIN 6".
Proof. exists two_markers_nail. repeat split; vm_compute; reflexivity. Qed.

Lemma virtualPin_of_cases (tail : jstring) :
  virtualPin_of tail =
  match indexOf "T PIN" tail with
  | None => js ""
  | Some i =>
      let after := skipn (i + 5) tail in
      trim (match indexOf "T PIN" after with
            | Some j => firstn j after
            | None => after
            end)
  end.
Proof.
  unfold virtualPin_of. rewrite includes_indexOf.
  destruct (indexOf "T PIN" tail) as [i|] eqn:I; [|reflexivity].
  rewrite (split_second "T PIN" tail i) by (assumption || discriminate).
  reflexivity.
Qed.

Lemma row_of_virtualPin (t : jstring) (n : NailData) :
  row_of t = Some n -> virtualPin n = virtualPin_of (remaining_of (split_ws t)).
Proof.
  unfold row_of. cbv zeta.
  destruct (startsWith "$" t); [|discriminate].
  destruct (7 <=? List.length (split_ws t))%nat; [|discriminate].
  destruct (negb (isNaN (x (nail_of (split_ws t)))) &&
            negb (isNaN (y (nail_of (split_ws t))))); [|discriminate].
  now intros [= <-].
Qed.

(** C5, as the code has it: for an accepted row whose tail does not contain
    "T PIN" the virtual pin is empty; for one whose tail contains it, the
    virtual pin is the trimmed text between the first "T PIN" and the next
    one, and everything after the first "T PIN", trimmed, when there is no
    next one. *)
Theorem virtualPin_between_markers (t : jstring) (n : NailData) :
  row_of t = Some n ->
  let tail := remaining_of (split_ws t) in
  (includes "T PIN" tail = false -> virtualPin n = js "")
  /\ (includes "T PIN" tail = true ->
      exists i, indexOf "T PIN" tail = Some i
        /\ let after := skipn (i + 5) tail in
           (includes "T PIN" after = false -> virtualPin n = trim after)
           /\ (forall j, indexOf "T PIN" after = Some j ->
                         virtualPin n = trim (firstn j after))).
Proof.
  intros Hrow tail.
  rewrite (row_of_virtualPin t n Hrow). fold tail.
  rewrite virtualPin_of_cases, includes_indexOf.
  destruct (indexOf "T PIN" tail) as [i|] eqn:I.
  - split; [discriminate|]. intros _. exists i. split; [reflexivity|].
    cbv zeta. rewrite includes_indexOf.
    destruct (indexOf "T PIN" (skipn (i + 5) tail)) as [j|] eqn:J.
    + split; [discriminate|]. now intros j' [= <-].
    + split; [reflexivity | discriminate].
  - split; [reflexivity | discriminate].
Qed.

Lemma virtualPin_between_markers_witness :
  virtualPin scenarioA_nail = js "5"
  /\ virtualPin two_markers_nail = js "5".
Proof.
  split.
  - destruct (virtualPin_between_markers scenarioA scenarioA_nail) as [_ H];
      [vm_compute; reflexivity|].
    destruct H as (i & Hi & Honce & _); [vm_compute; reflexivity|].
    assert (i = 4%nat) by (vm_compute in Hi; congruence). subst i.
    rewrite Honce by (vm_compute; reflexivity).
    vm_compute. reflexivity.
  - destruct (virtualPin_between_markers two_markers two_markers_nail) as [_ H];
      [vm_compute; reflexivity|].
    destruct H as (i & Hi & _ & Hnext); [vm_compute; reflexivity|].
    assert (i = 4%nat) by (vm_compute in Hi; congruence). subst i.
    rewrite (Hnext 3%nat) by (vm_compute; reflexivity).
    vm_compute. reflexivity.
Defined.


(** ** The bounds *)

Lemma row_of_numbers (t : jstring) (n : NailData) :
  row_of t = Some n -> isNaN (x n) = false /\ isNaN (y n) = false.
Proof.
  unfold row_of. cbv zeta.
  destruct (startsWith "$" t); [|discriminate].
  destruct (7 <=? List.length (split_ws t))%nat; [|discriminate].
  destruct (negb (isNaN (x (nail_of (split_ws t)))) &&
            negb (isNaN (y (nail_of (split_ws t))))) eqn:E; [|discriminate].
  intros [= <-]. apply andb_true_iff in E. destruct E as [Ex Ey].
  now rewrite negb_true_iff in Ex, Ey.
Qed.

Lemma rows_of_numbers (ls : list jstring) (n : NailData) :
  In n (rows_of ls) -> isNaN (x n) = false /\ isNaN (y n) = false.
Proof.
  unfold rows_of. rewrite in_flat_map. intros (line & _ & Hn).
  destruct (row_of (trim line)) as [n'|] eqn:E; [|destruct Hn].
  destruct Hn as [<-|[]]. now apply (row_of_numbers (trim line)).
Qed.

Lemma parse_bounds (content fileName : jstring) (r : ParseResult) :
  parseNailFile content fileName = Returns r ->
  nails r <> []
  /\ bounds r = {| minX := Math_min (map x (nails r));
                   maxX := Math_max (map x (nails r));
                   minY := Math_min (map y (nails r));
                   maxY := Math_max (map y (nails r)) |}.
Proof.
  unfold parseNailFile.
  destruct (s_nails (scanLines content)) as [|n ns]; simpl; [discriminate|].
  intros [= <-]. simpl. split; [discriminate | reflexivity].
Qed.

(** C8: in a dataset the parser returns, every point lies within the bounds
    on both axes, and the lower bounds are at most the upper ones. *)
Theorem bounds_enclose_points (content fileName : jstring) (r : ParseResult) :
  parseNailFile content fileName = Returns r ->
  (forall p, In p (nails r) ->
     (minX (bounds r) <=? x p)%float = true /\ (x p <=? maxX (bounds r))%float = true
     /\ (minY (bounds r) <=? y p)%float = true /\ (y p <=? maxY (bounds r))%float = true)
  /\ (minX (bounds r) <=? maxX (bounds r))%float = true
  /\ (minY (bounds r) <=? maxY (bounds r))%float = true.
Proof.
  intros Hp.
  destruct (parse_bounds content fileName r Hp) as [Hne Hb].
  assert (Hn : nails r = rows_of (lines content))
    by (now apply (parse_returns_rows content fileName)).
  assert (Nx : forall w, In w (map x (nails r)) -> isNaN w = false).
  { intros w Hw. apply in_map_iff in Hw. destruct Hw as (p & <- & Hin).
    rewrite Hn in Hin. now apply rows_of_numbers in Hin. }
  assert (Ny : forall w, In w (map y (nails r)) -> isNaN w = false).
  { intros w Hw. apply in_map_iff in Hw. destruct Hw as (p & <- & Hin).
    rewrite Hn in Hin. now apply rows_of_numbers in Hin. }
  assert (All : forall p, In p (nails r) ->
     (minX (bounds r) <=? x p)%float = true /\ (x p <=? maxX (bounds r))%float = true
     /\ (minY (bounds r) <=? y p)%float = true /\ (y p <=? maxY (bounds r))%float = true).
  { intros p Hin. rewrite Hb. cbn [minX maxX minY maxY].
    repeat split.
    - apply Math_min_below; [assumption | now apply in_map].
    - apply Math_max_above; [assumption | now apply in_map].
    - apply Math_min_below; [assumption | now apply in_map].
    - apply Math_max_above; [assumption | now apply in_map]. }
  split; [exact All|].
  destruct (nails r) as [|p ps] eqn:E; [congruence|].
  destruct (All p (or_introl eq_refl)) as (X1 & X2 & Y1 & Y2).
  split; [now apply (leb_trans _ (x p)) | now apply (leb_trans _ (y p))].
Qed.

Lemma bounds_enclose_points_witness :
  exists r, parseNailFile three_points "board.asc" = Returns r
    /\ bounds r = {| minX := -3.5; maxX := 12; minY := -0; maxY := 40.25 |}
    /\ (minX (bounds r) <=? maxX (bounds r))%float = true.
Proof.
  destruct (parseNailFile three_points "board.asc") as [r|m] eqn:E;
    [|vm_compute in E; discriminate E].
  exists r. split; [reflexivity|]. split.
  - vm_compute in E. injection E as <-. reflexivity.
  - exact (proj1 (proj2 (bounds_enclose_points three_points "board.asc" r E))).
Defined.

End ParserFacts.

(* ================================================================== *)
(** * Properties of the viewport *)
(* ================================================================== *)

Module PinMapFacts.
Import JS Parser PinMap JSFacts Signs FloatMore.

(** ** The range of the zoom *)

(** C2 fails on the code: the two step buttons multiply the zoom and do not
    clamp it.  From the initial zoom 1, twelve clicks on the plus button give
    1.5^12 = 129.746337890625, above 100; nine clicks on the minus button
    give a zoom below 0.05; one click on plus at zoom 100 gives 150. *)
Theorem step_buttons_leave_range (data : ParseResult) :
  inRange (zoom initial) = true
  /\ zoom (run data (repeat ZoomInClick 12)) = 129.746337890625%float
  /\ inRange (zoom (run data (repeat ZoomInClick 12))) = false
  /\ zoom (run data (repeat ZoomOutClick 9)) = 0.040353606999999979%float
  /\ inRange (zoom (run data (repeat ZoomOutClick 9))) = false
  /\ zoom (handle data (setZoom (fun _ => 100%float) initial) ZoomInClick) = 150%float.
Proof. repeat split; vm_compute; reflexivity. Qed.

(** The path that does clamp: whatever the wheel event, [handleWheel] takes
    a zoom of the range to a zoom of the range. *)
Lemma inRange_finite (z : float) :
  inRange z = true -> exists m e, Prim2SF z = S754_finite false m e.
Proof.
  unfold inRange. rewrite andb_true_iff. intros [L H].
  eapply (between_finite 0.05 100); [vm_compute; reflexivity | vm_compute; reflexivity | eassumption..].
Qed.

Lemma handleWheel_keeps_range (deltaY : float) (v : view) :
  inRange (zoom v) = true -> inRange (zoom (handleWheel deltaY v)) = true.
Proof.
  intros Hr. destruct (inRange_finite _ Hr) as (m & e & Hz).
  unfold handleWheel. cbn [setZoom zoom].
  set (f := if (0 <? deltaY)%float then 0.9%float else 1.1%float).
  assert (Hf : exists mf ef, Prim2SF f = S754_finite false mf ef)
    by (unfold f; destruct (0 <? deltaY)%float; eexists; eexists; vm_compute; reflexivity).
  destruct Hf as (mf & ef & Hf).
  assert (N : isNaN (zoom v * f)%float = false)
    by (eapply mul_finite_is_number; eassumption).
  destruct (Math_max2_spec (zoom v * f)%float 0.05%float N eq_refl) as (N1 & _ & Lo & _).
  destruct (Math_min2_spec (Math_max [(zoom v * f)%float; 0.05%float]) 100%float N1 eq_refl)
    as (_ & _ & Hi & [E|E]).
  - unfold inRange. rewrite Hi, andb_true_r. now rewrite E.
  - rewrite E. reflexivity.
Qed.

(** Focusing keeps the zoom in the range too. *)
Lemma focusOn_keeps_range (data : ParseResult) (a : option jstring) (v : view) :
  inRange (zoom v) = true -> inRange (zoom (focusOn data a v)) = true.
Proof.
  intros Hr. unfold focusOn.
  destruct a as [pinId|]; [|exact Hr].
  destruct (truthy pinId); [|exact Hr].
  destruct (findPin data pinId) as [pin|]; [|exact Hr].
  cbn [setOffset setZoom zoom].
  destruct (inRange_finite _ Hr) as (m & e & Hz).
  assert (N : isNaN (zoom v) = false) by (now rewrite isNaN_spec, Hz).
  destruct (Math_max2_spec (zoom v) 10%float N eq_refl) as (_ & _ & _ & [E|E]);
    rewrite E; [exact Hr | reflexivity].
Qed.

(** Every event but a click on a step button keeps the zoom in the range. *)
Lemma handle_keeps_range (data : ParseResult) (v : view) (e : event) :
  clamped_event e = true ->
  inRange (zoom v) = true -> inRange (zoom (handle data v e)) = true.
Proof.
  destruct e as [deltaY| | | |b cx cy|cx cy| |a]; intros He Hr; try discriminate He; cbn [handle].
  - now apply handleWheel_keeps_range.
  - reflexivity.
  - unfold handleMouseDown. now destruct (b =? 0)%Z.
  - unfold handleMouseMove. now destruct (isDragging v).
  - exact Hr.
  - now apply focusOn_keeps_range.
Qed.

Lemma run_keeps_range (data : ParseResult) (es : list event) :
  forallb clamped_event es = true -> inRange (zoom (run data es)) = true.
Proof.
  unfold run.
  assert (G : forall v, inRange (zoom v) = true -> forallb clamped_event es = true ->
                        inRange (zoom (fold_left (handle data) es v)) = true).
  { induction es as [|e es IH]; intros v Hv Hes; simpl; [exact Hv|].
    simpl in Hes. apply andb_true_iff in Hes. destruct Hes as [He Hes].
    apply IH; [|exact Hes]. now apply handle_keeps_range. }
  apply G. reflexivity.
Qed.

(** ** Focusing *)

Lemma Math_max_nan (a b : float) : isNaN a = true -> Math_max [a; b] = nan.
Proof.
  intros H. unfold Math_max. simpl. unfold max_step at 2.
  rewrite H, orb_true_r. reflexivity.
Qed.








End PinMapFacts.

(* ================================================================== *)
(** * Properties of the search controller *)
(* ================================================================== *)

Module AppFacts.
Import JS Parser App JSFacts.

(** ** Searching *)

Lemma trimStart_blank (s : jstring) : blank (trimStart s) = blank s.
Proof.
  unfold blank. induction s as [|c s IH]; [reflexivity|].
  simpl. destruct (isWhiteSpace c) eqn:W; [exact IH|].
  simpl. now rewrite W.
Qed.

Lemma trimStart_nil (s : jstring) : trimStart s = [] <-> blank s = true.
Proof.
  unfold blank. induction s as [|c s IH]; simpl.
  - split; reflexivity.
  - destruct (isWhiteSpace c); simpl; [exact IH|].
    split; discriminate.
Qed.

Lemma blank_rev (s : jstring) : blank (rev s) = blank s.
Proof.
  unfold blank.
  destruct (forallb isWhiteSpace s) eqn:E.
  - rewrite forallb_forall in *. intros c Hc. apply E. now apply in_rev.
  - destruct (forallb isWhiteSpace (rev s)) eqn:F; [|reflexivity].
    rewrite <- E. symmetry. rewrite forallb_forall in *.
    intros c Hc. apply F. now apply in_rev in Hc.
Qed.

Lemma trim_nil (s : jstring) : trim s = [] <-> blank s = true.
Proof.
  unfold trim, trimEnd.
  rewrite <- (trimStart_blank s), <- (blank_rev (trimStart s)), <- trimStart_nil.
  split.
  - intros H. apply (f_equal (@rev ascii)) in H. now rewrite rev_involutive in H.
  - now intros ->.
Qed.

Lemma truthy_trim (s : jstring) : truthy (trim s) = negb (blank s).
Proof.
  destruct (blank s) eqn:B.
  - apply trim_nil in B. now rewrite B.
  - destruct (trim s) eqn:T; [|reflexivity].
    apply trim_nil in T. congruence.
Qed.

(** ** Letters up to case *)






(** ** Cycling *)

Lemma filteredResults_ext (st st' : state) :
  data st' = data st -> searchQuery st' = searchQuery st ->
  searchMode st' = searchMode st ->
  filteredResults st' = filteredResults st.
Proof. unfold filteredResults. now intros -> -> ->. Qed.

(** One cycle command with matches: the index moves on by one, modulo the
    number of matches, and the id of the match there becomes the focus. *)
Lemma cycle_step (st : state) :
  let results := filteredResults st in
  let m := Z.of_nat (List.length results) in
  (0 < m)%Z -> (-1 <= activeResultIndex st < m)%Z ->
  let j := ((activeResultIndex st + 1) mod m)%Z in
  activeResultIndex (cycle st) = j
  /\ (exists n, nth_error results (Z.to_nat j) = Some n
                /\ activePinId (cycle st) = Some (id n))
  /\ filteredResults (cycle st) = results.
Proof.
  intros results m Hm Hi j.
  assert (R : Z.rem (activeResultIndex st + 1) m = j)
    by (apply Z.rem_mod_nonneg; lia).
  assert (Hj : (0 <= j < m)%Z) by (apply Z.mod_pos_bound; lia).
  destruct (nth_error results (Z.to_nat j)) as [n|] eqn:N.
  2:{ apply nth_error_None in N. unfold m in Hj. lia. }
  assert (C : cycle st = setActivePinId (Some (id n)) (setActiveResultIndex j st)).
  { unfold cycle, handleSearchKeyDown. cbn [jstring_eqb js list_ascii_of_string Ascii.eqb Bool.eqb andb].
    fold results. fold m.
    assert (L : (0 <? m)%Z = true) by (apply Z.ltb_lt; lia).
    rewrite L, R. unfold at_index.
    assert (L' : (j <? 0)%Z = false) by (apply Z.ltb_ge; lia).
    now rewrite L', N. }
  rewrite C. repeat split.
  exists n. split; reflexivity.
Qed.

Lemma cycles_index (st : state) (k : nat) :
  let results := filteredResults st in
  let m := Z.of_nat (List.length results) in
  (0 < m)%Z -> activeResultIndex st = (-1)%Z ->
  activeResultIndex (cycles (S k) st) = (Z.of_nat k mod m)%Z
  /\ (exists n, nth_error results (Z.to_nat (Z.of_nat k mod m)) = Some n
                /\ activePinId (cycles (S k) st) = Some (id n))
  /\ filteredResults (cycles (S k) st) = results.
Proof.
  intros results m Hm Hi.
  induction k as [|k IH].
  - change (cycles 1 st) with (cycle st).
    destruct (cycle_step st) as (I & F & R); [exact Hm | rewrite Hi; lia |].
    fold results m in I, F, R. rewrite Hi in I, F.
    replace (-1 + 1)%Z with 0%Z in I, F by lia.
    now rewrite I.
  - destruct IH as (I & _ & R).
    change (cycles (S (S k)) st) with (cycle (cycles (S k) st)).
    destruct (cycle_step (cycles (S k) st)) as (I' & F' & R').
    + rewrite R. exact Hm.
    + rewrite R, I. fold results m.
      pose proof (Z.mod_pos_bound (Z.of_nat k) m Hm). lia.
    + rewrite R in I', F', R'. fold results m in I', F', R'. rewrite I in I', F'.
      assert (E : ((Z.of_nat k mod m + 1) mod m = Z.of_nat (S k) mod m)%Z).
      { rewrite Zplus_mod_idemp_l. f_equal. lia. }
      rewrite E in I', F'. now rewrite I'.
Qed.

(** C7: from an index of -1, which every change of the query text or of the
    mode restores, [k] cycle commands against [m > 0] matches leave the
    index at [(k - 1) mod m] and make the id of the match at that index the
    focus; a cycle command against no match changes nothing. *)
Theorem cycling_selects_k_minus_1_mod_m (st : state) (k : nat) :
  let results := filteredResults st in
  let m := Z.of_nat (List.length results) in
  (0 < m)%Z -> activeResultIndex st = (-1)%Z -> (1 <= k)%nat ->
  activeResultIndex (cycles k st) = ((Z.of_nat k - 1) mod m)%Z
  /\ (exists n, nth_error results (Z.to_nat ((Z.of_nat k - 1) mod m)) = Some n
                /\ activePinId (cycles k st) = Some (id n))
  /\ (forall st0, filteredResults st0 = [] -> cycle st0 = st0)
  /\ (forall q st0, q <> searchQuery st0 ->
        activeResultIndex (changeQuery q st0) = (-1)%Z)
  /\ (forall mode st0, mode <> searchMode st0 ->
        activeResultIndex (changeMode mode st0) = (-1)%Z).
Proof.
  intros results m Hm Hi Hk.
  destruct k as [|k]; [lia|].
  destruct (cycles_index st k Hm Hi) as (I & F & _).
  replace (Z.of_nat (S k) - 1)%Z with (Z.of_nat k) by lia.
  split; [exact I|]. split; [exact F|].
  split; [|split].
  - intros st0 H0. unfold cycle, handleSearchKeyDown.
    cbn [jstring_eqb js list_ascii_of_string Ascii.eqb Bool.eqb andb].
    now rewrite H0.
  - intros q st0 Hq. unfold changeQuery.
    destruct (jstring_eqb q (searchQuery st0)) eqn:E; [|reflexivity].
    exfalso. apply Hq. clear - E.
    revert E. generalize (searchQuery st0). induction q as [|c q IH]; intros [|c' s]; simpl;
      try discriminate; [reflexivity|].
    rewrite andb_true_iff, Ascii.eqb_eq. intros [-> H]. f_equal. now apply IH.
  - intros mode st0 Hmode. unfold changeMode.
    destruct mode, (searchMode st0); simpl; congruence.
Qed.

Lemma cycling_selects_k_minus_1_mod_m_witness :
  activeResultIndex (cycles 5 (searching scenarioD "p" nail)) = 1%Z.
Proof.
  destruct (cycling_selects_k_minus_1_mod_m (searching scenarioD "p" nail) 5)
    as (I & _); [vm_compute; reflexivity | reflexivity | lia |].
  rewrite I. vm_compute. reflexivity.
Defined.

End AppFacts.

(* ================================================================== *)
(** * Further properties of the parser *)
(* ================================================================== *)

Module ParserMore.
Import JS Parser JSFacts ParserFacts Notions Signs FloatMore.

(** ** What the matcher matches *)

Lemma or_else_Some (a b : mresult) (res : nat * capture) :
  or_else a b = Some res -> a = Some res \/ b = Some res.
Proof. unfold or_else. destruct a; intros H; [left | right]; assumption. Qed.

Lemma quant_sound (greedy : bool) (p : ascii -> bool) (k : cont) (cap : capture)
    (res : nat * capture) :
  forall rest lo hi pos,
    quant greedy p k cap lo hi pos rest = Some res ->
    exists s rest',
      rest = s ++ rest' /\ forallb p s = true /\ (lo <= List.length s)%nat
      /\ match hi with Some h => (List.length s <= h)%nat | None => True end
      /\ k (pos + List.length s)%nat rest' cap = Some res.
Proof.
  assert (Stop : forall rest hi pos, k pos rest cap = Some res ->
            exists s rest',
              rest = s ++ rest' /\ forallb p s = true /\ (0 <= List.length s)%nat
              /\ match hi with Some h => (List.length s <= h)%nat | None => True end
              /\ k (pos + List.length s)%nat rest' cap = Some res).
  { intros rest hi pos H. exists [], rest. simpl. rewrite Nat.add_0_r.
    repeat split; try assumption; try lia. destruct hi; [lia | exact I]. }
  induction rest as [|c rest IH]; intros lo hi pos.
  - simpl. destruct lo; [|discriminate].
    intros H. apply Stop.
    destruct greedy; apply or_else_Some in H; destruct H as [H|H];
      try discriminate H; exact H.
  - simpl.
    assert (More : (if p c && bound_open hi
                    then quant greedy p k cap (Nat.pred lo) (dec_bound hi) (S pos) rest
                    else None) = Some res ->
            exists s rest',
              c :: rest = s ++ rest' /\ forallb p s = true /\ (lo <= List.length s)%nat
              /\ match hi with Some h => (List.length s <= h)%nat | None => True end
              /\ k (pos + List.length s)%nat rest' cap = Some res).
    { destruct (p c) eqn:Pc; [|discriminate]. cbn [andb].
      destruct (bound_open hi) eqn:B; [|discriminate].
      intros H. apply IH in H. destruct H as (s & rest' & -> & Fs & Hlo & Hhi & Hk).
      exists (c :: s), rest'. simpl. rewrite Pc, Fs.
      replace (pos + S (List.length s))%nat with (S pos + List.length s)%nat by lia.
      repeat split; try assumption; try lia.
      destruct hi as [[|h]|]; simpl in *; try discriminate; try lia; exact I. }
    destruct lo as [|lo]; [|exact More].
    intros H.
    destruct greedy; apply or_else_Some in H; destruct H as [H|H];
      try (now apply More); now apply Stop.
Qed.

Lemma rmatch_sound (r : regex) :
  forall (k : cont) pos rest cap res,
    rmatch r pos rest cap k = Some res ->
    exists s rest' cap',
      rest = s ++ rest' /\ lang r s
      /\ k (pos + List.length s)%nat rest' cap' = Some res
      /\ (group_free r = true -> cap' = cap).
Proof.
  induction r as [| |p|greedy lo hi p|r1 IH1|r1 IH1 r2 IH2];
    intros k pos rest cap res; simpl.
  - intros H. exists [], rest, cap. simpl. rewrite Nat.add_0_r. auto.
  - destruct (pos =? 0)%nat; [|discriminate].
    intros H. exists [], rest, cap. simpl. rewrite Nat.add_0_r. auto.
  - destruct rest as [|c rest]; [discriminate|].
    destruct (p c) eqn:Pc; [|discriminate].
    intros H. exists [c], rest, cap. simpl.
    replace (pos + 1)%nat with (S pos) by lia. repeat split; eauto.
  - intros H. apply quant_sound in H.
    destruct H as (s & rest' & -> & Fs & Hlo & Hhi & Hk).
    exists s, rest', cap. auto.
  - intros H. apply IH1 in H. destruct H as (s & rest' & cap' & -> & L & Hk & _).
    exists s, rest', (Some (pos, (pos + List.length s)%nat)).
    repeat split; try assumption. discriminate.
  - intros H. apply IH1 in H. destruct H as (s1 & rest1 & cap1 & -> & L1 & Hk & G1).
    apply IH2 in Hk. destruct Hk as (s2 & rest2 & cap2 & -> & L2 & Hk & G2).
    exists (s1 ++ s2), rest2, cap2. rewrite length_app, Nat.add_assoc, <- app_assoc.
    repeat split; try assumption.
    + now exists s1, s2.
    + intros G. apply andb_true_iff in G. destruct G as [Ga Gb].
      rewrite (G2 Gb). now apply G1.
Qed.

Lemma search_from_sound (r : regex) (rest : jstring) :
  forall pos b e cap,
    search_from r pos rest = Some (b, e, cap) ->
    exists pre s post,
      rest = pre ++ s ++ post /\ lang r s
      /\ b = (pos + List.length pre)%nat /\ e = (b + List.length s)%nat.
Proof.
  induction rest as [|c rest IH]; intros pos b e cap; simpl.
  - destruct (rmatch r pos [] None accept) as [[e' cap']|] eqn:M; [|discriminate].
    intros [= <- <- <-]. apply rmatch_sound in M.
    destruct M as (s & rest' & cap'' & E & L & A & _).
    unfold accept in A. injection A as <- _.
    exists [], s, rest'. simpl. rewrite Nat.add_0_r. auto.
  - destruct (rmatch r pos (c :: rest) None accept) as [[e' cap']|] eqn:M.
    + intros [= <- <- <-]. apply rmatch_sound in M.
      destruct M as (s & rest' & cap'' & E & L & A & _).
      unfold accept in A. injection A as <- _.
      exists [], s, rest'. simpl. rewrite Nat.add_0_r. auto.
    + intros H. apply IH in H. destruct H as (pre & s & post & -> & L & -> & ->).
      exists (c :: pre), s, post. simpl. repeat split; try assumption; lia.
Qed.

(** A match is a piece of the string, and one the pattern can consume. *)
Lemma match0_sound (r : regex) (s m : jstring) :
  match0 r s = Some m -> lang r m /\ exists pre post, s = pre ++ m ++ post.
Proof.
  unfold match0, exec.
  destruct (search_from r 0 s) as [[[b e] cap]|] eqn:S; [|discriminate].
  intros [= <-]. apply search_from_sound in S.
  destruct S as (pre & w & post & -> & L & -> & ->).
  unfold substring. simpl.
  replace (List.length pre + List.length w - List.length pre)%nat
    with (List.length w) by lia.
  rewrite skipn_app, skipn_all, Nat.sub_diag. simpl.
  rewrite firstn_app, firstn_all, Nat.sub_diag. simpl. rewrite app_nil_r.
  split; [exact L | now exists pre, post].
Qed.

Lemma lang_class_char (a : ascii) (s : jstring) :
  lang (RClass (isChar a)) s -> s = [a].
Proof.
  intros (c & -> & H). unfold isChar in H. apply Ascii.eqb_eq in H. now subst.
Qed.

Lemma datePattern_shape (m : jstring) : lang datePattern m -> date_shaped m.
Proof.
  unfold datePattern, dateGuardAtoms.
  cbn -[isChar isDigit isWord isWhiteSpace].
  intros (day & r1 & -> & (Fd & Ld1 & Ld2) &
          d1 & r2 & -> & D1 &
          month & r3 & -> & (Fm & Lm & _) &
          d2 & r4 & -> & D2 &
          year & r5 & -> & (Fy & Ly1 & Ly2) &
          gap & r6 & -> & (Fg & Lg & _) &
          hh & r7 & -> & (Fh & Lh1 & Lh2) &
          col & r8 & -> & C &
          mm & r9 & -> & (Fmm & Lm1 & Lm2) & ->).
  apply lang_class_char in D1, D2, C. subst d1 d2 col.
  exists day, month, year, gap, hh, mm. rewrite app_nil_r.
  repeat split; try assumption; try lia.
  - intros ->. simpl in Lm. lia.
  - intros ->. simpl in Lg. lia.
Qed.

(** ** The shape of the date *)

Lemma date_matches_shaped (ls : list jstring) (d : jstring) :
  In d (date_matches ls) -> date_shaped d.
Proof.
  unfold date_matches. rewrite in_flat_map. intros (line & _ & H).
  destruct (match0 datePattern (trim line)) as [m|] eqn:M; [|destruct H].
  destruct H as [<-|[]]. apply datePattern_shape. now apply (match0_sound _ (trim line)).
Qed.

Lemma last_in_or_default {A : Type} (l : list A) (d : A) :
  last l d = d \/ In (last l d) l.
Proof.
  induction l as [|a l IH]; [now left|].
  destruct l as [|b l]; [right; now left|].
  change (last (a :: b :: l) d) with (last (b :: l) d).
  destruct IH as [E|I]; [now left | right; now right].
Qed.

(** X1: the date of a returned dataset is either empty or of the shape
    one or two digits, "-", word characters, "-", four digits, white space,
    two digits, ":", two digits. *)
Theorem date_is_empty_or_shaped (content fileName : jstring) (r : ParseResult) :
  parseNailFile content fileName = Returns r ->
  date (metadata r) = js "" \/ date_shaped (date (metadata r)).
Proof.
  intros Hp.
  destruct (parse_cases content fileName) as [[_ P]|[_ (r' & P & _ & _ & D)]];
    [congruence|].
  assert (r' = r) by congruence. subst r'.
  rewrite D. unfold scanLines. rewrite scan_date, date_fold.
  destruct (last_in_or_default (date_matches (lines content)) (js "")) as [E|I].
  - left. exact E.
  - right. now apply (date_matches_shaped (lines content)).
Qed.

Lemma date_is_empty_or_shaped_witness :
  exists r, parseNailFile two_dates "board.asc" = Returns r
            /\ date (metadata r) = js "7-March-2024 16:45"
            /\ date_shaped (date (metadata r)).
Proof.
  destruct (parseNailFile two_dates "board.asc") as [r|m] eqn:E;
    [|vm_compute in E; discriminate E].
  exists r. split; [reflexivity|].
  assert (D : date (metadata r) = js "7-March-2024 16:45")
    by (vm_compute in E; injection E as <-; reflexivity).
  split; [exact D|].
  destruct (date_is_empty_or_shaped two_dates "board.asc" r E) as [H|H];
    [rewrite D in H; discriminate H | exact H].
Defined.

(** ** The units *)

Lemma units_fold_unmentioned (ls : list jstring) (u : jstring) :
  forallb (fun l => negb (mentions_units (trim l))) ls = true ->
  fold_left (fun u line => units_step (trim line) u) ls u = u.
Proof.
  intros H. apply units_fold_silent. intros l Hl.
  rewrite forallb_forall in H. specialize (H l Hl).
  unfold mentions_units in H. rewrite negb_true_iff, orb_false_iff in H. exact H.
Qed.

Lemma units_step_mentioned (t u : jstring) :
  mentions_units t = true ->
  units_step t u = if includes "Imperial units" t then js "Imperial" else js "Metric".
Proof.
  unfold mentions_units, units_step.
  destruct (includes "Imperial units" t); [reflexivity|].
  rewrite orb_false_r. now intros ->.
Qed.

(** X2: the units of a returned dataset are those of the last line that
    names a system of units, "Imperial" if that line contains "Imperial
    units" and "Metric" otherwise, and "Unknown" when no line names one; so
    they are always one of the three. *)
Theorem units_from_last_mention (content fileName : jstring) (r : ParseResult) :
  parseNailFile content fileName = Returns r ->
  (forallb (fun l => negb (mentions_units (trim l))) (lines content) = true ->
   units (metadata r) = js "Unknown")
  /\ (forall before line after,
        lines content = before ++ line :: after ->
        mentions_units (trim line) = true ->
        forallb (fun l => negb (mentions_units (trim l))) after = true ->
        units (metadata r)
        = if includes "Imperial units" (trim line) then js "Imperial" else js "Metric")
  /\ (units (metadata r) = js "Unknown" \/ units (metadata r) = js "Metric"
      \/ units (metadata r) = js "Imperial").
Proof.
  intros Hp.
  destruct (parse_cases content fileName) as [[_ P]|[_ (r' & P & _ & U & _)]];
    [congruence|].
  assert (r' = r) by congruence. subst r'.
  rewrite U. unfold scanLines. rewrite scan_units. cbn [s_units scan0].
  split; [now apply units_fold_unmentioned|].
  split.
  - intros before line after Hl Hm Ha.
    rewrite Hl, fold_left_app. cbn [fold_left].
    rewrite (units_fold_unmentioned after) by assumption.
    now apply units_step_mentioned.
  - assert (G : forall ls u0,
              u0 = js "Unknown" \/ u0 = js "Metric" \/ u0 = js "Imperial" ->
              let u := fold_left (fun u line => units_step (trim line) u) ls u0 in
              u = js "Unknown" \/ u = js "Metric" \/ u = js "Imperial").
    { induction ls as [|l ls IH]; intros u0 H0; [exact H0|].
      cbn [fold_left]. apply IH. unfold units_step.
      destruct (includes "Imperial units" (trim l)); [tauto|].
      destruct (includes "Metric units" (trim l)); tauto. }
    apply (G (lines content) (js "Unknown")). now left.
Qed.

Lemma units_from_last_mention_witness :
  exists r, parseNailFile two_dates "board.asc" = Returns r
            /\ units (metadata r) = js "Metric".
Proof.
  destruct (parseNailFile two_dates "board.asc") as [r|m] eqn:E;
    [|vm_compute in E; discriminate E].
  exists r. split; [reflexivity|].
  destruct (units_from_last_mention two_dates "board.asc" r E) as (_ & H & _).
  rewrite (H [] (js "Created 12-Feb-2024 09:30 Metric units")
             [js "Revised 7-March-2024 16:45"; js "$A1 10.5 20.25 TP 3 (T) N100 GND"]);
    vm_compute; reflexivity.
Defined.

(** ** The points and the bounds *)

Lemma dataset_is_well_formed_aux (content fileName : jstring) (r : ParseResult) :
  parseNailFile content fileName = Returns r ->
  nails r <> []
  /\ (forall w, In w (map x (nails r)) -> isNaN w = false)
  /\ (forall w, In w (map y (nails r)) -> isNaN w = false)
  /\ bounds r = {| minX := Math_min (map x (nails r));
                   maxX := Math_max (map x (nails r));
                   minY := Math_min (map y (nails r));
                   maxY := Math_max (map y (nails r)) |}.
Proof.
  intros Hp.
  pose proof (parse_returns_rows content fileName r Hp) as Hn.
  destruct (parse_bounds content fileName r Hp) as [Hne Hb].
  repeat split; try assumption.
  - intros w Hw. apply in_map_iff in Hw. destruct Hw as (p & <- & Hin).
    rewrite Hn in Hin. now apply rows_of_numbers in Hin.
  - intros w Hw. apply in_map_iff in Hw. destruct Hw as (p & <- & Hin).
    rewrite Hn in Hin. now apply rows_of_numbers in Hin.
Qed.

(** X3: a returned dataset has at least one point, [totalNails] is the number
    of its points, the file name is the one given, and no coordinate and no
    bound is NaN. *)
Theorem dataset_is_well_formed (content fileName : jstring) (r : ParseResult) :
  parseNailFile content fileName = Returns r ->
  (1 <= List.length (nails r))%nat
  /\ totalNails (metadata r) = List.length (nails r)
  /\ Parser.fileName (metadata r) = fileName
  /\ (forall p, In p (nails r) -> isNaN (x p) = false /\ isNaN (y p) = false)
  /\ isNaN (minX (bounds r)) = false /\ isNaN (maxX (bounds r)) = false
  /\ isNaN (minY (bounds r)) = false /\ isNaN (maxY (bounds r)) = false.
Proof.
  intros Hp.
  pose proof (parse_returns_rows content fileName r Hp) as Hn.
  assert (Nx : forall w, In w (map x (nails r)) -> isNaN w = false).
  { intros w Hw. apply in_map_iff in Hw. destruct Hw as (p & <- & Hin).
    rewrite Hn in Hin. now apply rows_of_numbers in Hin. }
  assert (Ny : forall w, In w (map y (nails r)) -> isNaN w = false).
  { intros w Hw. apply in_map_iff in Hw. destruct Hw as (p & <- & Hin).
    rewrite Hn in Hin. now apply rows_of_numbers in Hin. }
  destruct (parse_bounds content fileName r Hp) as [Hne Hb].
  assert (T : totalNails (metadata r) = List.length (nails r)
              /\ Parser.fileName (metadata r) = fileName).
  { revert Hp. unfold parseNailFile.
    destruct (List.length (s_nails (scanLines content)) =? 0)%nat; [discriminate|].
    intros [= <-]. split; reflexivity. }
  destruct T as [T1 T2].
  split; [destruct (nails r); [congruence | simpl; lia]|].
  split; [exact T1|]. split; [exact T2|].
  split.
  { intros p Hin. rewrite Hn in Hin. now apply rows_of_numbers in Hin. }
  rewrite Hb. cbn [minX maxX minY maxY]. unfold Math_min, Math_max.
  repeat split.
  - now apply (min_fold_spec _ infinity eq_refl Nx).
  - now apply (max_fold_spec _ neg_infinity eq_refl Nx).
  - now apply (min_fold_spec _ infinity eq_refl Ny).
  - now apply (max_fold_spec _ neg_infinity eq_refl Ny).
Qed.

Lemma dataset_is_well_formed_witness :
  exists r, parseNailFile three_points "board.asc" = Returns r
            /\ totalNails (metadata r) = 3%nat.
Proof.
  destruct (parseNailFile three_points "board.asc") as [r|m] eqn:E;
    [|vm_compute in E; discriminate E].
  exists r. split; [reflexivity|].
  destruct (dataset_is_well_formed three_points "board.asc" r E) as (_ & T & _).
  rewrite T. vm_compute in E. injection E as <-. reflexivity.
Defined.

Lemma isNaN_nan : isNaN nan = true.
Proof. reflexivity. Qed.

Lemma min_step_in (a b : float) :
  isNaN a = false -> isNaN b = false -> min_step a b = a \/ min_step a b = b.
Proof.
  intros Ha Hb. destruct (min_step_choice a b) as [E|[E|E]]; [tauto | tauto |].
  destruct (min_step_spec a b Ha Hb) as (N & _). rewrite E in N. discriminate N.
Qed.

Lemma max_step_in (a b : float) :
  isNaN a = false -> isNaN b = false -> max_step a b = a \/ max_step a b = b.
Proof.
  intros Ha Hb. destruct (max_step_choice a b) as [E|[E|E]]; [tauto | tauto |].
  destruct (max_step_spec a b Ha Hb) as (N & _). rewrite E in N. discriminate N.
Qed.

Lemma min_fold_in (xs : list float) :
  forall acc, isNaN acc = false -> (forall v, In v xs -> isNaN v = false) ->
              In (fold_left min_step xs acc) (acc :: xs).
Proof.
  induction xs as [|a xs IH]; intros acc Hacc Hxs; [now left|].
  cbn [fold_left].
  assert (Ha : isNaN a = false) by (apply Hxs; now left).
  destruct (min_step_spec acc a Hacc Ha) as (N & _).
  specialize (IH (min_step acc a) N (fun v Hv => Hxs v (or_intror Hv))).
  destruct IH as [E|I]; [|right; now right].
  rewrite <- E. destruct (min_step_in acc a Hacc Ha) as [F|F]; rewrite F;
    [now left | right; now left].
Qed.

Lemma max_fold_in (xs : list float) :
  forall acc, isNaN acc = false -> (forall v, In v xs -> isNaN v = false) ->
              In (fold_left max_step xs acc) (acc :: xs).
Proof.
  induction xs as [|a xs IH]; intros acc Hacc Hxs; [now left|].
  cbn [fold_left].
  assert (Ha : isNaN a = false) by (apply Hxs; now left).
  destruct (max_step_spec acc a Hacc Ha) as (N & _).
  specialize (IH (max_step acc a) N (fun v Hv => Hxs v (or_intror Hv))).
  destruct IH as [E|I]; [|right; now right].
  rewrite <- E. destruct (max_step_in acc a Hacc Ha) as [F|F]; rewrite F;
    [now left | right; now left].
Qed.

(** From the start value the first number always wins. *)
Lemma min_step_infinity (a : float) : isNaN a = false -> min_step infinity a = a.
Proof.
  intros Ha. destruct (min_step_in infinity a eq_refl Ha) as [E|E]; [|exact E].
  assert (La : (min_step infinity a <=? a)%float = true)
    by (apply min_step_spec; [reflexivity | assumption]).
  rewrite E in La. rewrite FloatAxioms.leb_spec in La. rewrite isNaN_spec in Ha.
  assert (Pa : Prim2SF a = S754_infinity false).
  { change (Prim2SF infinity) with (S754_infinity false) in La.
    destruct (Prim2SF a) as [s|[|]| |[|] m e]; try discriminate; reflexivity. }
  rewrite E. rewrite <- (SF2Prim_Prim2SF a), Pa. reflexivity.
Qed.

Lemma max_step_neg_infinity (a : float) : isNaN a = false -> max_step neg_infinity a = a.
Proof.
  intros Ha. destruct (max_step_in neg_infinity a eq_refl Ha) as [E|E]; [|exact E].
  assert (La : (a <=? max_step neg_infinity a)%float = true)
    by (apply max_step_spec; [reflexivity | assumption]).
  rewrite E in La. rewrite FloatAxioms.leb_spec in La. rewrite isNaN_spec in Ha.
  assert (Pa : Prim2SF a = S754_infinity true).
  { change (Prim2SF neg_infinity) with (S754_infinity true) in La.
    destruct (Prim2SF a) as [s|[|]| |[|] m e]; try discriminate; reflexivity. }
  rewrite E. rewrite <- (SF2Prim_Prim2SF a), Pa. reflexivity.
Qed.

(** [Math.min] and [Math.max] of numbers return one of them. *)
Lemma Math_min_in (xs : list float) :
  xs <> [] -> (forall v, In v xs -> isNaN v = false) -> In (Math_min xs) xs.
Proof.
  destruct xs as [|a xs]; [congruence|]. intros _ H. unfold Math_min. cbn [fold_left].
  rewrite min_step_infinity by (apply H; now left).
  apply min_fold_in; [apply H; now left | intros v Hv; apply H; now right].
Qed.

Lemma Math_max_in (xs : list float) :
  xs <> [] -> (forall v, In v xs -> isNaN v = false) -> In (Math_max xs) xs.
Proof.
  destruct xs as [|a xs]; [congruence|]. intros _ H. unfold Math_max. cbn [fold_left].
  rewrite max_step_neg_infinity by (apply H; now left).
  apply max_fold_in; [apply H; now left | intros v Hv; apply H; now right].
Qed.

(** X4: the bounds of a returned dataset are attained: each of the four is
    the coordinate of one of its points. *)
Theorem bounds_are_attained (content fileName : jstring) (r : ParseResult) :
  parseNailFile content fileName = Returns r ->
  (exists p, In p (nails r) /\ minX (bounds r) = x p)
  /\ (exists p, In p (nails r) /\ maxX (bounds r) = x p)
  /\ (exists p, In p (nails r) /\ minY (bounds r) = y p)
  /\ (exists p, In p (nails r) /\ maxY (bounds r) = y p).
Proof.
  intros Hp.
  destruct (dataset_is_well_formed_aux content fileName r Hp) as (Hne & Nx & Ny & Hb).
  assert (Mx : map x (nails r) <> []) by (destruct (nails r); [congruence | discriminate]).
  assert (My : map y (nails r) <> []) by (destruct (nails r); [congruence | discriminate]).
  rewrite Hb. cbn [minX maxX minY maxY].
  assert (Pick : forall (f : NailData -> float) v,
             In v (map f (nails r)) -> exists p, In p (nails r) /\ v = f p).
  { intros f v Hv. apply in_map_iff in Hv. destruct Hv as (p & <- & Hin). eauto. }
  repeat split; apply Pick.
  - now apply Math_min_in.
  - now apply Math_max_in.
  - now apply Math_min_in.
  - now apply Math_max_in.
Qed.

Lemma bounds_are_attained_witness :
  exists r p, parseNailFile three_points "board.asc" = Returns r
              /\ In p (nails r) /\ minX (bounds r) = x p.
Proof.
  destruct (parseNailFile three_points "board.asc") as [r|m] eqn:E;
    [|vm_compute in E; discriminate E].
  destruct (bounds_are_attained three_points "board.asc" r E) as ((p & Hin & Hx) & _).
  exists r, p. repeat split; assumption.
Defined.

(** ** The tokens of a row *)

Lemma forallb_rev {A : Type} (p : A -> bool) (l : list A) :
  forallb p l = true -> forallb p (rev l) = true.
Proof.
  rewrite !forallb_forall. intros H a Ha. apply H. now apply in_rev.
Qed.

Lemma clean_end_tail (c : ascii) (s : jstring) :
  clean_end (c :: s) -> clean_end s.
Proof. intros H pre d ->. now apply (H (c :: pre) d). Qed.

Lemma split_ws_go_tokens (s : jstring) :
  forall cur in_run,
    no_space cur = true ->
    (if in_run : bool then cur = [] /\ s <> [] else cur <> []) ->
    clean_end s ->
    Forall token (split_ws_go cur in_run s).
Proof.
  induction s as [|c s IH]; intros cur in_run Hc Hi He; cbn [split_ws_go].
  - destruct in_run; [now destruct Hi|].
    constructor; [|constructor]. split.
    + intros E. apply Hi. apply (f_equal (@rev ascii)) in E.
      now rewrite rev_involutive in E.
    + now apply forallb_rev.
  - destruct (isWhiteSpace c) eqn:W.
    + assert (Hs : s <> []).
      { intros ->. specialize (He [] c eq_refl). congruence. }
      destruct in_run.
      * apply IH; [exact Hc | split; [apply Hi | exact Hs] | now apply (clean_end_tail c)].
      * constructor.
        -- split.
           ++ intros E. apply Hi. apply (f_equal (@rev ascii)) in E.
              now rewrite rev_involutive in E.
           ++ now apply forallb_rev.
        -- apply IH; [reflexivity | now split | now apply (clean_end_tail c)].
    + apply IH; [|discriminate | now apply (clean_end_tail c)].
      unfold no_space in *. cbn [forallb]. now rewrite W, Hc.
Qed.

(** The pieces of a string that neither starts nor ends with white space are
    tokens. *)
Lemma split_ws_tokens (s : jstring) :
  s <> [] -> trimmed s -> Forall token (split_ws s).
Proof.
  intros Hs [Hh He]. destruct s as [|c s]; [congruence|].
  unfold split_ws. cbn [split_ws_go]. rewrite (Hh c s eq_refl).
  apply split_ws_go_tokens; [|discriminate | now apply (clean_end_tail c)].
  unfold no_space. cbn [forallb]. now rewrite (Hh c s eq_refl).
Qed.

Lemma trimStart_head (s : jstring) (c : ascii) (rest : jstring) :
  trimStart s = c :: rest -> isWhiteSpace c = false.
Proof.
  induction s as [|a s IH]; simpl; [discriminate|].
  destruct (isWhiteSpace a) eqn:W; [exact IH|].
  now intros [= <- _].
Qed.

(** [trimStart] drops a prefix of white space. *)
Lemma trimStart_suffix (s : jstring) :
  exists w, s = w ++ trimStart s /\ forallb isWhiteSpace w = true.
Proof.
  induction s as [|a s IH]; simpl.
  - now exists [].
  - destruct (isWhiteSpace a) eqn:W.
    + destruct IH as (w & E & F). exists (a :: w). simpl. rewrite W, F.
      split; [now f_equal | reflexivity].
    + now exists [].
Qed.

(** [trimEnd] drops a suffix of white space. *)
Lemma trimEnd_prefix (s : jstring) :
  exists w, s = trimEnd s ++ w /\ forallb isWhiteSpace w = true.
Proof.
  unfold trimEnd. destruct (trimStart_suffix (rev s)) as (w & E & F).
  exists (rev w). split; [|now apply forallb_rev].
  apply (f_equal (@rev ascii)) in E. now rewrite rev_involutive, rev_app_distr in E.
Qed.

Lemma trimEnd_clean (s : jstring) : clean_end (trimEnd s).
Proof.
  unfold trimEnd. intros pre c E.
  destruct (trimStart (rev s)) as [|a u] eqn:T.
  - destruct pre; discriminate E.
  - simpl in E. apply app_inj_tail in E. destruct E as [_ <-].
    now apply (trimStart_head (rev s) a u).
Qed.

(** What [trim] returns neither starts nor ends with white space. *)
Lemma trim_trimmed (s : jstring) : trimmed (trim s).
Proof.
  unfold trim. split; [|apply trimEnd_clean].
  intros c rest E.
  destruct (trimEnd_prefix (trimStart s)) as (w & P & _).
  rewrite E in P. simpl in P. now apply (trimStart_head s c (rest ++ w)).
Qed.

Lemma includes_char (a : ascii) (s : jstring) :
  includes [a] s = existsb (Ascii.eqb a) s.
Proof.
  induction s as [|c s IH]; [reflexivity|].
  cbn [includes startsWith existsb]. now rewrite IH, andb_true_r.
Qed.

Lemma stripParens_clean (s : jstring) :
  no_space s = true ->
  no_space (stripParens s) = true
  /\ includes "(" (stripParens s) = false /\ includes ")" (stripParens s) = false.
Proof.
  intros Hs. unfold stripParens.
  change (js "(") with ["("%char]. change (js ")") with [")"%char].
  rewrite !includes_char. repeat split.
  - unfold no_space in *. rewrite forallb_forall in *.
    intros c Hc. apply filter_In in Hc. now apply Hs.
  - destruct (existsb _ _) eqn:E; [|reflexivity].
    apply existsb_exists in E. destruct E as (c & Hc & Ec).
    apply filter_In in Hc. destruct Hc as [_ Hc]. unfold isChar in Hc.
    rewrite Ec in Hc. discriminate Hc.
  - destruct (existsb _ _) eqn:E; [|reflexivity].
    apply existsb_exists in E. destruct E as (c & Hc & Ec).
    apply filter_In in Hc. destruct Hc as [_ Hc]. unfold isChar in Hc.
    rewrite Ec, orb_true_r in Hc. discriminate Hc.
Qed.

Lemma rows_of_In (ls : list jstring) (p : NailData) :
  In p (rows_of ls) -> exists line, In line ls /\ row_of (trim line) = Some p.
Proof.
  unfold rows_of. rewrite in_flat_map. intros (line & Hin & Hp).
  exists line. split; [exact Hin|].
  destruct (row_of (trim line)) as [n|]; [|destruct Hp].
  destruct Hp as [<-|[]]. reflexivity.
Qed.

Lemma row_of_parts (t : jstring) (p : NailData) :
  row_of t = Some p ->
  startsWith "$" t = true /\ (7 <= List.length (split_ws t))%nat
  /\ p = nail_of (split_ws t).
Proof.
  unfold row_of. cbv zeta.
  destruct (startsWith "$" t); [|discriminate].
  destruct (7 <=? List.length (split_ws t))%nat eqn:L; [|discriminate].
  destruct (negb (isNaN (x (nail_of (split_ws t)))) &&
            negb (isNaN (y (nail_of (split_ws t))))); [|discriminate].
  intros [= <-]. apply Nat.leb_le in L. now repeat split.
Qed.

(** X5: in a returned dataset the id, type, grid and netId of every point
    are tokens (non-empty, without white space), the id starts with "$", the
    side has neither white space nor parentheses, and the virtual pin
    neither starts nor ends with white space. *)
Theorem fields_are_tokens (content fileName : jstring) (r : ParseResult) (p : NailData) :
  parseNailFile content fileName = Returns r -> In p (nails r) ->
  token (id p) /\ startsWith "$" (id p) = true
  /\ token (type p) /\ token (grid p) /\ token (netId p)
  /\ no_space (side p) = true
  /\ includes "(" (side p) = false /\ includes ")" (side p) = false
  /\ trimmed (virtualPin p).
Proof.
  intros Hp Hin. rewrite (parse_returns_rows content fileName r Hp) in Hin.
  apply rows_of_In in Hin. destruct Hin as (line & _ & Hrow).
  destruct (row_of_id_keeps_marker _ _ Hrow) as (w & Hid).
  apply row_of_parts in Hrow. destruct Hrow as (S & L & ->).
  assert (T : Forall token (split_ws (trim line))).
  { apply split_ws_tokens; [|apply trim_trimmed].
    intros E. rewrite E in S. discriminate S. }
  assert (N : forall i, (i < 7)%nat -> token (part (split_ws (trim line)) i)).
  { intros i Hi. unfold part. rewrite Forall_forall in T. apply T, nth_In. lia. }
  cbn [id type grid netId side virtualPin nail_of] in *.
  split; [apply N; lia|].
  split; [rewrite Hid; reflexivity|].
  split; [apply N; lia|]. split; [apply N; lia|]. split; [apply N; lia|].
  destruct (stripParens_clean (part (split_ws (trim line)) 5)) as (A & B & C);
    [apply N; lia|].
  split; [exact A|]. split; [exact B|]. split; [exact C|].
  unfold virtualPin_of. destruct (includes "T PIN" _).
  - apply trim_trimmed.
  - split; [discriminate|]. intros pre c E. destruct pre; discriminate E.
Qed.

Lemma fields_are_tokens_witness :
  token (id scenarioA_nail) /\ trimmed (virtualPin scenarioA_nail).
Proof.
  destruct (parseNailFile scenarioA "board.asc") as [r|m] eqn:E;
    [|vm_compute in E; discriminate E].
  assert (Hin : In scenarioA_nail (nails r))
    by (vm_compute in E; injection E as <-; now left).
  destruct (fields_are_tokens scenarioA "board.asc" r scenarioA_nail E Hin)
    as (A & _ & _ & _ & _ & _ & _ & _ & B).
  now split.
Defined.

(** ** The net name *)

(** [\s+] on a single white-space code unit. *)
Lemma plus_ws_single (k : cont) (cap : capture) (pos : nat) (c : ascii) (r : jstring) :
  isWhiteSpace c = true ->
  match r with d :: _ => isWhiteSpace d = false | [] => True end ->
  quant true isWhiteSpace k cap 1 None pos (c :: r) = k (S pos) r cap.
Proof.
  intros Hc Hr. cbn [quant]. rewrite Hc. cbn [andb bound_open Nat.pred dec_bound option_map].
  destruct r as [|d r]; cbn [quant].
  - reflexivity.
  - rewrite Hr. reflexivity.
Qed.

Lemma plus_ws_none (k : cont) (cap : capture) (pos : nat) (rest : jstring) :
  match rest with d :: _ => isWhiteSpace d = false | [] => True end ->
  quant true isWhiteSpace k cap 1 None pos rest = None.
Proof.
  destruct rest as [|d r]; cbn [quant]; [reflexivity|]. now intros ->.
Qed.

Lemma single_spaced_tail (c : ascii) (s : jstring) :
  single_spaced (c :: s) = true -> single_spaced s = true.
Proof. cbn [single_spaced]. rewrite andb_true_iff. now intros [_ H]. Qed.

Lemma single_spaced_ws (c : ascii) (s : jstring) :
  single_spaced (c :: s) = true -> isWhiteSpace c = true ->
  c = " "%char /\ match s with d :: _ => isWhiteSpace d = false | [] => False end.
Proof.
  cbn [single_spaced]. intros H W. rewrite W in H.
  apply andb_true_iff in H. destruct H as [H _].
  apply andb_true_iff in H. destruct H as [E H].
  apply Ascii.eqb_eq in E. split; [exact E|].
  destruct s as [|d s]; [discriminate H | now apply negb_true_iff].
Qed.

Lemma space_eqb_not_ws (c : ascii) :
  isWhiteSpace c = false -> Ascii.eqb " " c = false.
Proof.
  intros W. destruct (Ascii.eqb " " c) eqn:E; [|reflexivity].
  apply Ascii.eqb_eq in E. subst c. discriminate W.
Qed.

(** On a single-spaced string, [\s+T\s+PIN] matches at the head exactly when
    the string starts with " T PIN", and consumes those six code units. *)
Lemma marker_at_head (rest : jstring) (pos : nat) (cap : capture) :
  single_spaced rest = true ->
  rmatch (rseq markerAtoms) pos rest cap accept
  = if startsWith " T PIN" rest then Some ((pos + 6)%nat, cap) else None.
Proof.
  intros HS. unfold markerAtoms.
  change (js " T PIN") with [" "; "T"; " "; "P"; "I"; "N"]%char.
  cbn [rseq app rlit map fold_right js list_ascii_of_string rmatch plus].
  destruct rest as [|c0 r0]; [reflexivity|].
  destruct (isWhiteSpace c0) eqn:W0.
  2:{ rewrite plus_ws_none by exact W0. cbn [startsWith].
      now rewrite (space_eqb_not_ws c0 W0). }
  destruct (single_spaced_ws _ _ HS W0) as [-> H0].
  apply single_spaced_tail in HS.
  destruct r0 as [|c1 r1]; [destruct H0|].
  rewrite plus_ws_single by assumption.
  cbn [startsWith]. change (Ascii.eqb " " " ") with true. cbn [andb].
  unfold isChar at 1. destruct (Ascii.eqb "T" c1) eqn:E1; [|reflexivity].
  cbn [andb]. apply single_spaced_tail in HS.
  destruct r1 as [|c2 r2]; [reflexivity|].
  destruct (isWhiteSpace c2) eqn:W2.
  2:{ rewrite plus_ws_none by exact W2. now rewrite (space_eqb_not_ws c2 W2). }
  destruct (single_spaced_ws _ _ HS W2) as [-> H2].
  destruct r2 as [|c3 r3]; [destruct H2|].
  rewrite plus_ws_single by assumption.
  change (Ascii.eqb " " " ") with true. cbn [andb].
  unfold isChar. destruct (Ascii.eqb "P" c3); [|reflexivity]. cbn [andb].
  destruct r3 as [|c4 r4]; [reflexivity|].
  destruct (Ascii.eqb "I" c4); [|reflexivity]. cbn [andb].
  destruct r4 as [|c5 r5]; [reflexivity|].
  destruct (Ascii.eqb "N" c5); [|reflexivity]. cbn [andb]. unfold accept.
  do 2 f_equal. lia.
Qed.

(** The lazy [.*?] stops at the first place where what follows matches. *)
Lemma lazy_dots_first (k : cont) (cap : capture) (M : jstring)
    (f : nat -> nat * capture) :
  forall rest pos,
    (forall r p, single_spaced r = true ->
                 k p r cap = if startsWith M r then Some (f p) else None) ->
    single_spaced rest = true -> forallb isDot rest = true ->
    quant false isDot k cap 0 None pos rest
    = match indexOf M rest with
      | Some i => Some (f (pos + i)%nat)
      | None => None
      end.
Proof.
  induction rest as [|c rest IH]; intros pos Hk HS D.
  - cbn [quant indexOf]. rewrite (Hk [] pos eq_refl).
    destruct (startsWith M []); [now rewrite Nat.add_0_r | reflexivity].
  - cbn [quant indexOf]. rewrite (Hk (c :: rest) pos HS).
    destruct (startsWith M (c :: rest)); [unfold or_else; now rewrite Nat.add_0_r|].
    unfold or_else. cbn [forallb] in D. apply andb_true_iff in D. destruct D as [Dc D].
    rewrite Dc. cbn [andb bound_open Nat.pred dec_bound option_map].
    rewrite (IH (S pos) Hk (single_spaced_tail c rest HS) D).
    destruct (indexOf M rest) as [i|]; cbn [option_map]; [|reflexivity].
    do 2 f_equal. lia.
Qed.

Lemma anchored_fails_later (l : list regex) (rest : jstring) :
  forall pos, search_from (rseq (RStart :: l)) (S pos) rest = None.
Proof.
  induction rest as [|c rest IH]; intros pos; cbn [search_from rseq fold_right rmatch];
    change (S pos =? 0)%nat with false; cbv iota; [reflexivity | apply IH].
Qed.

(** On a single-spaced string without line terminators, group 1 of the
    net-name pattern is what precedes the first " T PIN". *)
Lemma netNamePattern_match (tail : jstring) :
  single_spaced tail = true -> forallb isDot tail = true ->
  match1 netNamePattern tail = option_map (fun i => firstn i tail) (indexOf " T PIN" tail).
Proof.
  intros HS D. unfold match1, exec, netNamePattern.
  change ([RStart; RGroup (RQuant false 0 None isDot); plus isWhiteSpace] ++ rlit "T"
          ++ [plus isWhiteSpace] ++ rlit "PIN")
    with (RStart :: RGroup (RQuant false 0 None isDot) :: markerAtoms).
  assert (M : rmatch (rseq (RStart :: RGroup (RQuant false 0 None isDot) :: markerAtoms))
                0 tail None accept
              = match indexOf " T PIN" tail with
                | Some i => Some ((0 + i + 6)%nat, Some (0, 0 + i))%nat
                | None => None
                end).
  { cbn [rseq fold_right rmatch Nat.eqb].
    apply (lazy_dots_first
             (fun pos' rest' _ => rmatch (rseq markerAtoms) pos' rest' (Some (0%nat, pos')) accept)
             None (js " T PIN") (fun p => ((p + 6)%nat, Some (0%nat, p)))); try assumption.
    intros r p Hr. now apply marker_at_head. }
  destruct tail as [|c tail'].
  - cbn [search_from]. rewrite M. reflexivity.
  - cbn [search_from]. rewrite M.
    destruct (indexOf " T PIN" (c :: tail')) as [i|]; cbn [option_map].
    + unfold substring. cbn [Nat.add]. now rewrite Nat.sub_0_r.
    + now rewrite anchored_fails_later.
Qed.

Lemma not_ws_isDot (c : ascii) : isWhiteSpace c = false -> isDot c = true.
Proof.
  unfold isWhiteSpace, isDot, ascii_in. intros W.
  destruct (nat_of_ascii c =? 10)%nat eqn:E10.
  - apply Nat.eqb_eq in E10. rewrite E10 in W. discriminate W.
  - destruct (nat_of_ascii c =? 13)%nat eqn:E13; [|reflexivity].
    apply Nat.eqb_eq in E13. rewrite E13 in W. discriminate W.
Qed.

Lemma no_space_isDot (t : jstring) : no_space t = true -> forallb isDot t = true.
Proof.
  unfold no_space. rewrite !forallb_forall. intros H c Hc.
  apply not_ws_isDot. specialize (H c Hc). now apply negb_true_iff in H.
Qed.

Lemma single_spaced_app (t u : jstring) :
  no_space t = true -> single_spaced (t ++ u) = single_spaced u.
Proof.
  unfold no_space. induction t as [|c t IH]; [reflexivity|].
  cbn [forallb app single_spaced]. rewrite andb_true_iff. intros [Hc Ht].
  apply negb_true_iff in Hc. rewrite Hc. now apply IH.
Qed.

Lemma token_head (t u : jstring) (c : ascii) (r : jstring) :
  token t -> t ++ u = c :: r -> isWhiteSpace c = false.
Proof.
  intros [Hne Hs]. destruct t as [|a t]; [congruence|].
  intros [= <- _]. unfold no_space in Hs. cbn [forallb] in Hs.
  apply andb_true_iff in Hs. destruct Hs as [Ha _]. now apply negb_true_iff.
Qed.

(** What joining tokens with a space gives. *)
Lemma join_tokens (ts : list jstring) :
  Forall token ts ->
  single_spaced (join " " ts) = true
  /\ forallb isDot (join " " ts) = true
  /\ (forall c r, join " " ts = c :: r -> isWhiteSpace c = false).
Proof.
  induction ts as [|t ts IH]; intros H.
  - repeat split. intros c r E. discriminate E.
  - inversion H as [|? ? Ht Hts]; subst.
    destruct (IH Hts) as (I1 & I2 & I3).
    destruct ts as [|t2 ts].
    + cbn [join]. destruct Ht as [Hne Hs].
      rewrite <- (app_nil_r t), single_spaced_app by assumption.
      repeat split.
      * rewrite app_nil_r. now apply no_space_isDot.
      * intros c r E. rewrite app_nil_r in E. apply (token_head t [] c r); [now split|].
        now rewrite app_nil_r.
    + change (join " " (t :: t2 :: ts)) with (t ++ js " " ++ join " " (t2 :: ts)).
      pose proof Ht as [Hne Hs]. repeat split.
      * rewrite single_spaced_app by assumption.
        change (js " " ++ join " " (t2 :: ts)) with (" "%char :: join " " (t2 :: ts)).
        cbn [single_spaced]. change (isWhiteSpace " ") with true. cbv iota.
        change (Ascii.eqb " " " ") with true. rewrite I1.
        destruct (join " " (t2 :: ts)) as [|d u] eqn:J.
        -- exfalso. inversion Hts as [|? ? [Hne2 _] _]; subst.
           destruct t2; [congruence|]. destruct ts; discriminate J.
        -- now rewrite (I3 d u eq_refl).
      * rewrite forallb_app, (no_space_isDot t Hs).
        change (js " " ++ join " " (t2 :: ts)) with (" "%char :: join " " (t2 :: ts)).
        cbn [forallb]. now rewrite I2.
      * intros c r E. now apply (token_head t (js " " ++ join " " (t2 :: ts)) c r).
Qed.

Lemma Forall_skipn {A : Type} (P : A -> Prop) (n : nat) (l : list A) :
  Forall P l -> Forall P (skipn n l).
Proof.
  revert l. induction n as [|n IH]; intros l H; [exact H|].
  destruct l as [|a l]; [constructor|]. inversion H; subst. now apply IH.
Qed.

(** The net name of a row, and that it starts with something else than
    white space. *)
Lemma row_netName (line : jstring) (p : NailData) :
  row_of (trim line) = Some p ->
  netName p
  = match indexOf " T PIN" (remaining_of (split_ws (trim line))) with
    | Some i => firstn i (remaining_of (split_ws (trim line)))
    | None => match nth_error (split_ws (trim line)) 7 with
              | Some t => t
              | None => js "N/A"
              end
    end
  /\ exists c rest, netName p = c :: rest /\ isWhiteSpace c = false.
Proof.
  intros Hrow.
  apply row_of_parts in Hrow. destruct Hrow as (St & L & ->).
  assert (T : Forall token (split_ws (trim line))).
  { apply split_ws_tokens; [|apply trim_trimmed].
    intros E. rewrite E in St. discriminate St. }
  set (parts := split_ws (trim line)) in *.
  destruct (join_tokens (skipn 7 parts) (Forall_skipn _ 7 _ T)) as (J1 & J2 & J3).
  fold (remaining_of parts) in J1, J2, J3.
  cbn [netName nail_of]. unfold netName_of.
  rewrite (netNamePattern_match _ J1 J2).
  destruct (indexOf " T PIN" (remaining_of parts)) as [i|] eqn:I; cbn [option_map].
  - split; [reflexivity|].
    destruct (remaining_of parts) as [|c tail] eqn:R.
    + cbn in I. discriminate I.
    + destruct i as [|i].
      * exfalso. apply indexOf_Some in I. destruct I as [E _].
        cbn [firstn app] in E. injection E as E _.
        specialize (J3 c tail eq_refl). rewrite E in J3. discriminate J3.
      * exists c, (firstn i tail). split; [reflexivity | now apply (J3 c tail)].
  - unfold part7_or_NA.
    destruct (nth_error parts 7) as [t|] eqn:N.
    + assert (Tt : token t).
      { rewrite Forall_forall in T. apply T. now apply nth_error_In in N. }
      destruct t as [|a t]; [destruct Tt; congruence|].
      split; [reflexivity|]. exists a, t. split; [reflexivity|].
      now apply (token_head (a :: t) [] a (t ++ [])).
    + split; [reflexivity|]. exists "N"%char, (js "/A"). now split.
Qed.

(** X6: the net name of every point of a returned dataset is the part of
    the tail of its row that precedes the first " T PIN" (a space, T, a
    space, PIN); when the tail has no " T PIN" it is token 7 of the row, and
    "N/A" when the row has only 7 tokens.  It is never empty. *)
Theorem netName_is_text_before_marker
    (content fileName : jstring) (r : ParseResult) (p : NailData) :
  parseNailFile content fileName = Returns r -> In p (nails r) ->
  exists line,
    In line (lines content) /\ row_of (trim line) = Some p
    /\ netName p
       = match indexOf " T PIN" (remaining_of (split_ws (trim line))) with
         | Some i => firstn i (remaining_of (split_ws (trim line)))
         | None => match nth_error (split_ws (trim line)) 7 with
                   | Some t => t
                   | None => js "N/A"
                   end
         end
    /\ netName p <> js "".
Proof.
  intros Hp Hin. rewrite (parse_returns_rows content fileName r Hp) in Hin.
  apply rows_of_In in Hin. destruct Hin as (line & Hl & Hrow).
  exists line. split; [exact Hl|]. split; [exact Hrow|].
  destruct (row_netName line p Hrow) as (E & c & rest & Hc & _).
  split; [exact E|]. rewrite Hc. discriminate.
Qed.

Lemma netName_is_text_before_marker_witness :
  exists r, parseNailFile three_points "board.asc" = Returns r
            /\ map netName (nails r) = [js "GND"; js "VCC"; js "N/A"].
Proof.
  destruct (parseNailFile three_points "board.asc") as [r|m] eqn:E;
    [|vm_compute in E; discriminate E].
  exists r. split; [reflexivity|].
  assert (N : exists a b c, nails r = [a; b; c]
             /\ (In a (nails r) -> netName a = js "GND")
             /\ (In b (nails r) -> netName b = js "VCC")
             /\ (In c (nails r) -> netName c = js "N/A")).
  { pose proof E as E'. vm_compute in E'. injection E' as <-.
    do 3 eexists. split; [reflexivity|]. repeat split; intros _; reflexivity. }
  destruct N as (a & b & c & Hn & Ha & Hb & Hc).
  destruct (netName_is_text_before_marker three_points "board.asc" r a E) as (_ & _ & _ & _ & _);
    [rewrite Hn; now left|].
  rewrite Hn. cbn [map]. rewrite Ha, Hb, Hc by (rewrite Hn; simpl; tauto).
  reflexivity.
Defined.

(** ** Blank lines, indentation and line ends *)

Lemma scanLine_blank (st : scan) (line : jstring) :
  trim line = [] -> scanLine st line = st.
Proof.
  intros E. unfold scanLine. rewrite E. destruct st as [ns u d]. reflexivity.
Qed.

Lemma scanLine_trim (st : scan) (l1 l2 : jstring) :
  trim l1 = trim l2 -> scanLine st l1 = scanLine st l2.
Proof. intros E. unfold scanLine. now rewrite E. Qed.

Lemma scan_significant (ls : list jstring) :
  forall st, fold_left scanLine ls st
             = fold_left scanLine (filter truthy (map trim ls)) st.
Proof.
  assert (TT : forall s, trim (trim s) = trim s).
  { intros s. unfold trim at 1.
    pose proof (trim_trimmed s) as [Hh He].
    assert (A : trimStart (trim s) = trim s).
    { destruct (trim s) as [|c u] eqn:T; [reflexivity|].
      cbn [trimStart]. now rewrite (Hh c u eq_refl). }
    rewrite A. unfold trimEnd.
    assert (B : trimStart (rev (trim s)) = rev (trim s)).
    { destruct (rev (trim s)) as [|c u] eqn:R; [reflexivity|].
      cbn [trimStart]. rewrite (He (rev u) c); [reflexivity|].
      apply (f_equal (@rev ascii)) in R. rewrite rev_involutive in R. exact R. }
    rewrite B. apply rev_involutive. }
  induction ls as [|l ls IH]; intros st; [reflexivity|].
  cbn [fold_left map filter].
  destruct (trim l) as [|c u] eqn:T.
  - cbn [truthy]. rewrite (scanLine_blank st l T). apply IH.
  - cbn [truthy fold_left]. rewrite IH. f_equal.
    apply scanLine_trim. rewrite <- T. symmetry. apply TT.
Qed.

(** X7: the outcome depends only on the trimmed non-blank lines of the file:
    two files with the same ones parse alike, so that blank lines,
    indentation and Windows line ends change nothing. *)
Theorem only_significant_lines_matter (c1 c2 fileName : jstring) :
  significant_lines c1 = significant_lines c2 ->
  parseNailFile c1 fileName = parseNailFile c2 fileName.
Proof.
  unfold significant_lines. intros E.
  assert (S : scanLines c1 = scanLines c2).
  { unfold scanLines. now rewrite (scan_significant (lines c1)), E, <- scan_significant. }
  unfold parseNailFile. now rewrite S.
Qed.

Lemma only_significant_lines_matter_witness :
  parseNailFile crlf_file "board.asc" = parseNailFile lf_file "board.asc".
Proof.
  apply only_significant_lines_matter. vm_compute. reflexivity.
Defined.

(** ** Files put one after the other *)








(** ** The bounds of finite points *)

Lemma finite_bounds (content fileName : jstring) (r : ParseResult) :
  parseNailFile content fileName = Returns r ->
  (forall p, In p (nails r) -> isFinite (x p) = true /\ isFinite (y p) = true) ->
  isFinite (minX (bounds r)) = true /\ isFinite (maxX (bounds r)) = true
  /\ isFinite (minY (bounds r)) = true /\ isFinite (maxY (bounds r)) = true
  /\ (minX (bounds r) <=? maxX (bounds r))%float = true
  /\ (minY (bounds r) <=? maxY (bounds r))%float = true.
Proof.
  intros Hp Hf.
  destruct (dataset_is_well_formed_aux content fileName r Hp) as (Hne & Nx & Ny & Hb).
  assert (Mx : map x (nails r) <> []) by (destruct (nails r); [congruence | discriminate]).
  assert (My : map y (nails r) <> []) by (destruct (nails r); [congruence | discriminate]).
  assert (Fx : forall v, In v (map x (nails r)) -> isFinite v = true).
  { intros v Hv. apply in_map_iff in Hv. destruct Hv as (p & <- & Hin). now apply Hf. }
  assert (Fy : forall v, In v (map y (nails r)) -> isFinite v = true).
  { intros v Hv. apply in_map_iff in Hv. destruct Hv as (p & <- & Hin). now apply Hf. }
  rewrite Hb. cbn [minX maxX minY maxY].
  pose proof (Math_min_in _ Mx Nx) as I1. pose proof (Math_max_in _ Mx Nx) as I2.
  pose proof (Math_min_in _ My Ny) as I3. pose proof (Math_max_in _ My Ny) as I4.
  repeat split; auto.
  - apply (leb_trans _ (Math_max (map x (nails r)))); [now apply Math_min_below|].
    apply leb_refl. now apply Nx.
  - apply (leb_trans _ (Math_max (map y (nails r)))); [now apply Math_min_below|].
    apply leb_refl. now apply Ny.
Qed.

End ParserMore.

(* ================================================================== *)
(** * Further properties of the viewport *)
(* ================================================================== *)

Module PinMapMore.
Import JS Parser PinMap JSFacts ParserFacts PinMapFacts Notions Signs FloatMore ParserMore.

(** ** The zoom is a number *)

Lemma inRange_number (z : float) : inRange z = true -> isNaN z = false.
Proof.
  intros H. destruct (inRange_finite z H) as (m & e & E).
  now rewrite isNaN_spec, E.
Qed.

(** A number times a finite value other than zero is a number. *)
Lemma mul_number_by_finite (a b : float) (sb : bool) (mb : positive) (eb : Z) :
  isNaN a = false -> Prim2SF b = S754_finite sb mb eb -> isNaN (a * b)%float = false.
Proof.
  rewrite !isNaN_spec, mul_spec. intros Ha ->.
  destruct (Prim2SF a) as [sa|sa| |sa ma ea]; try discriminate Ha; try reflexivity.
  unfold SF64mul, SFmul. apply binary_round_aux_not_nan. lia.
Qed.

(** Whatever the zoom was, provided it is a number, a wheel event brings it
    into the range. *)
Lemma handleWheel_clamps (deltaY : float) (v : view) :
  isNaN (zoom v) = false -> inRange (zoom (handleWheel deltaY v)) = true.
Proof.
  intros Hz. unfold handleWheel. cbn [setZoom zoom].
  set (f := if (0 <? deltaY)%float then 0.9%float else 1.1%float).
  assert (Hf : exists mf ef, Prim2SF f = S754_finite false mf ef)
    by (unfold f; destruct (0 <? deltaY)%float; eexists; eexists; vm_compute; reflexivity).
  destruct Hf as (mf & ef & Hf).
  assert (N : isNaN (zoom v * f)%float = false)
    by (eapply mul_number_by_finite; eassumption).
  destruct (Math_max2_spec (zoom v * f)%float 0.05%float N eq_refl) as (N1 & _ & Lo & _).
  destruct (Math_min2_spec (Math_max [(zoom v * f)%float; 0.05%float]) 100%float N1 eq_refl)
    as (_ & _ & Hi & [E|E]).
  - unfold inRange. rewrite Hi, andb_true_r. now rewrite E.
  - rewrite E. reflexivity.
Qed.

Lemma handle_keeps_number (data : ParseResult) (v : view) (e : event) :
  isNaN (zoom v) = false -> isNaN (zoom (handle data v e)) = false.
Proof.
  intros Hz. destruct e as [deltaY| | | |b cx cy|cx cy| |a]; cbn [handle].
  - apply inRange_number. now apply handleWheel_clamps.
  - unfold zoomInClick. cbn [setZoom zoom].
    apply (mul_number_by_finite _ _ false 6755399441055744 (-52) Hz).
    vm_compute. reflexivity.
  - unfold zoomOutClick. cbn [setZoom zoom].
    apply (mul_number_by_finite _ _ false 6305039478318694 (-53) Hz).
    vm_compute. reflexivity.
  - reflexivity.
  - unfold handleMouseDown. now destruct (b =? 0)%Z.
  - unfold handleMouseMove. now destruct (isDragging v).
  - exact Hz.
  - unfold focusOn. destruct a as [pinId|]; [|exact Hz].
    destruct (truthy pinId); [|exact Hz].
    destruct (findPin data pinId); [|exact Hz].
    cbn [setOffset setZoom zoom].
    now apply (Math_max2_spec (zoom v) 10%float Hz eq_refl).
Qed.

Lemma fold_keeps_number (data : ParseResult) (es : list event) :
  forall v, isNaN (zoom v) = false ->
            isNaN (zoom (fold_left (handle data) es v)) = false.
Proof.
  induction es as [|e es IH]; intros v Hv; [exact Hv|].
  cbn [fold_left]. apply IH. now apply handle_keeps_number.
Qed.

(** X8: whatever events a viewport has handled since it was mounted, its
    zoom is a number, not NaN, and a wheel event then brings it into
    [0.05, 100], even after the step buttons took it out of that range. *)
Theorem wheel_restores_range (data : ParseResult) (es : list event) (deltaY : float) :
  isNaN (zoom (run data es)) = false
  /\ inRange (zoom (run data (es ++ [Wheel deltaY]))) = true.
Proof.
  assert (N : isNaN (zoom (run data es)) = false)
    by (unfold run; now apply fold_keeps_number).
  split; [exact N|].
  unfold run in *. rewrite fold_left_app. cbn [fold_left handle].
  now apply handleWheel_clamps.
Qed.

(** ** Focusing twice *)

Lemma leb_not_ltb (a b : float) : (a <=? b)%float = true -> (b <? a)%float = false.
Proof.
  rewrite FloatAxioms.leb_spec, FloatAxioms.ltb_spec. intros H.
  destruct (SFleb_not_nan _ _ H) as [Na Nb].
  apply SFleb_rank in H; [|assumption..].
  unfold SFltb. rewrite (SFcompare_rank _ _ Nb Na).
  destruct (lex3 (rank (Prim2SF b)) (rank (Prim2SF a))) eqn:L; try reflexivity.
  exfalso. apply lex3_lt_spec in L.
  destruct (rank (Prim2SF a)) as [[a1 a2] a3], (rank (Prim2SF b)) as [[b1 b2] b3].
  unfold lex3_le in H. lia.
Qed.

(** Taking the maximum with 10 a second time changes nothing. *)
Lemma Math_max_10_idempotent (z : float) :
  Math_max [Math_max [z; 10%float]; 10%float] = Math_max [z; 10%float].
Proof.
  destruct (isNaN z) eqn:N.
  - rewrite (Math_max_nan z _ N). now apply Math_max_nan.
  - destruct (Math_max2_spec z 10%float N eq_refl) as (Nt & _ & L & _).
    set (t := Math_max [z; 10%float]) in *.
    unfold Math_max at 1. cbn [fold_left].
    assert (E : max_step neg_infinity t = t).
    { destruct (max_step_choice neg_infinity t) as [E|[E|E]]; [|exact E|].
      - assert (La : (t <=? max_step neg_infinity t)%float = true)
          by (apply max_step_spec; [reflexivity | assumption]).
        rewrite E in La. pose proof (leb_trans _ _ _ L La) as C. discriminate C.
      - assert (Na : isNaN (max_step neg_infinity t) = false)
          by (apply max_step_spec; [reflexivity | assumption]).
        rewrite E in Na. discriminate Na. }
    rewrite E. unfold max_step. rewrite Nt. cbn [orb].
    change (isNaN 10) with false. change (is_pos_zero 10) with false. cbn [andb].
    now rewrite (leb_not_ltb _ _ L).
Qed.

(** X9: focusing is idempotent: applying the focus effect a second time
    with the same dataset and the same id leaves the view as the first
    application made it, whatever the view was. *)
Theorem focusOn_idempotent (data : ParseResult) (a : option jstring) (v : view) :
  focusOn data a (focusOn data a v) = focusOn data a v.
Proof.
  unfold focusOn. destruct a as [pinId|]; [|reflexivity].
  destruct (truthy pinId); [|reflexivity].
  destruct (findPin data pinId) as [pin|]; [|reflexivity].
  unfold setOffset, setZoom. cbn [zoom offset isDragging dragStart].
  now rewrite Math_max_10_idempotent.
Qed.

(** ** Focusing on nothing *)

Lemma jstring_eqb_eq (a b : jstring) : jstring_eqb a b = true <-> a = b.
Proof.
  revert b. induction a as [|c a IH]; intros [|d b]; simpl; split;
    try discriminate; try reflexivity.
  - rewrite andb_true_iff, Ascii.eqb_eq, IH. now intros [-> ->].
  - intros [= -> ->]. rewrite Ascii.eqb_refl. cbn [andb]. now apply IH.
Qed.

Lemma findPin_None (data : ParseResult) (pinId : jstring) :
  (forall n, In n (nails data) -> id n <> pinId) -> findPin data pinId = None.
Proof.
  unfold findPin. induction (nails data) as [|n ns IH]; intros H; [reflexivity|].
  cbn [find]. destruct (jstring_eqb (id n) pinId) eqn:E.
  - apply jstring_eqb_eq in E. exfalso. now apply (H n (or_introl eq_refl)).
  - apply IH. intros n' Hn'. apply H. now right.
Qed.

(** X10: focusing is a silent no-op when there is no active id ([null]),
    when the id is the empty string, and when no point of the dataset has
    the id: the view is left exactly as it was. *)
Theorem focusOn_absent_is_noop (data : ParseResult) (a : option jstring) (v : view) :
  (a = None \/ a = Some (js "")
   \/ exists pinId, a = Some pinId /\ forall n, In n (nails data) -> id n <> pinId) ->
  focusOn data a v = v.
Proof.
  intros [->|[->|(pinId & -> & H)]]; [reflexivity | reflexivity |].
  unfold focusOn. destruct (truthy pinId); [|reflexivity].
  now rewrite (findPin_None data pinId H).
Qed.

Lemma focusOn_absent_is_noop_witness :
  focusOn scenarioC (Some (js "P3")) initial = initial.
Proof.
  apply focusOn_absent_is_noop. right. right. exists (js "P3"). split; [reflexivity|].
  intros n [<-|[<-|[]]]; discriminate.
Defined.

(** ** Panning *)

Lemma setIsDragging_same (v : view) : isDragging v = false -> setIsDragging false v = v.
Proof. destruct v as [z o d s]. simpl. now intros ->. Qed.

(** X11: only a drag with the left button pans: from a view that is not
    dragging, any sequence of mouse moves, releases and presses of another
    button leaves the view, offset and zoom included, exactly as it was. *)
Theorem idle_mouse_changes_nothing (data : ParseResult) (es : list event) (v : view) :
  isDragging v = false -> forallb idle_mouse_event es = true ->
  fold_left (handle data) es v = v.
Proof.
  intros Hd. induction es as [|e es IH]; [reflexivity|].
  cbn [forallb fold_left]. rewrite andb_true_iff. intros [He Hes].
  assert (E : handle data v e = v).
  { destruct e as [deltaY| | | |b cx cy|cx cy| |a]; try discriminate He; cbn [handle].
    - unfold handleMouseDown. cbn [idle_mouse_event] in He.
      apply negb_true_iff in He. now rewrite He.
    - unfold handleMouseMove. now rewrite Hd.
    - now apply setIsDragging_same. }
  rewrite E. now apply IH.
Qed.

Lemma idle_mouse_changes_nothing_witness :
  fold_left (handle scenarioC)
    [MouseMove 10 20; MouseDown 2 0 0; MouseMove 30 40; MouseUp; MouseMove 5 5] initial
  = initial.
Proof. apply idle_mouse_changes_nothing; reflexivity. Defined.

(** ** The sign of the zoom *)

Lemma positive_number (z : float) : (0 <? z)%float = true -> isNaN z = false.
Proof.
  rewrite ltb_0_spec, isNaN_spec. intros H.
  apply SF_nonneg_number. now apply SF_pos_nonneg.
Qed.

Lemma inRange_positive (z : float) : inRange z = true -> (0 <? z)%float = true.
Proof.
  intros H. destruct (inRange_finite z H) as (m & e & E).
  now rewrite ltb_0_spec, E.
Qed.

Lemma handle_keeps_positive (data : ParseResult) (v : view) (e : event) :
  (0 <? zoom v)%float = true -> (0 <? zoom (handle data v e))%float = true.
Proof.
  intros Hz. destruct e as [deltaY| | | |b cx cy|cx cy| |a]; cbn [handle].
  - apply inRange_positive, handleWheel_clamps. now apply positive_number.
  - unfold zoomInClick. cbn [setZoom zoom].
    apply (mul_pos _ _ 6755399441055744 (-52)); [reflexivity | lia | lia | reflexivity | exact Hz].
  - unfold zoomOutClick. cbn [setZoom zoom].
    apply (mul_pos _ _ 6305039478318694 (-53)); [reflexivity | lia | lia | reflexivity | exact Hz].
  - reflexivity.
  - unfold handleMouseDown. now destruct (b =? 0)%Z.
  - unfold handleMouseMove. now destruct (isDragging v).
  - exact Hz.
  - unfold focusOn. destruct a as [pinId|]; [|exact Hz].
    destruct (truthy pinId); [|exact Hz].
    destruct (findPin data pinId); [|exact Hz].
    cbn [setOffset setZoom zoom].
    destruct (Math_max2_spec (zoom v) 10 (positive_number _ Hz) eq_refl)
      as (_ & _ & _ & [E|E]); rewrite E; [exact Hz | reflexivity].
Qed.

(** X19: whatever events a viewport has handled since it was mounted, its
    zoom is positive (it can be [+Infinity]), never zero and never negative:
    the "-" button, which multiplies by 0.7 without a lower limit, stops at
    the least positive number instead of reaching zero, so no handler and no
    attribute ever divides by a zoom of zero. *)
Theorem zoom_stays_positive (data : ParseResult) (es : list event) :
  (0 <? zoom (run data es))%float = true
  /\ (zoom (run data es) =? 0)%float = false
  /\ (0 <=? 2 / zoom (run data es))%float = true.
Proof.
  assert (P : (0 <? zoom (run data es))%float = true).
  { unfold run.
    assert (G : forall v, (0 <? zoom v)%float = true ->
                          (0 <? zoom (fold_left (handle data) es v))%float = true).
    { induction es as [|e es IH]; intros v Hv; [exact Hv|].
      cbn [fold_left]. apply IH. now apply handle_keeps_positive. }
    apply G. reflexivity. }
  split; [exact P|].
  rewrite ltb_0_spec in P. rewrite FloatAxioms.eqb_spec, leb_0_spec, div_spec.
  change (Prim2SF 0) with (S754_zero false).
  change (Prim2SF 2) with (S754_finite false 4503599627370496 (-51)).
  destruct (Prim2SF (zoom (run data es))) as [[|]|[|]| |[|] m e]; try discriminate P.
  - split; reflexivity.
  - split; [reflexivity|].
    unfold SF64div, SFdiv. cbn [xorb].
    destruct (SFdiv_core_binary prec emax (Zpos 4503599627370496) (-51) (Zpos m) e)
      as [[mz ez] lz] eqn:D.
    apply binary_round_aux_nonneg.
    unfold SFdiv_core_binary in D.
    set (s := (-51 - e - Z.min (fexp prec emax (Zdigits2 (Zpos 4503599627370496) + -51
                                                - (Zdigits2 (Zpos m) + e)))
                               (-51 - e))%Z) in D.
    set (m' := match s with
               | Zpos _ => Z.shiftl (Zpos 4503599627370496) s
               | Z0 => Zpos 4503599627370496
               | Zneg _ => 0%Z
               end) in D.
    assert (Hm' : (0 <= m')%Z).
    { unfold m'. destruct s; try lia. apply Z.shiftl_nonneg. lia. }
    pose proof (Z_div_mod m' (Zpos m) (eq_refl _)) as Q.
    destruct (Z.div_eucl m' (Zpos m)) as [q r]. injection D as <- _ _.
    destruct Q as [Q R]. nia.
Qed.

(** ** The frame of finite points *)

(** X20: for a dataset the parser returned whose coordinates are all finite,
    the width and the height of the viewBox are positive numbers (they can
    be [+Infinity]), never zero, negative or NaN, and the board dimensions,
    [maxX - minX] and [maxY - minY], are not negative. *)
Theorem viewBox_is_positive (content fileName : jstring) (r : ParseResult) :
  parseNailFile content fileName = Returns r -> finite_points r ->
  (0 <? width r)%float = true /\ (0 <? height r)%float = true
  /\ isNaN (width r) = false /\ isNaN (height r) = false
  /\ (0 <=? maxX (bounds r) - minX (bounds r))%float = true
  /\ (0 <=? maxY (bounds r) - minY (bounds r))%float = true.
Proof.
  intros Hp Hf.
  destruct (finite_bounds content fileName r Hp Hf) as (F1 & F2 & F3 & F4 & Lx & Ly).
  assert (Dx : (0 <=? maxX (bounds r) - minX (bounds r))%float = true)
    by (now apply sub_nonneg).
  assert (Dy : (0 <=? maxY (bounds r) - minY (bounds r))%float = true)
    by (now apply sub_nonneg).
  assert (W : (0 <? width r)%float = true).
  { unfold width. apply add_pos; [exact Dx | reflexivity]. }
  assert (H : (0 <? height r)%float = true).
  { unfold height. apply add_pos; [exact Dy | reflexivity]. }
  repeat split; auto using positive_number.
Qed.

Lemma viewBox_is_positive_witness :
  exists r, parseNailFile three_points "board.asc" = Returns r
            /\ (0 <? width r)%float = true.
Proof.
  destruct (parseNailFile three_points "board.asc") as [r|m] eqn:E;
    [|vm_compute in E; discriminate E].
  exists r. split; [reflexivity|].
  apply (viewBox_is_positive three_points "board.asc" r E).
  vm_compute in E. injection E as <-.
  intros p Hp. cbn [nails In] in Hp.
  destruct Hp as [<-|[<-|[<-|[]]]]; split; reflexivity.
Defined.

End PinMapMore.

(* ================================================================== *)
(** * Further properties of the search controller and of the page *)
(* ================================================================== *)

Module SessionFacts.
Import JS Parser App Session JSFacts ParserFacts AppFacts Notions.
Import PinMapFacts ParserMore PinMapMore Signs FloatMore.

(** ** Cycling from any selection *)

Lemma cycles_from (st : state) (k : nat) :
  let results := filteredResults st in
  let m := Z.of_nat (List.length results) in
  (0 < m)%Z -> (-1 <= activeResultIndex st < m)%Z ->
  activeResultIndex (cycles (S k) st) = ((activeResultIndex st + 1 + Z.of_nat k) mod m)%Z
  /\ (exists n, nth_error results
                  (Z.to_nat ((activeResultIndex st + 1 + Z.of_nat k) mod m)) = Some n
                /\ activePinId (cycles (S k) st) = Some (id n))
  /\ filteredResults (cycles (S k) st) = results.
Proof.
  intros results m Hm Hi.
  induction k as [|k IH].
  - change (cycles 1 st) with (cycle st).
    destruct (cycle_step st Hm Hi) as (I & F & R).
    fold results m in I, F, R.
    replace (activeResultIndex st + 1 + Z.of_nat 0)%Z with (activeResultIndex st + 1)%Z by lia.
    now rewrite I.
  - destruct IH as (I & _ & R).
    change (cycles (S (S k)) st) with (cycle (cycles (S k) st)).
    destruct (cycle_step (cycles (S k) st)) as (I' & F' & R').
    + rewrite R. exact Hm.
    + rewrite R, I. fold results m.
      pose proof (Z.mod_pos_bound (activeResultIndex st + 1 + Z.of_nat k) m Hm). lia.
    + rewrite R in I', F', R'. fold results m in I', F', R'. rewrite I in I', F'.
      assert (E : (((activeResultIndex st + 1 + Z.of_nat k) mod m + 1) mod m
                   = (activeResultIndex st + 1 + Z.of_nat (S k)) mod m)%Z).
      { rewrite Zplus_mod_idemp_l. f_equal. lia. }
      rewrite E in I', F'. now rewrite I'.
Qed.

(** X12: cycling goes round the matches from wherever the selection is:
    with [m > 0] matches and the index at [i] (none selected, [-1], or a
    match clicked in the list), [k >= 1] cycle commands leave the index at
    [(i + k) mod m] and focus the match there; [m] more commands bring back
    the same index and the same focus. *)
Theorem cycling_wraps_around (st : state) (k : nat) :
  let results := filteredResults st in
  let m := Z.of_nat (List.length results) in
  (0 < m)%Z -> (-1 <= activeResultIndex st < m)%Z -> (1 <= k)%nat ->
  activeResultIndex (cycles k st) = ((activeResultIndex st + Z.of_nat k) mod m)%Z
  /\ (exists n, nth_error results
                  (Z.to_nat ((activeResultIndex st + Z.of_nat k) mod m)) = Some n
                /\ activePinId (cycles k st) = Some (id n))
  /\ activeResultIndex (cycles (k + List.length results) st)
     = activeResultIndex (cycles k st)
  /\ activePinId (cycles (k + List.length results) st) = activePinId (cycles k st).
Proof.
  intros results m Hm Hi Hk.
  destruct k as [|k]; [lia|].
  destruct (cycles_from st k Hm Hi) as (I & (n & N & F) & _).
  fold results m in I, N.
  replace (activeResultIndex st + Z.of_nat (S k))%Z
    with (activeResultIndex st + 1 + Z.of_nat k)%Z by lia.
  split; [exact I|]. split; [now exists n|].
  change (S k + List.length results)%nat with (S (k + List.length results)).
  destruct (cycles_from st (k + List.length results) Hm Hi) as (I2 & (n2 & N2 & F2) & _).
  fold results m in I2, N2.
  assert (E : ((activeResultIndex st + 1 + Z.of_nat (k + List.length results)) mod m
               = (activeResultIndex st + 1 + Z.of_nat k) mod m)%Z).
  { rewrite Nat2Z.inj_add. fold m.
    replace (activeResultIndex st + 1 + (Z.of_nat k + m))%Z
      with (activeResultIndex st + 1 + Z.of_nat k + 1 * m)%Z by lia.
    apply Z_mod_plus_full. }
  rewrite E in I2, N2. split; [congruence|].
  rewrite F, F2. congruence.
Qed.

Lemma cycling_wraps_around_witness :
  activeResultIndex
    (cycles 2 (clickResult 1 (searching scenarioD "p" nail))) = 0%Z.
Proof.
  destruct (cycling_wraps_around (clickResult 1 (searching scenarioD "p" nail)) 2)
    as (I & _);
    [vm_compute; reflexivity | vm_compute; split; [discriminate | reflexivity] | lia |].
  rewrite I. vm_compute. reflexivity.
Defined.

(** ** What every run of the page keeps *)

Lemma filteredResults_In (st : state) (d : ParseResult) (n : NailData) :
  data st = Some d -> In n (filteredResults st) -> In n (nails d).
Proof.
  unfold filteredResults. intros ->.
  destruct (negb (truthy (trim (searchQuery st)))); [intros []|].
  intros H. now apply filter_In in H.
Qed.

Lemma handleSearchKeyDown_other (key : jstring) (st : state) :
  key <> js "Enter" -> handleSearchKeyDown key st = st.
Proof.
  intros H. unfold handleSearchKeyDown.
  destruct (jstring_eqb key "Enter") eqn:E; [|reflexivity].
  apply jstring_eqb_eq in E. contradiction.
Qed.

Lemma handleSearchKeyDown_none (key : jstring) (st : state) :
  filteredResults st = [] -> handleSearchKeyDown key st = st.
Proof.
  intros H. unfold handleSearchKeyDown. rewrite H.
  now destruct (jstring_eqb key "Enter").
Qed.

Lemma consistent_key (key : jstring) (st : state) :
  consistent st -> consistent (handleSearchKeyDown key st).
Proof.
  intros C.
  destruct (jstring_eqb key "Enter") eqn:K.
  2:{ rewrite handleSearchKeyDown_other; [exact C|].
      intros ->. discriminate K. }
  apply jstring_eqb_eq in K. subst key. fold (cycle st).
  destruct (filteredResults st) as [|r0 rs] eqn:R.
  { unfold cycle. now rewrite handleSearchKeyDown_none. }
  unfold consistent in *.
  assert (D : data (cycle st) = data st).
  { unfold cycle, handleSearchKeyDown.
    destruct (jstring_eqb "Enter" "Enter"); [|reflexivity].
    destruct (0 <? _)%Z; [|reflexivity].
    destruct (at_index _ _); reflexivity. }
  rewrite D. destruct (data st) as [d|] eqn:Dd; [|exact I].
  destruct C as (P & Ix & _).
  assert (Hm : (0 < Z.of_nat (List.length (filteredResults st)))%Z)
    by (rewrite R; simpl; lia).
  destruct (cycle_step st Hm) as (I1 & (n & N & F) & Rs); [lia|].
  split; [exact P|]. split.
  - right. rewrite Rs, I1. apply Z.mod_pos_bound. exact Hm.
  - rewrite F. exists n. split; [|reflexivity].
    apply (filteredResults_In st d n Dd). now apply nth_error_In in N.
Qed.

Lemma consistent_click (idx : nat) (st : state) :
  consistent st -> consistent (clickResult idx st).
Proof.
  intros C. unfold clickResult.
  destruct (nth_error (firstn 50 (filteredResults st)) idx) as [n|] eqn:N; [|exact C].
  unfold consistent in *. cbn [data setActiveResultIndex setActivePinId activePinId
                                activeResultIndex].
  destruct (data st) as [d|] eqn:Dd; [|exact I].
  destruct C as (P & _ & _).
  assert (Hin : In n (filteredResults st)).
  { apply nth_error_In in N. revert N. clear.
    generalize (filteredResults st) as l. intros l.
    rewrite <- (firstn_skipn 50 l) at 2. intros H. apply in_or_app. now left. }
  assert (Hl : (idx < List.length (filteredResults st))%nat).
  { assert (H : (idx < List.length (firstn 50 (filteredResults st)))%nat)
      by (apply nth_error_Some; congruence).
    rewrite length_firstn in H. lia. }
  assert (R : filteredResults
                (setActiveResultIndex (Z.of_nat idx) (setActivePinId (Some (id n)) st))
              = filteredResults st) by (now apply filteredResults_ext).
  split; [exact P|]. split.
  - right. rewrite R. lia.
  - exists n. split; [|reflexivity]. now apply (filteredResults_In st d n Dd).
Qed.

Lemma consistent_query (q : jstring) (st : state) :
  consistent st -> consistent (changeQuery q st).
Proof.
  intros C. unfold changeQuery.
  destruct (jstring_eqb q (searchQuery st)) eqn:E.
  - apply jstring_eqb_eq in E. subst q. now destruct st.
  - unfold consistent in *. cbn [data setActiveResultIndex activeResultIndex activePinId].
    destruct (data st) as [d|]; [|exact I].
    destruct C as (P & _ & A). split; [exact P|]. split; [now left | exact A].
Qed.

Lemma consistent_mode (mode : SearchMode) (st : state) :
  consistent st -> consistent (changeMode mode st).
Proof.
  intros C. unfold changeMode.
  destruct (SearchMode_eqb mode (searchMode st)) eqn:E.
  - assert (mode = searchMode st) by (destruct mode, (searchMode st); now try discriminate).
    subst mode. now destruct st.
  - unfold consistent in *. cbn [data setActiveResultIndex activeResultIndex activePinId].
    destruct (data st) as [d|]; [|exact I].
    destruct C as (P & _ & A). split; [exact P|]. split; [now left | exact A].
Qed.

Lemma consistent_handle (a : app) (e : event) :
  consistent (search a) -> consistent (search (handle a e)).
Proof.
  intros C. destruct e as [text name| |q|mode|key|idx]; cbn [handle with_search search].
  - unfold handleFileUpload.
    destruct (parseNailFile text name) as [result|message] eqn:P; cbn [search]; [|exact C].
    unfold consistent. cbn [data activeResultIndex activePinId].
    split; [now exists text, name|]. split; [now left | exact I].
  - exact I.
  - now apply consistent_query.
  - now apply consistent_mode.
  - now apply consistent_key.
  - now apply consistent_click.
Qed.

Lemma run_consistent (es : list event) : consistent (search (run es)).
Proof.
  unfold run.
  assert (G : forall a, consistent (search a) ->
                        consistent (search (fold_left handle es a))).
  { induction es as [|e es IH]; intros a C; [exact C|].
    cbn [fold_left]. apply IH. now apply consistent_handle. }
  apply G. exact I.
Qed.

(** X13: whatever the user did since the page was opened, when a dataset is
    loaded the index is -1 or that of a match, so that the counter shown,
    index + 1, lies between 0 and the number of matches, and the next cycle
    command, when there are matches, reads an element of the array, never
    past it. *)
Theorem index_stays_on_the_matches (es : list event) (d : ParseResult) :
  let st := search (run es) in
  let results := filteredResults st in
  let m := Z.of_nat (List.length results) in
  data st = Some d ->
  (0 <= activeResultIndex st + 1 <= m)%Z
  /\ ((0 < m)%Z ->
      exists n, at_index results (Z.rem (activeResultIndex st + 1) m) = Some n
                /\ In n (nails d)).
Proof.
  intros st results m Hd.
  pose proof (run_consistent es) as C. fold st in C.
  unfold consistent in C. rewrite Hd in C. destruct C as (_ & Ix & _).
  fold results m in Ix.
  split; [lia|]. intros Hm.
  destruct (cycle_step st Hm) as (_ & (n & N & _) & _); [fold results m; lia|].
  fold results m in N.
  assert (R : Z.rem (activeResultIndex st + 1) m = ((activeResultIndex st + 1) mod m)%Z)
    by (apply Z.rem_mod_nonneg; lia).
  exists n. split.
  - unfold at_index. rewrite R.
    assert (L : ((activeResultIndex st + 1) mod m <? 0)%Z = false).
    { apply Z.ltb_ge. apply Z.mod_pos_bound. exact Hm. }
    now rewrite L.
  - apply (filteredResults_In st d n Hd). now apply nth_error_In in N.
Qed.

Lemma index_stays_on_the_matches_witness :
  let st := search (run [Upload three_points "board.asc"; TypeQuery "a";
                         PressKey "Enter"; PressKey "Enter";
                         ClickResult 2; Upload "no rows" "bad.asc"]) in
  (0 <= activeResultIndex st + 1 <= Z.of_nat (List.length (filteredResults st)))%Z.
Proof.
  intros st.
  destruct (data st) as [d|] eqn:D; [|vm_compute in D; discriminate D].
  exact (proj1 (index_stays_on_the_matches _ d D)).
Defined.

Lemma findPin_In (d : ParseResult) (n : NailData) :
  In n (nails d) ->
  exists pin, PinMap.findPin d (id n) = Some pin /\ In pin (nails d) /\ id pin = id n.
Proof.
  unfold PinMap.findPin. induction (nails d) as [|p l IH]; intros H; [destruct H|].
  cbn [find]. destruct (jstring_eqb (id p) (id n)) eqn:E.
  - exists p. split; [reflexivity|]. split; [now left|]. now apply jstring_eqb_eq.
  - destruct H as [->|H].
    + assert (T : jstring_eqb (id n) (id n) = true).
      { clear. induction (id n) as [|c s IH]; [reflexivity|].
        cbn [jstring_eqb]. rewrite Ascii.eqb_refl. exact IH. }
      congruence.
    + destruct (IH H) as (pin & F & Hin & Hid). exists pin. now repeat split; [|right|].
Qed.

(** X14: whatever the user did since the page was opened, the id the page
    holds as active while a dataset is loaded is the id of a point of that
    dataset, and it is a non-empty string: the map finds a pin for it, and
    focusing sets the zoom to Math.max(zoom, 10), so an active id never falls
    into the branch of the focus effect that does nothing. *)
Theorem active_pin_is_on_the_map (es : list event) (d : ParseResult) (a : jstring) :
  let st := search (run es) in
  data st = Some d -> activePinId st = Some a ->
  truthy a = true
  /\ (exists pin, PinMap.findPin d a = Some pin /\ In pin (nails d) /\ id pin = a)
  /\ forall v, PinMap.zoom (PinMap.focusOn d (Some a) v)
               = Math_max [PinMap.zoom v; 10%float].
Proof.
  intros st Hd Ha.
  pose proof (run_consistent es) as C. fold st in C.
  unfold consistent in C. rewrite Hd, Ha in C.
  destruct C as ((text & name & P) & _ & n & Hin & Hid). subst a.
  destruct (findPin_In d n Hin) as (pin & F & Hp & Hi).
  assert (T : truthy (id n) = true).
  { assert (exists w, id n = "$"%char :: w) as (rest & E)
      by (eapply parsed_ids_keep_marker; eassumption).
    rewrite E. reflexivity. }
  split; [exact T|]. split; [now exists pin|].
  intros v. unfold PinMap.focusOn. rewrite T, F. reflexivity.
Qed.

Lemma active_pin_is_on_the_map_witness :
  let st := search (run [Upload three_points "board.asc"; TypeQuery "a";
                         PressKey "Enter"; TypeQuery "zzz"]) in
  exists a, activePinId st = Some a /\ truthy a = true.
Proof.
  intros st.
  destruct (data st) as [d|] eqn:D; [|vm_compute in D; discriminate D].
  destruct (activePinId st) as [a|] eqn:A; [|vm_compute in A; discriminate A].
  exists a. split; [reflexivity|].
  exact (proj1 (active_pin_is_on_the_map _ d a D A)).
Defined.

(** ** Uploading *)

(** X15: an upload whose parse throws, as it does with the no-data message
    for a text without any accepted row, leaves the dataset on the page, the
    query, the selection and the pin scale as they were and sets the error
    to the message thrown; an upload whose parse returns a dataset shows
    that dataset, made of the accepted rows, with no error, an empty query,
    no selection and no matches, in the search mode chosen before, and sets
    the pin scale from its bounds. *)
Theorem upload_outcome (text name : jstring) (a : app) :
  let a' := handleFileUpload text name a in
  (rows_of (lines text) = [] ->
   a' = {| search := search a; error := Some noDataMessage; pinScale := pinScale a |})
  /\ (forall message,
        parseNailFile text name = Throws message ->
        a' = {| search := search a; error := Some message; pinScale := pinScale a |})
  /\ (forall result,
        parseNailFile text name = Returns result ->
        data (search a') = Some result
        /\ nails result = rows_of (lines text)
        /\ error a' = None
        /\ searchQuery (search a') = []
        /\ searchMode (search a') = searchMode (search a)
        /\ activePinId (search a') = None
        /\ activeResultIndex (search a') = (-1)%Z
        /\ filteredResults (search a') = []
        /\ pinScale a' = calculatedScale result).
Proof.
  cbv zeta. unfold handleFileUpload. split; [|split].
  - intros E. destruct (parse_cases text name) as [[_ P]|[NE _]]; [|congruence].
    now rewrite P.
  - intros message P. now rewrite P.
  - intros result P. rewrite P. cbn.
    repeat split. now apply (parse_returns_rows text name).
Qed.

Lemma upload_outcome_witness :
  handleFileUpload "no rows" "bad.asc" (run [Upload three_points "board.asc"])
  = {| search := search (run [Upload three_points "board.asc"]);
       error := Some noDataMessage;
       pinScale := pinScale (run [Upload three_points "board.asc"]) |}.
Proof.
  apply (proj1 (upload_outcome "no rows" "bad.asc" (run [Upload three_points "board.asc"]))).
  vm_compute. reflexivity.
Defined.

(** ** Searching *)

Lemma filter_refine {A : Type} (f g : A -> bool) (l : list A) :
  (forall n, f n = true -> g n = true) -> filter f l = filter f (filter g l).
Proof.
  intros H. induction l as [|n l IH]; [reflexivity|].
  cbn [filter]. destruct (f n) eqn:F.
  - rewrite (H n F). cbn [filter]. rewrite F. now f_equal.
  - destruct (g n); [cbn [filter]; rewrite F|]; exact IH.
Qed.

Lemma includes_trans (a b c : jstring) :
  includes a b = true -> includes b c = true -> includes a c = true.
Proof.
  rewrite !includes_spec. intros (p1 & q1 & ->) (p2 & q2 & ->).
  exists (p2 ++ p1), (q1 ++ q2). now rewrite <- !app_assoc.
Qed.

(** X16: a query whose lower-case form contains the lower-case form of a
    query that is not blank has no match that the other lacks: its matches
    are those of the matches of the other that it keeps, in the same
    order. *)
Theorem containing_query_narrows_the_matches (st : state) (q : jstring) :
  blank (searchQuery st) = false ->
  includes (toLowerCase (searchQuery st)) (toLowerCase q) = true ->
  let st' := {| data := data st;
                searchQuery := q;
                searchMode := searchMode st;
                activePinId := activePinId st;
                activeResultIndex := activeResultIndex st |} in
  (exists keep, filteredResults st' = filter keep (filteredResults st))
  /\ (forall n, In n (filteredResults st') -> In n (filteredResults st))
  /\ (List.length (filteredResults st') <= List.length (filteredResults st))%nat.
Proof.
  intros B Hq st'.
  assert (K : exists keep, filteredResults st' = filter keep (filteredResults st)).
  { unfold filteredResults, st'. cbn [data searchQuery searchMode].
    destruct (data st) as [d|]; [|now exists (fun _ => true)].
    rewrite !truthy_trim, !negb_involutive, B.
    destruct (blank q).
    - exists (fun _ => false). induction (filter _ (nails d)) as [|n l IH];
        [reflexivity | exact IH].
    - exists (fun n => includes (toLowerCase q)
                         (toLowerCase (searched (searchMode st) n))).
      apply filter_refine. intros n. now apply includes_trans. }
  destruct K as (keep & K). split; [now exists keep|]. rewrite K. split.
  - intros n H. now apply filter_In in H.
  - apply filter_length_le.
Qed.

Lemma containing_query_narrows_the_matches_witness :
  (List.length (filteredResults (searching scenarioD "NET_" net))
   <= List.length (filteredResults (searching scenarioD "net" net)))%nat.
Proof.
  apply (containing_query_narrows_the_matches (searching scenarioD "net" net) "NET_").
  - vm_compute. reflexivity.
  - vm_compute. reflexivity.
Defined.

Lemma includes_refl (s : jstring) : includes s s = true.
Proof. apply includes_spec. exists [], []. now rewrite app_nil_r. Qed.

Lemma head_not_blank (c : ascii) (rest : jstring) :
  isWhiteSpace c = false -> blank (c :: rest) = false.
Proof. intros H. unfold blank. cbn [forallb]. now rewrite H. Qed.

(** X17: every point of a dataset the parser returned can be found again:
    with its id as the query in the mode for ids, and with its net name as
    the query in the mode for nets, the point is among the matches. *)
Theorem every_point_can_be_found
    (content fileName : jstring) (r : ParseResult) (p : NailData)
    (mode : SearchMode) (a : option jstring) (i : Z) :
  parseNailFile content fileName = Returns r -> In p (nails r) ->
  In p (filteredResults {| data := Some r; searchQuery := searched mode p;
                           searchMode := mode; activePinId := a;
                           activeResultIndex := i |}).
Proof.
  intros Hp Hin.
  assert (B : blank (searched mode p) = false).
  { destruct mode; cbn [searched].
    - assert (exists w, id p = "$"%char :: w) as (w & ->)
        by (eapply parsed_ids_keep_marker; eassumption).
      reflexivity.
    - pose proof Hin as Hin'.
      rewrite (parse_returns_rows content fileName r Hp) in Hin'.
      apply rows_of_In in Hin'. destruct Hin' as (line & _ & Hrow).
      destruct (row_netName line p Hrow) as (_ & c & rest & -> & W).
      now apply head_not_blank. }
  unfold filteredResults. cbn [data searchQuery searchMode].
  rewrite truthy_trim, negb_involutive, B. cbn [negb].
  apply filter_In. split; [exact Hin | apply includes_refl].
Qed.

Lemma every_point_can_be_found_witness :
  exists r p, parseNailFile three_points "board.asc" = Returns r
              /\ In p (filteredResults (searching r (netName p) net)).
Proof.
  destruct (parseNailFile three_points "board.asc") as [r|m] eqn:E;
    [|vm_compute in E; discriminate E].
  destruct (nails r) as [|p ps] eqn:N; [vm_compute in E; injection E as <-; discriminate N|].
  exists r, p. split; [reflexivity|].
  apply (every_point_can_be_found three_points "board.asc" r p net None (-1) E).
  rewrite N. now left.
Defined.

(** ** The legend *)

Lemma jstring_eqb_refl (s : jstring) : jstring_eqb s s = true.
Proof. now apply jstring_eqb_eq. Qed.

Lemma existsb_jstring (t : jstring) (l : list jstring) :
  existsb (jstring_eqb t) l = true <-> In t l.
Proof.
  rewrite existsb_exists. split.
  - intros (u & Hin & E). apply jstring_eqb_eq in E. now subst u.
  - intros H. exists t. split; [exact H | apply jstring_eqb_refl].
Qed.

Lemma set_add_spec (acc : list jstring) (t : jstring) :
  NoDup acc ->
  NoDup (set_add acc t) /\ forall u, In u (set_add acc t) <-> In u acc \/ u = t.
Proof.
  intros ND. unfold set_add. destruct (existsb (jstring_eqb t) acc) eqn:E.
  - apply existsb_jstring in E. split; [exact ND|].
    intros u. split; [tauto | intros [H| ->]; assumption].
  - assert (NI : ~ In t acc).
    { intros H. apply existsb_jstring in H. congruence. }
    split.
    + apply NoDup_rev in ND. rewrite <- (rev_involutive (acc ++ [t])).
      apply NoDup_rev. rewrite rev_app_distr. cbn [rev List.app].
      constructor; [|exact ND]. now rewrite <- in_rev.
    + intros u. rewrite in_app_iff. cbn [In]. intuition congruence.
Qed.

Lemma set_fold_spec (ts : list jstring) :
  forall acc, NoDup acc ->
    NoDup (fold_left set_add ts acc)
    /\ forall u, In u (fold_left set_add ts acc) <-> In u acc \/ In u ts.
Proof.
  induction ts as [|t ts IH]; intros acc ND; cbn [fold_left].
  - split; [exact ND|]. intros u. cbn [In]. tauto.
  - destruct (set_add_spec acc t ND) as (ND' & M).
    destruct (IH _ ND') as (ND'' & M'). split; [exact ND''|].
    intros u. rewrite M', M. cbn [In]. intuition congruence.
Qed.

Lemma jstring_ltb_total (a b : jstring) :
  jstring_ltb a b = false -> a <> b -> jstring_ltb b a = true.
Proof.
  revert b. induction a as [|c a IH]; intros [|d b]; cbn [jstring_ltb];
    try congruence; try reflexivity.
  rewrite orb_false_iff. intros [L R] NE.
  apply Nat.ltb_ge in L.
  destruct (Ascii.eqb c d) eqn:E.
  - apply Ascii.eqb_eq in E. subst d. rewrite Ascii.eqb_refl.
    cbn [andb] in *. rewrite (IH b R); [apply orb_true_r | congruence].
  - assert (nat_of_ascii c <> nat_of_ascii d).
    { intros H. apply (f_equal ascii_of_nat) in H.
      rewrite !ascii_nat_embedding in H. subst d.
      rewrite Ascii.eqb_refl in E. discriminate E. }
    assert (T : (nat_of_ascii d <? nat_of_ascii c)%nat = true) by (apply Nat.ltb_lt; lia).
    now rewrite T.
Qed.

Lemma jstring_ltb_irrefl (a : jstring) : jstring_ltb a a = false.
Proof.
  induction a as [|c a IH]; [reflexivity|]. cbn [jstring_ltb].
  now rewrite Nat.ltb_irrefl, Ascii.eqb_refl, IH.
Qed.

Lemma jstring_ltb_trans (a b c : jstring) :
  jstring_ltb a b = true -> jstring_ltb b c = true -> jstring_ltb a c = true.
Proof.
  revert b c. induction a as [|x a IH]; intros [|y b] [|z c]; cbn [jstring_ltb];
    try congruence.
  rewrite !orb_true_iff, !andb_true_iff, !Nat.ltb_lt, !Ascii.eqb_eq.
  intros [H1|[-> H1]] [H2|[-> H2]].
  - left. lia.
  - now left.
  - now left.
  - right. split; [reflexivity|]. now apply (IH b c).
Qed.

Lemma insert_sorted_In (t : jstring) (l : list jstring) (u : jstring) :
  In u (insert_sorted t l) <-> u = t \/ In u l.
Proof.
  induction l as [|a l IH]; cbn [insert_sorted In].
  - intuition congruence.
  - destruct (jstring_ltb t a); cbn [In]; [intuition congruence|].
    rewrite IH. intuition congruence.
Qed.

Lemma insert_sorted_increasing (t : jstring) (l : list jstring) :
  increasing l = true -> ~ In t l -> increasing (insert_sorted t l) = true.
Proof.
  induction l as [|a l IH]; intros Inc NI; [reflexivity|].
  cbn [insert_sorted]. destruct (jstring_ltb t a) eqn:L.
  - cbn [increasing]. now rewrite L.
  - assert (La : jstring_ltb a t = true).
    { apply jstring_ltb_total; [exact L|]. intros ->. apply NI. now left. }
    assert (Inc' : increasing l = true).
    { destruct l as [|b l]; [reflexivity|]. cbn [increasing] in Inc.
      now apply andb_true_iff in Inc. }
    assert (NI' : ~ In t l) by (intros H; apply NI; now right).
    specialize (IH Inc' NI').
    destruct l as [|b l]; cbn [insert_sorted] in *.
    + cbn [increasing]. now rewrite La.
    + cbn [increasing] in Inc. apply andb_true_iff in Inc. destruct Inc as [Lb _].
      destruct (jstring_ltb t b).
      * cbn [increasing] in *. now rewrite La, IH.
      * cbn [increasing] in *. now rewrite Lb, IH.
Qed.

Lemma sort_spec (l : list jstring) :
  NoDup l -> increasing (sort l) = true /\ forall u, In u (sort l) <-> In u l.
Proof.
  induction l as [|t l IH]; intros ND; [split; [reflexivity | tauto]|].
  inversion ND as [|? ? NI ND']. subst.
  destruct (IH ND') as (Inc & M). unfold sort in *. cbn [fold_right]. split.
  - apply insert_sorted_increasing; [exact Inc|]. now rewrite M.
  - intros u. rewrite insert_sorted_In, M. cbn [In]. intuition congruence.
Qed.

Lemma increasing_below (a : jstring) (l : list jstring) :
  increasing (a :: l) = true -> forall u, In u l -> jstring_ltb a u = true.
Proof.
  revert a. induction l as [|b l IH]; intros a Inc u Hu; [destruct Hu|].
  cbn [increasing] in Inc. apply andb_true_iff in Inc. destruct Inc as [L Inc].
  destruct Hu as [<-|Hu]; [exact L|].
  apply (jstring_ltb_trans a b u L). now apply IH.
Qed.

(** X18: the legend lists exactly the types of the points of the dataset,
    each once, in strictly increasing order of their code units; without a
    dataset it is empty. *)
Theorem legend_lists_each_type_once (d : ParseResult) :
  increasing (uniqueTypes (Some d)) = true
  /\ NoDup (uniqueTypes (Some d))
  /\ (forall t, In t (uniqueTypes (Some d)) <-> exists n, In n (nails d) /\ type n = t)
  /\ uniqueTypes None = [].
Proof.
  unfold uniqueTypes.
  destruct (set_fold_spec (map type (nails d)) [] (NoDup_nil _)) as (ND & M).
  destruct (sort_spec _ ND) as (Inc & S).
  split; [exact Inc|]. split; [|split; [|reflexivity]].
  - revert Inc. generalize (sort (fold_left set_add (map type (nails d)) [])).
    intros l. induction l as [|a l IH]; intros Inc; constructor.
    + intros H. pose proof (increasing_below a l Inc a H) as L.
      now rewrite jstring_ltb_irrefl in L.
    + apply IH. destruct l as [|b l]; [reflexivity|]. cbn [increasing] in Inc.
      now apply andb_true_iff in Inc.
  - intros t. rewrite S, M, in_map_iff. cbn [In]. split.
    + intros [[]|(n & E & H)]. now exists n.
    + intros (n & H & E). right. now exists n.
Qed.

(** ** The pin scale *)

Lemma nonneg_number (z : float) : (0 <=? z)%float = true -> isNaN z = false.
Proof. rewrite leb_0_spec, isNaN_spec. apply SF_nonneg_number. Qed.

(** X21: an upload of a file whose accepted rows all have finite coordinates
    sets the pin scale to a number that is at least 0.1 (it can be
    [+Infinity]), never NaN. *)
Theorem pinScale_is_at_least_a_tenth
    (text name : jstring) (r : ParseResult) (a : app) :
  parseNailFile text name = Returns r -> finite_points r ->
  pinScale (handleFileUpload text name a) = calculatedScale r
  /\ isNaN (calculatedScale r) = false
  /\ (0.1 <=? calculatedScale r)%float = true.
Proof.
  intros Hp Hf. split; [unfold handleFileUpload; now rewrite Hp|].
  destruct (finite_bounds text name r Hp Hf) as (F1 & F2 & F3 & F4 & Lx & Ly).
  unfold calculatedScale. cbv zeta.
  set (w := (maxX (bounds r) - minX (bounds r))%float).
  set (h := (maxY (bounds r) - minY (bounds r))%float).
  assert (W : (0 <=? w)%float = true) by (now apply sub_nonneg).
  assert (H : (0 <=? h)%float = true) by (now apply sub_nonneg).
  assert (V : (0 <=? (w + h) / 2 / 150)%float = true).
  { apply (div_nonneg _ 150 5277655813324800 (-45) eq_refl).
    apply (div_nonneg _ 2 4503599627370496 (-51) eq_refl).
    now apply add_nonneg. }
  destruct (Math_max2_spec 0.1 ((w + h) / 2 / 150)%float eq_refl (nonneg_number _ V))
    as (N & L & _).
  split; assumption.
Qed.

Lemma pinScale_is_at_least_a_tenth_witness :
  (0.1 <=? pinScale (handleFileUpload three_points "board.asc" initial))%float = true.
Proof.
  destruct (parseNailFile three_points "board.asc") as [r|m] eqn:E;
    [|vm_compute in E; discriminate E].
  destruct (pinScale_is_at_least_a_tenth three_points "board.asc" r initial E)
    as (S1 & _ & S3).
  - vm_compute in E. injection E as <-.
    intros p Hp. cbn [nails In] in Hp.
    destruct Hp as [<-|[<-|[<-|[]]]]; split; reflexivity.
  - rewrite S1. exact S3.
Defined.

(** ** The case of the query *)

Lemma isWhiteSpace_lowerChar (c : ascii) : isWhiteSpace (lowerChar c) = isWhiteSpace c.
Proof.
  destruct c as [[|] [|] [|] [|] [|] [|] [|] [|]]; vm_compute; reflexivity.
Qed.

Lemma blank_toLowerCase (q : jstring) : blank (toLowerCase q) = blank q.
Proof.
  unfold blank, toLowerCase. induction q as [|c q IH]; [reflexivity|].
  cbn [map forallb]. now rewrite isWhiteSpace_lowerChar, IH.
Qed.

(** X23: the search does not see the case of the query: two queries with
    the same lower-case form give the same matches, in either mode. *)
Theorem search_ignores_case (st : state) (q1 q2 : jstring) :
  toLowerCase q1 = toLowerCase q2 ->
  filteredResults {| data := data st; searchQuery := q1; searchMode := searchMode st;
                     activePinId := activePinId st;
                     activeResultIndex := activeResultIndex st |}
  = filteredResults {| data := data st; searchQuery := q2; searchMode := searchMode st;
                       activePinId := activePinId st;
                       activeResultIndex := activeResultIndex st |}.
Proof.
  intros E. unfold filteredResults. cbn [data searchQuery searchMode].
  destruct (data st) as [d|]; [|reflexivity].
  rewrite !truthy_trim, <- (blank_toLowerCase q1), <- (blank_toLowerCase q2), E.
  reflexivity.
Qed.

Lemma search_ignores_case_witness :
  filteredResults (searching scenarioD "NET" net)
  = filteredResults (searching scenarioD "net" net).
Proof.
  apply (search_ignores_case (searching scenarioD "" net) "NET" "net").
  vm_compute. reflexivity.
Defined.

(** ** The counter and the active pin *)

Lemma agrees_handle (a : app) (e : event) :
  consistent (search a) -> agrees (search a) -> agrees (search (handle a e)).
Proof.
  intros C A. destruct e as [text name| |q|mode|key|idx]; cbn [handle with_search search].
  - unfold handleFileUpload.
    destruct (parseNailFile text name) as [result|message]; cbn [search]; [|exact A].
    unfold agrees. cbn [data activeResultIndex]. intros n H. discriminate H.
  - exact I.
  - unfold changeQuery. destruct (jstring_eqb q (searchQuery (search a))) eqn:E.
    + apply jstring_eqb_eq in E. subst q. now destruct (search a).
    + unfold agrees. cbn [data setActiveResultIndex activeResultIndex].
      destruct (data (search a)); [|exact I]. intros n H. discriminate H.
  - unfold changeMode. destruct (SearchMode_eqb mode (searchMode (search a))) eqn:E.
    + assert (mode = searchMode (search a))
        by (destruct mode, (searchMode (search a)); now try discriminate).
      subst mode. now destruct (search a).
    + unfold agrees. cbn [data setActiveResultIndex activeResultIndex].
      destruct (data (search a)); [|exact I]. intros n H. discriminate H.
  - set (st := search a) in *.
    destruct (jstring_eqb key "Enter") eqn:K.
    2:{ rewrite handleSearchKeyDown_other; [exact A|]. intros ->. discriminate K. }
    apply jstring_eqb_eq in K. subst key. fold (cycle st).
    destruct (filteredResults st) as [|r0 rs] eqn:R.
    { unfold cycle. now rewrite handleSearchKeyDown_none. }
    assert (D : data (cycle st) = data st).
    { unfold cycle, handleSearchKeyDown.
      destruct (jstring_eqb "Enter" "Enter"); [|reflexivity].
      destruct (0 <? _)%Z; [|reflexivity].
      destruct (at_index _ _); reflexivity. }
    unfold agrees, consistent in *. rewrite D.
    destruct (data st) as [d|] eqn:Dd; [|exact I].
    destruct C as (_ & Ix & _).
    assert (Hm : (0 < Z.of_nat (List.length (filteredResults st)))%Z)
      by (rewrite R; simpl; lia).
    destruct (cycle_step st Hm) as (I1 & (n & N & F) & Rs); [lia|].
    rewrite Rs, I1, F. intros n' H. unfold at_index in H.
    pose proof (Z.mod_pos_bound (activeResultIndex st + 1) _ Hm) as B.
    assert (L : ((activeResultIndex st + 1)
                 mod Z.of_nat (List.length (filteredResults st)) <? 0)%Z = false)
      by (apply Z.ltb_ge; lia).
    rewrite L in H. congruence.
  - set (st := search a) in *. unfold clickResult.
    destruct (nth_error (firstn 50 (filteredResults st)) idx) as [n|] eqn:N; [|exact A].
    unfold agrees. cbn [data setActiveResultIndex setActivePinId activePinId
                        activeResultIndex].
    destruct (data st) as [d|] eqn:Dd; [|exact I].
    assert (R : filteredResults
                  (setActiveResultIndex (Z.of_nat idx) (setActivePinId (Some (id n)) st))
                = filteredResults st) by (now apply filteredResults_ext).
    rewrite R. intros n' H. unfold at_index in H.
    assert (L : (Z.of_nat idx <? 0)%Z = false) by (apply Z.ltb_ge; lia).
    rewrite L, Nat2Z.id in H.
    assert (N' : nth_error (filteredResults st) idx = Some n).
    { assert (Hl : (idx < 50)%nat).
      { assert (Hx : (idx < List.length (firstn 50 (filteredResults st)))%nat)
          by (apply nth_error_Some; congruence).
        rewrite length_firstn in Hx. lia. }
      rewrite <- N, nth_error_firstn.
      apply Nat.ltb_lt in Hl. now rewrite Hl. }
    congruence.
Qed.

Lemma run_agrees (es : list event) :
  consistent (search (run es)) /\ agrees (search (run es)).
Proof.
  unfold run.
  assert (G : forall a, consistent (search a) /\ agrees (search a) ->
                        consistent (search (fold_left handle es a))
                        /\ agrees (search (fold_left handle es a))).
  { induction es as [|e es IH]; intros a [C A]; [now split|].
    cbn [fold_left]. apply IH. split.
    - now apply consistent_handle.
    - now apply agrees_handle. }
  apply G. split; exact I.
Qed.

(** X24: whatever the user did since the page was opened, while a dataset is
    loaded and the counter shows a position k >= 1 (the index is k - 1 >= 0),
    the k-th match exists and is the active pin: the counter and the pin
    highlighted on the map never disagree. *)
Theorem counter_designates_the_active_pin (es : list event) (d : ParseResult) :
  let st := search (run es) in
  data st = Some d -> (0 <= activeResultIndex st)%Z ->
  exists n, nth_error (filteredResults st) (Z.to_nat (activeResultIndex st)) = Some n
            /\ activePinId st = Some (id n)
            /\ In n (nails d).
Proof.
  intros st Hd Hi.
  destruct (run_agrees es) as [C A]. fold st in C, A.
  unfold consistent, agrees in *. rewrite Hd in *.
  destruct C as (_ & [Ix|Ix] & _); [lia|].
  destruct (nth_error (filteredResults st) (Z.to_nat (activeResultIndex st)))
    as [n|] eqn:N.
  2:{ apply nth_error_None in N. lia. }
  exists n. split; [reflexivity|]. split.
  - apply A. unfold at_index.
    assert (L : (activeResultIndex st <? 0)%Z = false) by (apply Z.ltb_ge; lia).
    now rewrite L.
  - apply (filteredResults_In st d n Hd). now apply nth_error_In in N.
Qed.

Lemma counter_designates_the_active_pin_witness :
  let st := search (run [Upload three_points "board.asc"; TypeQuery "a";
                         PressKey "Enter"; ClickResult 2; PressKey "Tab"]) in
  exists n, activePinId st = Some (id n) /\ activeResultIndex st = 2%Z.
Proof.
  intros st.
  destruct (data st) as [d|] eqn:D; [|vm_compute in D; discriminate D].
  destruct (counter_designates_the_active_pin _ d D) as (n & _ & A & _);
    [vm_compute; discriminate|].
  exists n. split; [exact A | vm_compute; reflexivity].
Defined.

End SessionFacts.
